(** * NIDS: a shallow embedding of the packet pipeline

    The development follows the Python sources file by file:
    - [Extractor]  backend/extractor.py  (feature vector, log record)
    - [Training]   generate_model.py     (the training feature list)
    - [MLEngine]   backend/ml_engine.py  (classifier wrapper)
    - [Sniffer]    backend/sniffer.py    (capture callback, batching sender)
    - [Api]        backend/api.py        (ingestion store, alerts)
    - [Pipeline]   the sniffer posting its batches to the API
    - [SnifferConfig], [ApiReads], [Server], [TrainingRows]: the
      remaining functions of the same files
    - [Frontend]   frontend/ui_main.py   (the analytics charts)

    Number model.  Python [int] is [Z].  A finite Python [float] is
    modelled by the rational it denotes ([Q]), and arithmetic on floats
    rounds its exact result to the nearest binary64, ties to even
    ([Py.fl64]).  The floats that flow through the pipeline are finite;
    [Py.float] adds the negative zero, the infinities and NaN where a
    function is stated on every float.  Dicts whose keys arrive from JSON are
    [gmap string value]; dict literals with a fixed key set are records. *)

From Stdlib Require Import ZArith QArith Qround Qabs Qpower String Ascii List Lia Lqa DecimalString.
From Stdlib Require Import Permutation Sorted.
From stdpp Require Import base gmap list strings sorting.

Open Scope Z_scope.

(** ** Python values, exceptions, and a few builtins *)

Module Py.

(** JSON-representable scalars stored in the dict-shaped records. *)
Inductive value :=
| VNone
| VBool (b : bool)
| VInt (n : Z)
| VFloat (q : Q)
| VStr (s : string).

(** The subclasses of [Exception] that the modelled code can meet. *)
Inductive exn :=
| KeyError (k : string)
| IndexError
| ValueError
| TypeError
| AttributeError
| RequestException.

Inductive outcome (A : Type) :=
| Ok (a : A)
| Raise (e : exn).
Arguments Ok {A} a.
Arguments Raise {A} e.

Definition bind {A B} (m : outcome A) (k : A -> outcome B) : outcome B :=
  match m with
  | Ok a => k a
  | Raise e => Raise e
  end.

(** [d[k]] on a dict. *)
Definition getitem (d : gmap string value) (k : string) : outcome value :=
  match d !! k with
  | Some v => Ok v
  | None => Raise (KeyError k)
  end.

(** [d.get(k, dflt)]. *)
Definition get (d : gmap string value) (k : string) (dflt : value) : value :=
  default dflt (d !! k).

(** [l[i]] on a sequence: a negative index counts from the end. *)
Definition index {A} (l : list A) (i : Z) : outcome A :=
  let n := Z.of_nat (length l) in
  let j := if i <? 0 then i + n else i in
  if (0 <=? j) && (j <? n)
  then match l !! Z.to_nat j with
       | Some x => Ok x
       | None => Raise IndexError
       end
  else Raise IndexError.

(** [l[-n:]] for a positive [n]: the last [n] elements, or all of [l]. *)
Definition last_n {A} (n : nat) (l : list A) : list A :=
  drop (length l - n) l.

(** [a == v] where [a] is an int: numeric comparison across bool, int and
    float; never equal to a string or to None. *)
Definition int_eq (a : Z) (v : value) : bool :=
  match v with
  | VInt b => a =? b
  | VBool b => a =? (if b then 1 else 0)
  | VFloat q => Qeq_bool (inject_Z a) q
  | VNone | VStr _ => false
  end.

(** [x < y] on floats. *)
Definition float_lt (x y : Q) : bool :=
  match (x ?= y)%Q with
  | Lt => true
  | _ => false
  end.

(** [str(n)] for an int. *)
Definition str_int (n : Z) : string :=
  NilZero.string_of_int (Z.to_int n).

(** [str(l)] for a list of ints: ["[6, 60, 64, 1]"]. *)
Fixpoint join_ints (l : list Z) : string :=
  match l with
  | [] => ""
  | [x] => str_int x
  | x :: rest => str_int x +:+ ", " +:+ join_ints rest
  end.

Definition str_int_list (l : list Z) : string :=
  "[" +:+ join_ints l +:+ "]".

Definition digit (d : Z) : ascii :=
  ascii_of_nat (48 + Z.to_nat (d mod 10)).

Definition is_digit (c : ascii) : Prop :=
  In c (list_ascii_of_string "0123456789").

Definition all_digits (s : string) : Prop :=
  Forall is_digit (list_ascii_of_string s).

(** Nearest integer, ties to the even neighbour. *)
Definition round_half_even (q : Q) : Z :=
  let fl := Qfloor q in
  let r := (q - inject_Z fl)%Q in
  match (r ?= 1 # 2)%Q with
  | Lt => fl
  | Gt => fl + 1
  | Eq => if Z.even fl then fl else fl + 1
  end.

(** [2.0 ** e]. *)
Definition pow2 (e : Z) : Q := (2 ^ e)%Q.

(** The exponent [k] with [2^k <= q < 2^(k+1)], for a positive [q]. *)
Definition log2_floor (q : Q) : Z :=
  let k := Z.log2 (Qnum q) - Z.log2 (Z.pos (Qden q)) in
  if Qle_bool (pow2 k) q then k else k - 1.

(** The exponent of the unit in the last place of a binary64 next to
    [q]: 53 significant bits, and no unit below [2^-1074]. *)
Definition ulp_exponent (q : Q) : Z :=
  Z.max (-1074) (log2_floor (Qabs q) - 52).

(** The binary64 nearest to [q], ties to the even significand, before the
    test for overflow. *)
Definition fl64 (q : Q) : Q :=
  let e := ulp_exponent q in
  Qred (inject_Z (round_half_even (q / pow2 e)) * pow2 e).

(** A rounded result from [2^1024] on is no finite binary64. *)
Definition overflows (x : Q) : bool := Qle_bool (pow2 1024) (Qabs x).

(** [x - y] on floats. *)
Definition float_sub (x y : Q) : Q := fl64 (x - y).

(** The sign, the integer digits and the four fractional digits that
    [f'{x:.4f}'] prints. *)
Definition sign_4f (x : Q) : string :=
  match (x ?= 0)%Q with
  | Lt => "-"
  | _ => ""
  end.

Definition scaled_4f (x : Q) : Z :=
  round_half_even (Qabs x * 10000).

Definition int_part_4f (x : Q) : string :=
  NilZero.string_of_uint (N.to_uint (Z.to_N (scaled_4f x / 10000))).

Definition frac_part_4f (x : Q) : string :=
  let n := scaled_4f x in
  String (digit (n / 1000))
    (String (digit (n / 100))
       (String (digit (n / 10))
          (String (digit n) ""))).

(** [f'{x:.4f}'] for a finite [x]. *)
Definition format_4f (x : Q) : string :=
  sign_4f x +:+ int_part_4f x +:+ "." +:+ frac_part_4f x.

(** A Python float: a finite binary64 (a zero [q] is the positive zero),
    the negative zero, an infinity, or NaN. *)
Inductive float :=
| Finite (q : Q)
| NegZero
| Inf (negative : bool)
| NaN.

Coercion Finite : Q >-> float.

(** [f'{x:.4f}'] for every float. *)
Definition format_float_4f (x : float) : string :=
  match x with
  | Finite q => format_4f q
  | NegZero => "-0.0000"
  | Inf false => "inf"
  | Inf true => "-inf"
  | NaN => "nan"
  end.

(** [base64.b64encode(bs).decode('ascii')]. *)
Definition b64_alphabet : list ascii :=
  list_ascii_of_string
    "ABCDEFGHIJKLMNOPQRSTUVWXYZabcdefghijklmnopqrstuvwxyz0123456789+/".

Definition b64_char (n : N) : ascii :=
  nth (N.to_nat (n mod 64)%N) b64_alphabet "="%char.

Fixpoint b64encode (bs : list Byte.byte) : string :=
  match bs with
  | [] => ""
  | [a] =>
      let n := (Byte.to_N a * 65536)%N in
      String (b64_char (n / 262144)) (String (b64_char (n / 4096)) "==")
  | [a; b] =>
      let n := (Byte.to_N a * 65536 + Byte.to_N b * 256)%N in
      String (b64_char (n / 262144))
        (String (b64_char (n / 4096)) (String (b64_char (n / 64)) "="))
  | a :: b :: c :: rest =>
      let n := (Byte.to_N a * 65536 + Byte.to_N b * 256 + Byte.to_N c)%N in
      String (b64_char (n / 262144))
        (String (b64_char (n / 4096))
           (String (b64_char (n / 64))
              (String (b64_char n) (b64encode rest))))
  end.

End Py.

Import Py.

Notation "x <- m ;; k" := (Py.bind m (fun x => k))
  (at level 100, m at next level, right associativity, only parsing).

(** ** backend/extractor.py *)

Module Extractor.

(** What the code reads of a Scapy packet: its timestamp, its bytes, and
    the layers that the [IP in packet], [TCP in packet] and
    [UDP in packet] tests look for. *)
Record IPLayer := {
  ip_src : string;
  ip_dst : string;
  ip_proto : Z;
  ip_ttl : Z
}.

(** The TCP flags field: bit 0 is F, then S, R, P, A, U, E, C, N. *)
Record TCPLayer := {
  tcp_flags : Z
}.

Record Packet := {
  pkt_time : Q;
  pkt_bytes : list Byte.byte;
  pkt_IP : option IPLayer;
  pkt_TCP : option TCPLayer;
  pkt_UDP : bool
}.

(** [len(packet)] is the length of [bytes(packet)]. *)
Definition len (packet : Packet) : Z :=
  Z.of_nat (length (pkt_bytes packet)).

Definition flag_F (t : TCPLayer) : bool := Z.testbit (tcp_flags t) 0.
Definition flag_S (t : TCPLayer) : bool := Z.testbit (tcp_flags t) 1.
Definition flag_R (t : TCPLayer) : bool := Z.testbit (tcp_flags t) 2.
Definition flag_A (t : TCPLayer) : bool := Z.testbit (tcp_flags t) 4.

(** [str(packet[TCP].flags)]: the letters of the set bits, low bit first. *)
Definition flag_letters : list ascii :=
  list_ascii_of_string "FSRPAUECN".

Definition str_flags (t : TCPLayer) : string :=
  string_of_list_ascii
    (omap (fun '(i, c) => if Z.testbit (tcp_flags t) (Z.of_nat i)
                          then Some c else None)
       (imap (fun i c => (i, c)) flag_letters)).

Definition extract_features (packet : Packet) : option (list Z) :=
  let features := [0; 0; 0; 0] in
  let features := <[1%nat := len packet]> features in
  match pkt_IP packet with
  | Some ip_layer =>
      let features := <[2%nat := ip_ttl ip_layer]> features in
      let features := <[0%nat := ip_proto ip_layer]> features in
      let features :=
        match pkt_TCP packet with
        | Some tcp_layer =>
            let flags_count :=
              Z.b2z (flag_S tcp_layer) + Z.b2z (flag_A tcp_layer)
              + Z.b2z (flag_F tcp_layer) + Z.b2z (flag_R tcp_layer) in
            <[3%nat := flags_count]> features
        | None =>
            if pkt_UDP packet then <[3%nat := 0]> features else features
        end in
      Some features
  | None => None
  end.

(** The field order the docstring of [extract_features] announces. *)
Definition documented_order : list string :=
  ["protocol"; "length"; "ttl"; "flags_count"]%string.

Definition packet_to_log_data (packet : Packet) (classification : Z)
    (confidence : float) : gmap string value :=
  let log_data : gmap string value :=
    <["timestamp" := VFloat (pkt_time packet)]>
    (<["src_ip" := VNone]>
    (<["dst_ip" := VNone]>
    (<["protocol" := VStr "Other"]>
    (<["size" := VInt (len packet)]>
    (<["flags" := VStr ""]>
    (<["classification" :=
         VStr (if classification =? 1 then "Anomaly" else "Normal")]>
    (<["confidence" := VStr (format_float_4f confidence)]> ∅))))))) in
  match pkt_IP packet with
  | Some ip =>
      let log_data := <["src_ip" := VStr (ip_src ip)]> log_data in
      let log_data := <["dst_ip" := VStr (ip_dst ip)]> log_data in
      let log_data := <["protocol" := VInt (ip_proto ip)]> log_data in
      match pkt_TCP packet with
      | Some tcp =>
          let log_data := <["protocol" := VStr "TCP"]> log_data in
          <["flags" := VStr (str_flags tcp)]> log_data
      | None =>
          if pkt_UDP packet
          then <["protocol" := VStr "UDP"]> log_data
          else log_data
      end
  | None => log_data
  end.

End Extractor.

(** ** generate_model.py *)

Module Training.

Definition SNIFFER_FEATURES : list string :=
  ["size"; "ip_header_len"; "ip_ttl"; "sport"; "dport";
   "tcp_syn_flag"; "tcp_ack_flag"; "tcp_window";
   "protocol_TCP"; "protocol_UDP"; "protocol_ICMP"]%string.

End Training.

(** ** backend/ml_engine.py *)

Module MLEngine.

(** The unpickled classifier, seen through the two methods [predict]
    calls on it.  [X] is the 1 x N matrix [[features]]; each method
    answers with one row per sample or raises. *)
Record Model := {
  model_predict : list (list Z) -> outcome (list Z);
  model_predict_proba : list (list Z) -> outcome (list (list Q))
}.

(** What [_load_model] finds at [model_path]. *)
Inductive artifact :=
| FileNotFound
| Unreadable
| Pickled (m : Model).

Record MLEngine := {
  model : option Model
}.

Definition _load_model (a : artifact) : MLEngine :=
  match a with
  | Pickled m => {| model := Some m |}
  | FileNotFound => {| model := None |}
  | Unreadable => {| model := None |}
  end.

(** The body of the [try] block of [predict]. *)
Definition predict_try (m : Model) (features : list Z) : outcome (Z * Q) :=
  let X := [features] in
  labels <- model_predict m X ;;
  classification <- index labels 0 ;;
  rows <- model_predict_proba m X ;;
  probabilities <- index rows 0 ;;
  confidence <- index probabilities classification ;;
  Ok (classification, confidence).

Definition predict (self : MLEngine) (features : list Z) : outcome (Z * Q) :=
  match model self with
  | None => Ok (0, 0%Q)
  | Some m =>
      match predict_try m features with
      | Ok r => Ok r
      | Raise e => Ok (0, 0%Q)
      end
  end.

End MLEngine.

(** ** backend/sniffer.py *)

Module Sniffer.

Import Extractor.

(** settings.json as the sniffer reads it; a key may be absent. *)
Record Settings := {
  api_host : option string;
  api_port : option Z;
  sensitivity : option Q
}.

Definition BATCH_SIZE : Z := 10.
Definition SEND_INTERVAL : Q := 1.

(** The globals of the module, and the POST requests issued so far (the
    payload of each, oldest first).  Console output is not modelled. *)
Record State := {
  LIVE_PACKETS : list (gmap string value);
  last_send_time : Q;
  posted : list (list (gmap string value))
}.

(** Step 3 of [process_packet]: the sensitivity threshold. *)
Definition apply_threshold (CONFIG : Settings) (classification : Z)
    (confidence : Q) : Z * Q :=
  let sensitivity := default 0.5%Q (sensitivity CONFIG) in
  if (classification =? 1) && float_lt confidence sensitivity
  then (0, float_sub 1 confidence)
  else (classification, confidence).

Definition process_packet (ml_engine : MLEngine.MLEngine)
    (CONFIG : Settings) (st : State) (packet : Packet) : outcome State :=
  match extract_features packet with
  | None => Ok st
  | Some features =>
      r <- MLEngine.predict ml_engine features ;;
      let '(classification, confidence) :=
        apply_threshold CONFIG r.1 r.2 in
      let log_entry := packet_to_log_data packet classification confidence in
      let log_entry :=
        <["ml_features" := VStr (str_int_list features)]> log_entry in
      let log_entry :=
        <["raw_data" := VStr (b64encode (pkt_bytes packet))]> log_entry in
      Ok {| LIVE_PACKETS := LIVE_PACKETS st ++ [log_entry];
            last_send_time := last_send_time st;
            posted := posted st |}
  end.

(** How [requests.post] followed by [raise_for_status] ends: normally, or
    with a [RequestException] (timeout, refusal, bad status). *)
Inductive reply :=
| Delivered
| Failed.

Definition send_traffic_batch (st : State) (now : Q) (r : reply) : State :=
  match LIVE_PACKETS st with
  | [] => st
  | _ :: _ =>
      let batch_to_send := LIVE_PACKETS st in
      let st := {| LIVE_PACKETS := [];
                   last_send_time := last_send_time st;
                   posted := posted st ++ [batch_to_send] |} in
      match r with
      | Delivered =>
          {| LIVE_PACKETS := LIVE_PACKETS st;
             last_send_time := now;
             posted := posted st |}
      | Failed =>
          {| LIVE_PACKETS := LIVE_PACKETS st;
             last_send_time := now;
             posted := posted st |}
      end
  end.

(** The two activities that touch the state, each atomic with respect
    to the buffer (both take [lock]): the capture callback, and one turn
    of the loop of [api_sender_thread], which wakes every
    [SEND_INTERVAL] seconds. *)
Inductive event :=
| Captured (packet : Packet)
| SenderWakes (now : Q) (r : reply).

Definition step (ml_engine : MLEngine.MLEngine) (CONFIG : Settings)
    (st : State) (ev : event) : outcome State :=
  match ev with
  | Captured packet => process_packet ml_engine CONFIG st packet
  | SenderWakes now r => Ok (send_traffic_batch st now r)
  end.

Fixpoint run (ml_engine : MLEngine.MLEngine) (CONFIG : Settings)
    (st : State) (evs : list event) : outcome State :=
  match evs with
  | [] => Ok st
  | ev :: rest =>
      st' <- step ml_engine CONFIG st ev ;;
      run ml_engine CONFIG st' rest
  end.

Definition initial (start : Q) : State :=
  {| LIVE_PACKETS := []; last_send_time := start; posted := [] |}.

End Sniffer.

(** ** backend/api.py *)

Module Api.

(** The dict literal that [ingest_packet] appends to [ALERT_HISTORY]. *)
Record Alert := {
  alert_id : Z;
  packet_id : Z;
  timestamp : value;
  src_ip : value;
  attack_type : string;
  confidence : value;
  status : string
}.

(** The [random] module: what its k-th call returns, as [random()] and
    as the index drawn by [choice] among [n] items. *)
Record Random := {
  random_random : nat -> Q;
  random_below : nat -> nat -> nat
}.

Definition MAX_LIVE_PACKETS : nat := 50.

(** The globals of the module, and the number of calls made to
    [random] so far. *)
Record State := {
  LIVE_PACKET_LOG : list (gmap string value);
  ALERT_HISTORY : list Alert;
  LAST_PACKET_ID : Z;
  rng_calls : nat
}.

Definition initial : State :=
  {| LIVE_PACKET_LOG := []; ALERT_HISTORY := [];
     LAST_PACKET_ID := 0; rng_calls := 0 |}.

Definition get_live_logs (st : State) : list (gmap string value) :=
  LIVE_PACKET_LOG st.

Definition get_alert_history (st : State) : list Alert :=
  filter (fun alert => status alert = "New"%string) (ALERT_HISTORY st).

Definition attack_types : list string :=
  ["DDoS"; "Port Scan"; "Brute Force"]%string.

(** [random.choice(seq)] at the k-th call. *)
Definition choice (rnd : Random) (k : nat) (seq : list string) : string :=
  nth (random_below rnd k (length seq) mod length seq)%nat seq ""%string.

(** [if random.random() < 0.5: ALERT_HISTORY.append({...})].  A missing
    key raises while the dict literal is built, after the draw. *)
Definition maybe_alert (rnd : Random) (log_entry : gmap string value)
    (st : State) : outcome unit * State :=
  let u := random_random rnd (rng_calls st) in
  let st := {| LIVE_PACKET_LOG := LIVE_PACKET_LOG st;
               ALERT_HISTORY := ALERT_HISTORY st;
               LAST_PACKET_ID := LAST_PACKET_ID st;
               rng_calls := S (rng_calls st) |} in
  if float_lt u 0.5%Q then
    match getitem log_entry "timestamp" with
    | Raise e => (Raise e, st)
    | Ok ts =>
        match getitem log_entry "src_ip" with
        | Raise e => (Raise e, st)
        | Ok src =>
            let alert :=
              {| alert_id := Z.of_nat (length (ALERT_HISTORY st)) + 1;
                 packet_id := LAST_PACKET_ID st;
                 timestamp := ts;
                 src_ip := src;
                 attack_type := choice rnd (rng_calls st) attack_types;
                 confidence := get log_entry "confidence" (VStr "0.90");
                 status := "New" |} in
            (Ok tt,
             {| LIVE_PACKET_LOG := LIVE_PACKET_LOG st;
                ALERT_HISTORY := ALERT_HISTORY st ++ [alert];
                LAST_PACKET_ID := LAST_PACKET_ID st;
                rng_calls := S (rng_calls st) |})
        end
    end
  else (Ok tt, st).

(** [LAST_PACKET_ID += 1; entry['id'] = LAST_PACKET_ID;
    LIVE_PACKET_LOG.append(entry)]. *)
Definition assign_id (entry : gmap string value) (st : State)
    : gmap string value * State :=
  let id := LAST_PACKET_ID st + 1 in
  let entry := <["id" := VInt id]> entry in
  (entry,
   {| LIVE_PACKET_LOG := LIVE_PACKET_LOG st ++ [entry];
      ALERT_HISTORY := ALERT_HISTORY st;
      LAST_PACKET_ID := id;
      rng_calls := rng_calls st |}).

(** [LIVE_PACKET_LOG = LIVE_PACKET_LOG[-MAX_LIVE_PACKETS:]]. *)
Definition truncate (st : State) : State :=
  {| LIVE_PACKET_LOG := last_n MAX_LIVE_PACKETS (LIVE_PACKET_LOG st);
     ALERT_HISTORY := ALERT_HISTORY st;
     LAST_PACKET_ID := LAST_PACKET_ID st;
     rng_calls := rng_calls st |}.

(** The [for log_entry in data['logs']] loop. *)
Fixpoint ingest_logs (rnd : Random) (logs : list (gmap string value))
    (ingested_ids : list Z) (st : State) : outcome (list Z) * State :=
  match logs with
  | [] => (Ok ingested_ids, st)
  | log_entry :: rest =>
      let '(log_entry, st) := assign_id log_entry st in
      let ingested_ids := ingested_ids ++ [LAST_PACKET_ID st] in
      match maybe_alert rnd log_entry st with
      | (Ok _, st) => ingest_logs rnd rest ingested_ids st
      | (Raise e, st) => (Raise e, st)
      end
  end.

(** The JSON body of a POST to /api/traffic/ingest: a dict whose
    ['logs'] entry is a list of records, or a dict of scalars. *)
Inductive body :=
| Logs (logs : list (gmap string value))
| PacketData (packet_data : gmap string value).

Inductive response :=
| BatchIngested (ids : list Z)
| PacketIngested (id : Z)
| IngestionFailed (e : exn).

Definition status_code (r : response) : Z :=
  match r with
  | BatchIngested _ | PacketIngested _ => 201
  | IngestionFailed _ => 400
  end.

(** [for log_entry in data['logs']] when the entry is a scalar.  Only a
    string can be iterated: the empty one ends the loop at once; otherwise
    the first character moves the counter, and the item assignment on it
    raises. *)
Definition ingest_scalar (logs : value) (st : State) : response * State :=
  match logs with
  | VStr "" => (BatchIngested [], truncate st)
  | VStr (String _ _) =>
      (IngestionFailed TypeError,
       {| LIVE_PACKET_LOG := LIVE_PACKET_LOG st;
          ALERT_HISTORY := ALERT_HISTORY st;
          LAST_PACKET_ID := LAST_PACKET_ID st + 1;
          rng_calls := rng_calls st |})
  | _ => (IngestionFailed TypeError, st)
  end.

Definition ingest_packet (rnd : Random) (data : body) (st : State)
    : response * State :=
  match data with
  | Logs logs =>
      match ingest_logs rnd logs [] st with
      | (Ok ingested_ids, st) => (BatchIngested ingested_ids, truncate st)
      | (Raise e, st) => (IngestionFailed e, st)
      end
  | PacketData packet_data =>
      match packet_data !! "logs" with
      | Some logs => ingest_scalar logs st
      | None =>
          let '(packet_data, st) := assign_id packet_data st in
          let st := truncate st in
          match maybe_alert rnd packet_data st with
          | (Ok _, st) => (PacketIngested (LAST_PACKET_ID st), st)
          | (Raise e, st) => (IngestionFailed e, st)
          end
      end
  end.

(** The JSON body of a POST to /api/alerts/action; [data.get] yields
    None for an absent key. *)
Record action := {
  act_alert_id : value;
  act_action : value;
  act_src_ip : value
}.

(** The [for alert in ALERT_HISTORY] loop with its [break]. *)
Fixpoint mark_processed (id : value) (alerts : list Alert) : list Alert :=
  match alerts with
  | [] => []
  | alert :: rest =>
      if int_eq (alert_id alert) id
      then {| alert_id := alert_id alert;
              packet_id := packet_id alert;
              timestamp := timestamp alert;
              src_ip := src_ip alert;
              attack_type := attack_type alert;
              confidence := confidence alert;
              status := "Processed" |} :: rest
      else alert :: mark_processed id rest
  end.

(** Returns the HTTP status of the reply and the new state. *)
Definition handle_alert_action (data : action) (st : State) : Z * State :=
  (200,
   {| LIVE_PACKET_LOG := LIVE_PACKET_LOG st;
      ALERT_HISTORY := mark_processed (act_alert_id data) (ALERT_HISTORY st);
      LAST_PACKET_ID := LAST_PACKET_ID st;
      rng_calls := rng_calls st |}).

(** A sequence of ingestion requests, served one after the other. *)
Fixpoint ingest_all (rnd : Random) (reqs : list body) (st : State)
    : list response * State :=
  match reqs with
  | [] => ([], st)
  | data :: rest =>
      let '(r, st) := ingest_packet rnd data st in
      let '(rs, st) := ingest_all rnd rest st in
      (r :: rs, st)
  end.

End Api.

(** ** The sniffer posting to the API *)

Module Pipeline.

Import Extractor.

Record System := {
  sniffer : Sniffer.State;
  store : Api.State
}.

Definition initial (start : Q) : System :=
  {| sniffer := Sniffer.initial start; store := Api.initial |}.

(** [requests.post(API_URL, json={'logs': batch_to_send}, timeout=1)]
    and [raise_for_status]: an unreachable server fails the request and
    sees nothing; a reachable one runs [ingest_packet] on the body, and a
    status of 400 or more fails the request afterwards. *)
Definition post (rnd : Api.Random) (batch : list (gmap string value))
    (reachable : bool) (api : Api.State) : Sniffer.reply * Api.State :=
  if reachable then
    let '(resp, api) := Api.ingest_packet rnd (Api.Logs batch) api in
    (if Api.status_code resp <? 400
     then Sniffer.Delivered else Sniffer.Failed,
     api)
  else (Sniffer.Failed, api).

Inductive event :=
| Captured (packet : Packet)
| SenderWakes (now : Q) (reachable : bool).

Definition step (ml_engine : MLEngine.MLEngine) (CONFIG : Sniffer.Settings)
    (rnd : Api.Random) (sys : System) (ev : event) : outcome System :=
  match ev with
  | Captured packet =>
      s <- Sniffer.process_packet ml_engine CONFIG (sniffer sys) packet ;;
      Ok {| sniffer := s; store := store sys |}
  | SenderWakes now reachable =>
      let '(r, api) :=
        match Sniffer.LIVE_PACKETS (sniffer sys) with
        | [] => (Sniffer.Delivered, store sys)
        | _ :: _ =>
            post rnd (Sniffer.LIVE_PACKETS (sniffer sys)) reachable
              (store sys)
        end in
      Ok {| sniffer := Sniffer.send_traffic_batch (sniffer sys) now r;
            store := api |}
  end.

Fixpoint run (ml_engine : MLEngine.MLEngine) (CONFIG : Sniffer.Settings)
    (rnd : Api.Random) (sys : System) (evs : list event) : outcome System :=
  match evs with
  | [] => Ok sys
  | ev :: rest =>
      sys' <- step ml_engine CONFIG rnd sys ev ;;
      run ml_engine CONFIG rnd sys' rest
  end.

(** The packets handed to the capture callback during [evs]. *)
Definition captured (evs : list event) : list Packet :=
  omap (fun ev => match ev with
                  | Captured packet => Some packet
                  | SenderWakes _ _ => None
                  end) evs.

End Pipeline.

(** ** backend/sniffer.py: settings *)

Module SnifferConfig.

(** What opening and parsing settings.json gives. *)
Inductive settings_file :=
| NotFound
| Unreadable
| Loaded (s : Sniffer.Settings).

Definition default_settings : Sniffer.Settings :=
  {| Sniffer.api_host := Some "127.0.0.1"%string;
     Sniffer.api_port := Some 5000;
     Sniffer.sensitivity := Some 0.5%Q |}.

(** The empty dict returned after any other exception. *)
Definition no_settings : Sniffer.Settings :=
  {| Sniffer.api_host := None;
     Sniffer.api_port := None;
     Sniffer.sensitivity := None |}.

Definition load_settings (f : settings_file) : Sniffer.Settings :=
  match f with
  | Loaded s => s
  | NotFound => default_settings
  | Unreadable => no_settings
  end.

Definition API_URL (CONFIG : Sniffer.Settings) : string :=
  "http://" +:+ default "127.0.0.1"%string (Sniffer.api_host CONFIG)
  +:+ ":" +:+ str_int (default 5000 (Sniffer.api_port CONFIG))
  +:+ "/api/traffic/ingest".

End SnifferConfig.

(** ** backend/api.py: reads, analytics, settings *)

Module ApiReads.

(** [packet.get('id') == packet_id]. *)
Definition has_id (packet_id : Z) (packet : gmap string value) : bool :=
  match packet !! "id" with
  | Some v => int_eq packet_id v
  | None => false
  end.

Definition get_packet_by_id (packet_id : Z) (st : Api.State)
    : option (gmap string value) :=
  List.find (has_id packet_id) (Api.LIVE_PACKET_LOG st).

(** The status of the reply and its ["details"]; an empty dict is falsy. *)
Definition get_packet_details (packet_id : Z) (st : Api.State)
    : Z * option (gmap string value) :=
  match get_packet_by_id packet_id st with
  | Some packet =>
      if (size packet =? 0)%nat then (404, None) else (200, Some packet)
  | None => (404, None)
  end.

(** The number a bool, int or float stands for in a comparison. *)
Definition number_of (v : value) : option Q :=
  match v with
  | VBool b => Some (if b then 1%Q else 0%Q)
  | VInt n => Some (inject_Z n)
  | VFloat q => Some q
  | VNone | VStr _ => None
  end.

(** [a == b] on scalars, which is also when two dict keys coincide. *)
Definition value_eq (a b : value) : bool :=
  match a, b with
  | VNone, VNone => true
  | VStr s, VStr t => String.eqb s t
  | _, _ =>
      match number_of a, number_of b with
      | Some x, Some y => Qeq_bool x y
      | _, _ => false
      end
  end.

(** A dict of counters, as the list of its items in insertion order. *)
Fixpoint dict_get (d : list (value * Z)) (k : value) (dflt : Z) : Z :=
  match d with
  | [] => dflt
  | (k', v) :: rest => if value_eq k' k then v else dict_get rest k dflt
  end.

Fixpoint dict_set (d : list (value * Z)) (k : value) (v : Z)
    : list (value * Z) :=
  match d with
  | [] => [(k, v)]
  | (k', v') :: rest =>
      if value_eq k' k then (k', v) :: rest else (k', v') :: dict_set rest k v
  end.

(** [counts[k] = counts.get(k, 0) + 1]. *)
Definition count_one (counts : list (value * Z)) (k : value)
    : list (value * Z) :=
  dict_set counts k (dict_get counts k 0 + 1).

(** The counting loop for one field of the records. *)
Definition tally (field : string) (logs : list (gmap string value))
    : list (value * Z) :=
  fold_left (fun counts log => count_one counts (get log field (VStr "Unknown")))
    logs [].

(** [sorted(items, key=lambda item: item[1], reverse=True)]: a stable
    sort, so items with equal counts keep their order. *)
Fixpoint insert_desc (x : value * Z) (l : list (value * Z))
    : list (value * Z) :=
  match l with
  | [] => [x]
  | y :: rest => if y.2 <=? x.2 then x :: y :: rest else y :: insert_desc x rest
  end.

Definition sorted_desc (items : list (value * Z)) : list (value * Z) :=
  foldr insert_desc [] items.

Record trends := {
  classification_stats : list (value * Z);
  protocol_stats : list (value * Z);
  ip_stats : list (value * Z)
}.

Definition get_analytics_trends (st : Api.State) : trends :=
  match Api.get_live_logs st with
  | [] =>
      {| classification_stats := [(VStr "Normal", 10); (VStr "Anomaly", 0)];
         protocol_stats := [(VStr "TCP", 5); (VStr "UDP", 3); (VStr "ICMP", 2)];
         ip_stats := [(VStr "0.0.0.0", 0)] |}
  | logs =>
      {| classification_stats := sorted_desc (tally "classification" logs);
         protocol_stats := sorted_desc (tally "protocol" logs);
         ip_stats := take 10 (sorted_desc (tally "src_ip" logs)) |}
  end.

Definition default_config : gmap string value :=
  <["db_path" := VStr "storage/logs.db"]>
  (<["model_path" := VStr "models/rf_model.pkl"]>
  (<["api_host" := VStr "127.0.0.1"]>
  (<["api_port" := VInt 5000]>
  (<["sensitivity" := VFloat 0.5%Q]>
  (<["role" := VStr "Analyst"]>
  (<["theme" := VStr "Dark"]> ∅)))))).

(** [file] is the parsed JSON object, or None when opening or parsing
    raised. *)
Definition load_config (file : option (gmap string value))
    : gmap string value :=
  match file with
  | Some config => config ∪ default_config
  | None => default_config
  end.

(** [CONFIG.update(data)], then the write to settings.json, which may
    raise: the reply is 200 or 500, and the dict is updated either way. *)
Definition save_settings (data : gmap string value) (written : bool)
    (CONFIG : gmap string value) : Z * gmap string value :=
  let CONFIG := data ∪ CONFIG in
  if written then (200, CONFIG) else (500, CONFIG).

Definition get_live_traffic (CONFIG : gmap string value) (st : Api.State)
    : outcome (list (gmap string value) * value * value) :=
  let logs := Api.get_live_logs st in
  role <- getitem CONFIG "role" ;;
  sensitivity <- getitem CONFIG "sensitivity" ;;
  Ok (logs, role, sensitivity).

End ApiReads.

(** ** backend/api.py: requests served one after the other *)

Module Server.

Inductive request :=
| Ingest (data : Api.body)
| AlertAction (data : Api.action).

Definition serve (rnd : Api.Random) (st : Api.State) (req : request)
    : Api.State :=
  match req with
  | Ingest data => (Api.ingest_packet rnd data st).2
  | AlertAction data => (Api.handle_alert_action data st).2
  end.

Definition serve_all (rnd : Api.Random) (reqs : list request)
    (st : Api.State) : Api.State :=
  fold_left (serve rnd) reqs st.

End Server.

(** ** generate_model.py: one row of the training matrix *)

Module TrainingRows.

(** Which of the optional CSV columns are present, and what
    [.astype(int)] makes of a cell beyond the integers that every numeric
    dtype holds (see [astype_int]). *)
Record Columns := {
  has_PROTOCOL : bool;
  has_TCP_FLAGS : bool;
  cast_beyond : Z -> Z
}.

(** A row kept by [dropna], after the renaming: the integer cells of
    size, sport and dport; the PROTOCOL and TCP_FLAGS cells, None where
    [to_numeric(errors='coerce')] gives NaN; and the Attack cell. *)
Record Row := {
  size : Z;
  sport : Z;
  dport : Z;
  protocol_num : option Z;
  tcp_flags_val : option Z;
  Attack : string
}.

(** [.astype(int)] on a cell that holds the integer [v].  An integer of
    magnitude below [2^31] is the same number in an int64 column and in a
    float64 column (the dtype as soon as one cell of the column is
    missing), and the cast returns it whether the platform's [int] is
    int64 or int32.  For a larger one the result depends on the dtype of
    the column and on the platform; the model leaves it to
    [cast_beyond]. *)
Definition astype_int (cols : Columns) (v : Z) : Z :=
  if Z.abs v <? 2 ^ 31 then v else cast_beyond cols v.

(** [np.where((df['tcp_flags_val'] & mask) > 0, 1, 0)] after
    [fillna(0).astype(int)], or the constant 0 without the column. *)
Definition flag_column (mask : Z) (cols : Columns) (r : Row) : Z :=
  if has_TCP_FLAGS cols
  then
    if Z.land (astype_int cols (default 0 (tcp_flags_val r))) mask >? 0
    then 1 else 0
  else 0.

(** [np.where(df['protocol_num'] == p, 1, 0)] after
    [fillna(-1).astype(int)], or the constant 0 without the column. *)
Definition protocol_column (p : Z) (cols : Columns) (r : Row) : Z :=
  if has_PROTOCOL cols
  then if astype_int cols (default (-1) (protocol_num r)) =? p then 1 else 0
  else 0.

(** [df[col]] for a column of [SNIFFER_FEATURES]; a name that is not a
    column keeps the 0 that [X_aligned] starts with. *)
Definition column (cols : Columns) (r : Row) (col : string) : Z :=
  if String.eqb col "size" then size r
  else if String.eqb col "sport" then sport r
  else if String.eqb col "dport" then dport r
  else if String.eqb col "tcp_syn_flag" then flag_column 2 cols r
  else if String.eqb col "tcp_ack_flag" then flag_column 16 cols r
  else if String.eqb col "protocol_TCP" then protocol_column 6 cols r
  else if String.eqb col "protocol_UDP" then protocol_column 17 cols r
  else if String.eqb col "protocol_ICMP" then protocol_column 1 cols r
  else if String.eqb col "ip_header_len" then 20
  else if String.eqb col "ip_ttl" then 128
  else if String.eqb col "tcp_window" then 8192
  else 0.

(** The row of [X_aligned.values]. *)
Definition features (cols : Columns) (r : Row) : list Z :=
  map (column cols r) Training.SNIFFER_FEATURES.

(** [0 if x == 'Benign' else 1]. *)
Definition label (r : Row) : Z :=
  if String.eqb (Attack r) "Benign" then 0 else 1.

End TrainingRows.

(** ** frontend/ui_main.py: the charts of the analytics tab

    The reply of /api/analytics/trends reaches [_update_analytics_data]
    through JSON unchanged; titles and markup around the lines are fixed
    text and are left out. *)

Module Frontend.

(** [int(x)] on a finite float: truncation toward zero. *)
Definition int_of_float (x : Q) : Z := Z.quot (Qnum x) (Z.pos (Qden x)).

(** One line of a chart: the label, the number of block characters of its
    bar, and the count printed after it. *)
Record Line := { label : value; bar : nat; count : Z }.

Inductive chart :=
| NoData
| Lines (lines : list Line).

(** A value, or one of the two exceptions that the arithmetic of a bar
    can raise. *)
Inductive result (A : Type) :=
| Value (a : A)
| ZeroDivisionError
| OverflowError.
Arguments Value {A} a.
Arguments ZeroDivisionError {A}.
Arguments OverflowError {A}.

(** [max(item[1] for item in stats)], [stats] having a first item. *)
Definition max_count (first : value * Z) (rest : list (value * Z)) : Z :=
  fold_left (fun m item => Z.max m item.2) rest first.2.

(** [int((count / max_count) * scale)], all three being ints.  The true
    division gives the float nearest to the quotient; it raises on a zero
    divisor, and when that float is not finite.  For the product [scale]
    is converted to the nearest float, which raises when it is not finite;
    the product is rounded again, and when it is not finite it is [inf],
    on which [int] raises. *)
Definition bar_length (count max_count scale : Z) : result Z :=
  if max_count =? 0 then ZeroDivisionError
  else
    let ratio := fl64 (inject_Z count / inject_Z max_count) in
    if overflows ratio then OverflowError
    else
      let scale := fl64 (inject_Z scale) in
      if overflows scale then OverflowError
      else
        let length := fl64 (ratio * scale) in
        if overflows length then OverflowError
        else Value (int_of_float length).

(** The loop over the items; a string repeated a negative number of times
    is empty. *)
Fixpoint render_lines (stats : list (value * Z)) (max_count scale : Z)
    : result (list Line) :=
  match stats with
  | [] => Value []
  | (l, c) :: rest =>
      match bar_length c max_count scale with
      | Value n =>
          match render_lines rest max_count scale with
          | Value output =>
              Value ({| label := l; bar := Z.to_nat n; count := c |} :: output)
          | ZeroDivisionError => ZeroDivisionError
          | OverflowError => OverflowError
          end
      | ZeroDivisionError => ZeroDivisionError
      | OverflowError => OverflowError
      end
  end.

Definition _render_bar_chart (stats : list (value * Z)) (scale : Z)
    : result chart :=
  match stats with
  | [] => Value NoData
  | first :: rest =>
      match render_lines stats (max_count first rest) scale with
      | Value output => Value (Lines output)
      | ZeroDivisionError => ZeroDivisionError
      | OverflowError => OverflowError
      end
  end.

(** The text of a chart box: the initial text, or the last chart set. *)
Inductive content :=
| Loading
| Shown (c : chart).

Record Charts := {
  classification_chart : content;
  protocol_chart : content;
  ip_chart : content
}.

Inductive finished := Returned | Raised.

(** The three boxes are set one after the other, so a chart that raises
    leaves its box and the later ones as they were. *)
Definition _update_analytics_data (data : ApiReads.trends) (self : Charts)
    : finished * Charts :=
  match _render_bar_chart (ApiReads.classification_stats data) 50 with
  | Value c =>
      let self := {| classification_chart := Shown c;
                     protocol_chart := protocol_chart self;
                     ip_chart := ip_chart self |} in
      match _render_bar_chart (ApiReads.protocol_stats data) 50 with
      | Value p =>
          let self := {| classification_chart := classification_chart self;
                         protocol_chart := Shown p;
                         ip_chart := ip_chart self |} in
          match _render_bar_chart (ApiReads.ip_stats data) 50 with
          | Value i =>
              (Returned,
               {| classification_chart := classification_chart self;
                  protocol_chart := protocol_chart self;
                  ip_chart := Shown i |})
          | _ => (Raised, self)
          end
      | _ => (Raised, self)
      end
  | _ => (Raised, self)
  end.

End Frontend.

(** * Vocabulary of the properties *)

Import Extractor.

Definition half_sensitivity : Sniffer.Settings :=
  {| Sniffer.api_host := None; Sniffer.api_port := None;
     Sniffer.sensitivity := Some 0.5%Q |}.

Definition syn_ack_fin_rst : Packet :=
  {| pkt_time := 0;
     pkt_bytes := repeat Byte.x00 1400;
     pkt_IP := Some {| ip_src := "10.0.0.1"; ip_dst := "10.0.0.2";
                       ip_proto := 6; ip_ttl := 64 |};
     pkt_TCP := Some {| tcp_flags := 23 |};
     pkt_UDP := false |}.

(** A model that rejects an empty sample, as a fitted estimator does. *)
Definition nonempty_only : MLEngine.Model :=
  {| MLEngine.model_predict X :=
       match X with
       | [_ :: _] => Ok [1]
       | _ => Raise ValueError
       end;
     MLEngine.model_predict_proba X :=
       match X with
       | [_ :: _] => Ok [[0.1%Q; 0.9%Q]]
       | _ => Raise ValueError
       end |}.

(** [e] is a record that [process_packet] builds for [packet], which
    then carries an IP header. *)
Definition built_from (packet : Packet) (e : gmap string value) : Prop :=
  is_Some (pkt_IP packet) /\
  exists features classification (confidence : Q),
    extract_features packet = Some features /\
    e = <["raw_data" := VStr (b64encode (pkt_bytes packet))]>
          (<["ml_features" := VStr (str_int_list features)]>
             (packet_to_log_data packet classification confidence)).

(** The record that [process_packet] buffers for [packet] when it
    reports [classification] with [confidence]. *)
Definition reported (packet : Packet) (features : list Z)
    (classification : Z) (confidence : Q) : gmap string value :=
  <["raw_data" := VStr (b64encode (pkt_bytes packet))]>
    (<["ml_features" := VStr (str_int_list features)]>
       (packet_to_log_data packet classification confidence)).

(** The state of the sniffer after it has buffered [e]. *)
Definition buffering (st : Sniffer.State) (e : gmap string value)
    : Sniffer.State :=
  {| Sniffer.LIVE_PACKETS := Sniffer.LIVE_PACKETS st ++ [e];
     Sniffer.last_send_time := Sniffer.last_send_time st;
     Sniffer.posted := Sniffer.posted st |}.

(** A classifier that always answers [label] with the probability that
    the literal [p] denotes. *)
Definition constant_model (label : Z) (p : Q) : MLEngine.Model :=
  {| MLEngine.model_predict X := Ok [label];
     MLEngine.model_predict_proba X := Ok [[fl64 p; fl64 p]] |}.

(** The character of the decimal digit [k]. *)
Definition digit_char (k : Z) : ascii :=
  nth (Z.to_nat k) (list_ascii_of_string "0123456789") "0"%char.

(** [s] is [m] written with four decimal digits. *)
Definition four_digits (m : Z) (s : string) : Prop :=
  exists a b c d,
    0 <= a <= 9 /\ 0 <= b <= 9 /\ 0 <= c <= 9 /\ 0 <= d <= 9 /\
    m = 1000 * a + 100 * b + 10 * c + d /\
    s = String (digit_char a)
          (String (digit_char b)
             (String (digit_char c) (String (digit_char d) ""))).

(** [s] ends with a point and four decimal digits. *)
Definition four_decimals (s : string) : Prop :=
  exists front m back, s = front +:+ "." +:+ back /\ four_digits m back.

Definition two_buffered : Sniffer.State :=
  {| Sniffer.LIVE_PACKETS := [{["size" := VInt 60]}; {["size" := VInt 61]}];
     Sniffer.last_send_time := 0;
     Sniffer.posted := [] |}.

Definition no_model : MLEngine.MLEngine := {| MLEngine.model := None |}.

Definition is_new (a : Api.Alert) : Prop := Api.status a = "New"%string.

#[local] Instance is_new_dec (a : Api.Alert) : Decision (is_new a) :=
  decide (Api.status a = "New"%string).

Definition processed (a : Api.Alert) : Api.Alert :=
  {| Api.alert_id := Api.alert_id a;
     Api.packet_id := Api.packet_id a;
     Api.timestamp := Api.timestamp a;
     Api.src_ip := Api.src_ip a;
     Api.attack_type := Api.attack_type a;
     Api.confidence := Api.confidence a;
     Api.status := "Processed" |}.

(** A record with the two keys that alert creation reads, as every record
    built by [packet_to_log_data] has. *)
Definition well_formed (e : gmap string value) : Prop :=
  is_Some (e !! "timestamp") /\ is_Some (e !! "src_ip").

(** The records of [logs] with the ids that follow [n], in order. *)
Fixpoint stamp (n : Z) (logs : list (gmap string value))
    : list (gmap string value) :=
  match logs with
  | [] => []
  | e :: rest => <["id" := VInt (n + 1)]> e :: stamp (n + 1) rest
  end.

Definition records_of (data : Api.body) : list (gmap string value) :=
  match data with
  | Api.Logs logs => logs
  | Api.PacketData e => [e]
  end.

(** A request whose records are well formed; a single record has no
    ['logs'] key, which would select the batch path. *)
Definition well_formed_body (data : Api.body) : Prop :=
  match data with
  | Api.Logs logs => Forall well_formed logs
  | Api.PacketData e => e !! "logs" = None /\ well_formed e
  end.

Definition ids_of (r : Api.response) : list Z :=
  match r with
  | Api.BatchIngested ids => ids
  | Api.PacketIngested id => [id]
  | Api.IngestionFailed _ => []
  end.

(** A request that carries exactly one well-formed record, on either
    path of [ingest_packet]. *)
Definition single_record (data : Api.body) : Prop :=
  exists e,
    well_formed e /\
    (data = Api.PacketData e /\ e !! "logs" = None \/ data = Api.Logs [e]).

Definition sample_record : gmap string value :=
  <["timestamp" := VFloat 1.5%Q]> (<["src_ip" := VStr "10.0.0.1"]> ∅).

(** A generator whose draws alternate around 0.5. *)
Definition alternating : Api.Random :=
  {| Api.random_random k := if Nat.even k then 0.25%Q else 0.75%Q;
     Api.random_below k n := k |}.

(** Every buffered record was built from a packet of [seen], and every
    stored record is such a record with an id. *)
Definition traced (seen : list Packet) (e : gmap string value) : Prop :=
  exists packet, packet ∈ seen /\ built_from packet e.

Definition stored (seen : list Packet) (e : gmap string value) : Prop :=
  exists e0 id, traced seen e0 /\ e = <["id" := VInt id]> e0.

Definition all_traced (seen : list Packet) (sys : Pipeline.System) : Prop :=
  Forall (traced seen) (Sniffer.LIVE_PACKETS (Pipeline.sniffer sys)) /\
  Forall (stored seen) (Api.LIVE_PACKET_LOG (Pipeline.store sys)).

Definition arp_frame : Packet :=
  {| pkt_time := 0;
     pkt_bytes := repeat Byte.xff 42;
     pkt_IP := None;
     pkt_TCP := None;
     pkt_UDP := false |}.

(** A classifier that always answers Anomaly with probability 0.42. *)
Definition anomaly_042 : MLEngine.Model :=
  {| MLEngine.model_predict X := Ok [1];
     MLEngine.model_predict_proba X := Ok [[0.58%Q; 0.42%Q]] |}.

Definition alert_1 : Api.Alert :=
  {| Api.alert_id := 1; Api.packet_id := 3;
     Api.timestamp := VFloat 1.5%Q; Api.src_ip := VStr "10.0.0.1";
     Api.attack_type := "DDoS"; Api.confidence := VStr "0.9100";
     Api.status := "New" |}.

Definition alert_2 : Api.Alert :=
  {| Api.alert_id := 2; Api.packet_id := 4;
     Api.timestamp := VFloat 2.5%Q; Api.src_ip := VStr "10.0.0.2";
     Api.attack_type := "Port Scan"; Api.confidence := VStr "0.7700";
     Api.status := "New" |}.

Definition two_alerts : Api.State :=
  {| Api.LIVE_PACKET_LOG := []; Api.ALERT_HISTORY := [alert_1; alert_2];
     Api.LAST_PACKET_ID := 4; Api.rng_calls := 4 |}.

Definition act_on (id : Z) : Api.action :=
  {| Api.act_alert_id := VInt id; Api.act_action := VStr "false_positive";
     Api.act_src_ip := VStr "10.0.0.2" |}.

(** A model whose labels are 0 or 1 and whose probabilities lie in
    [0, 1], on every input it accepts. *)
Definition binary (m : MLEngine.Model) : Prop :=
  forall X labels,
    MLEngine.model_predict m X = Ok labels ->
    Forall (fun l => l = 0 \/ l = 1) labels.

Definition calibrated (m : MLEngine.Model) : Prop :=
  forall X rows,
    MLEngine.model_predict_proba m X = Ok rows ->
    Forall (Forall (fun p => (0 <= p <= 1)%Q)) rows.

(** [packet] with its TCP flags replaced. *)
Definition with_flags (packet : Packet) (flags : Z) : Packet :=
  {| pkt_time := pkt_time packet;
     pkt_bytes := pkt_bytes packet;
     pkt_IP := pkt_IP packet;
     pkt_TCP := Some {| tcp_flags := flags |};
     pkt_UDP := pkt_UDP packet |}.

Definition log_keys : gset string :=
  {[ "timestamp"; "src_ip"; "dst_ip"; "protocol"; "size"; "flags";
     "classification"; "confidence" ]}%string.

(** The packets of a sniffer run that carry an IP header. *)
Definition ip_captures (evs : list Sniffer.event) : list Packet :=
  omap (fun ev => match ev with
                  | Sniffer.Captured packet =>
                      match pkt_IP packet with
                      | Some _ => Some packet
                      | None => None
                      end
                  | Sniffer.SenderWakes _ _ => None
                  end) evs.

Definition udp_dns : Packet :=
  {| pkt_time := 2;
     pkt_bytes := repeat Byte.x01 74;
     pkt_IP := Some {| ip_src := "10.0.0.7"; ip_dst := "10.0.0.1";
                       ip_proto := 17; ip_ttl := 128 |};
     pkt_TCP := None;
     pkt_UDP := true |}.

(** The ids of the retained records are integers in strictly increasing
    order, each between 1 and the id counter. *)
Definition ids_in_order (st : Api.State) : Prop :=
  0 <= Api.LAST_PACKET_ID st /\
  exists ids,
    map (fun e => e !! "id") (Api.LIVE_PACKET_LOG st)
      = map (fun i => Some (VInt i)) ids /\
    StronglySorted Z.lt ids /\
    Forall (fun i => 0 < i <= Api.LAST_PACKET_ID st) ids.

(** Alert ids are 1, 2, 3, ... in insertion order, and every alert refers
    to a record id that has been assigned. *)
Definition alerts_numbered (st : Api.State) : Prop :=
  0 <= Api.LAST_PACKET_ID st /\
  map Api.alert_id (Api.ALERT_HISTORY st)
    = seqZ 1 (Z.of_nat (length (Api.ALERT_HISTORY st))) /\
  Forall (fun a => 0 < Api.packet_id a <= Api.LAST_PACKET_ID st)
    (Api.ALERT_HISTORY st).

(** A record without the keys that alert creation reads. *)
Definition bare_record : gmap string value := {["size" := VInt 60]}.

(** The only change an alert can undergo. *)
Definition aged (a a' : Api.Alert) : Prop :=
  a' = a \/ a' = processed a.

(** The alert raised for [sample_record] as the first request, under
    [alternating]. *)
Definition first_alert : Api.Alert :=
  {| Api.alert_id := 1; Api.packet_id := 1;
     Api.timestamp := VFloat 1.5%Q; Api.src_ip := VStr "10.0.0.1";
     Api.attack_type := "Port Scan"; Api.confidence := VStr "0.90";
     Api.status := "New" |}.

(** Three requests, each of which raises an alert under [alternating]. *)
Definition three_ingests : list Server.request :=
  repeat (Server.Ingest (Api.PacketData sample_record)) 3.

(** A wake-up of the sender that finds the API reachable; captures count
    as such. *)
Definition reachable_event (ev : Pipeline.event) : Prop :=
  match ev with
  | Pipeline.SenderWakes _ false => False
  | _ => True
  end.

(** The captured packets that carry an IP header. *)
Definition ip_packets (evs : list Pipeline.event) : list Packet :=
  filter (fun p => is_Some (pkt_IP p)) (Pipeline.captured evs).

(** What links the two ends of the pipeline: [new] are the records built
    so far, [delivered] those the store has ingested; the store holds the
    last 50 of them under ids 1, 2, ...; the delivered records followed by
    the buffered ones are records of [new] in the same order, and all of
    them when [complete] holds. *)
Definition linked (ips : list Packet) (complete : Prop)
    (sys : Pipeline.System) (new delivered : list (gmap string value))
    : Prop :=
  Forall2 built_from ips new /\
  Api.LIVE_PACKET_LOG (Pipeline.store sys) = last_n 50 (stamp 0 delivered) /\
  Api.LAST_PACKET_ID (Pipeline.store sys) = Z.of_nat (length delivered) /\
  (delivered ++ Sniffer.LIVE_PACKETS (Pipeline.sniffer sys))
    `sublist_of` new /\
  Forall well_formed (Sniffer.LIVE_PACKETS (Pipeline.sniffer sys)) /\
  (complete -> delivered ++ Sniffer.LIVE_PACKETS (Pipeline.sniffer sys) = new).

(** The value counted for a record under [field]. *)
Definition counted (field : string) (log : gmap string value) : value :=
  get log field (VStr "Unknown").

(** How many records carry a value equal to [k] under [field]. *)
Definition occurrences (field : string) (k : value)
    (logs : list (gmap string value)) : Z :=
  Z.of_nat (length (filter (fun log => ApiReads.value_eq k (counted field log) = true) logs)).

Definition counts_total (stats : list (value * Z)) : Z :=
  foldr (fun kc acc => kc.2 + acc) 0 stats.

Definition by_count_desc (a b : value * Z) : Prop := b.2 <= a.2.

(** Every entry of [stats] carries the exact count of its key, and no two
    entries have equal keys. *)
Definition exact_entries (field : string) (logs : list (gmap string value))
    (stats : list (value * Z)) : Prop :=
  (forall k c, (k, c) ∈ stats -> c = occurrences field k logs /\ 1 <= c) /\
  (forall k c k' c',
     (k, c) ∈ stats -> (k', c') ∈ stats ->
     ApiReads.value_eq k k' = true -> (k, c) = (k', c')).

(** Moreover every record is counted under some entry. *)
Definition exact_counts (field : string) (logs : list (gmap string value))
    (stats : list (value * Z)) : Prop :=
  exact_entries field logs stats /\
  (forall log, log ∈ logs ->
     exists k c, (k, c) ∈ stats /\
                 ApiReads.value_eq k (counted field log) = true).

Definition store_of (logs : list (gmap string value)) : Api.State :=
  {| Api.LIVE_PACKET_LOG := logs; Api.ALERT_HISTORY := [];
     Api.LAST_PACKET_ID := Z.of_nat (length logs); Api.rng_calls := 0 |}.

Definition tcp_normal : gmap string value :=
  <["protocol" := VStr "TCP"]> (<["classification" := VStr "Normal"]>
  (<["src_ip" := VStr "10.0.0.1"]> ∅)).

Definition udp_anomaly : gmap string value :=
  <["protocol" := VStr "UDP"]> (<["classification" := VStr "Anomaly"]>
  (<["src_ip" := VStr "10.0.0.2"]> ∅)).

(** Fifteen records from twelve source addresses: one address three
    times, one twice, ten once. *)
Definition from_source (ip : string) : gmap string value :=
  <["protocol" := VStr "TCP"]> (<["classification" := VStr "Normal"]>
  (<["src_ip" := VStr ip]> ∅)).

Definition twelve_sources : list (gmap string value) :=
  map from_source
    ["10.0.0.1"; "10.0.0.2"; "10.0.0.3"; "10.0.0.4"; "10.0.0.5"; "10.0.0.6";
     "10.0.0.7"; "10.0.0.8"; "10.0.0.9"; "10.0.0.10"; "10.0.0.11";
     "10.0.0.12"; "10.0.0.12"; "10.0.0.3"; "10.0.0.12"]%string.

(** No key of [d] equals [k]. *)
Definition misses (k : value) (d : list (value * Z)) : Prop :=
  Forall (fun kc => ApiReads.value_eq kc.1 k = false) d.

(** The accumulator of the counting loop after the records [done]. *)
Definition tallied (field : string) (done : list (gmap string value))
    (d : list (value * Z)) : Prop :=
  StronglySorted (fun a b => ApiReads.value_eq a b = false) (map fst d) /\
  Forall (fun kc => kc.2 = occurrences field kc.1 done /\ 1 <= kc.2) d /\
  (forall log, log ∈ done ->
     exists kc, kc ∈ d /\ ApiReads.value_eq kc.1 (counted field log) = true).

(** The settings after a run of POSTs to /api/settings, each with its
    body and whether the file could be written. *)
Definition after_saves (file : option (gmap string value))
    (saves : list (gmap string value * bool)) : gmap string value :=
  fold_left (fun CONFIG s => (ApiReads.save_settings s.1 s.2 CONFIG).2)
    saves (ApiReads.load_config file).

Definition sensitivity_07 : gmap string value :=
  {["sensitivity" := VFloat 0.7%Q]}.

(** The position of a character in the base64 alphabet, and the bytes
    that a base64 text spells, group of four characters by group. *)
Fixpoint b64_pos (c : ascii) (alphabet : list ascii) : N :=
  match alphabet with
  | [] => 0
  | x :: rest => if Ascii.eqb x c then 0 else 1 + b64_pos c rest
  end.

Definition b64_value (c : ascii) : N := b64_pos c b64_alphabet.

Definition byte_of (n : N) : Byte.byte :=
  default Byte.x00 (Byte.of_N (n mod 256)).

Fixpoint b64_bytes (s : string) : list Byte.byte :=
  match s with
  | String c0 (String c1 (String c2 (String c3 rest))) =>
      let n := (b64_value c0 * 262144 + b64_value c1 * 4096)%N in
      if Ascii.eqb c2 "=" then [byte_of (n / 65536)]
      else
        let n := (n + b64_value c2 * 64)%N in
        if Ascii.eqb c3 "=" then [byte_of (n / 65536); byte_of (n / 256)]
        else
          let n := (n + b64_value c3)%N in
          byte_of (n / 65536) :: byte_of (n / 256) :: byte_of n
            :: b64_bytes rest
  | _ => []
  end.

Definition all_columns : TrainingRows.Columns :=
  {| TrainingRows.has_PROTOCOL := true; TrainingRows.has_TCP_FLAGS := true;
     TrainingRows.cast_beyond := fun _ => - 2 ^ 63 |}.

Definition syn_ack_row : TrainingRows.Row :=
  {| TrainingRows.size := 60; TrainingRows.sport := 443;
     TrainingRows.dport := 51000; TrainingRows.protocol_num := Some 6;
     TrainingRows.tcp_flags_val := Some 18; TrainingRows.Attack := "Benign" |}.

(** The float whose integer part is the length of the bar of a count
    [c] when the largest count is [m], for the scale 50. *)
Definition bar_float (m c : Z) : Q :=
  fl64 (fl64 (inject_Z c / inject_Z m) * fl64 (inject_Z 50)).

(** The line that a chart draws for an item when the largest count is
    [m]. *)
Definition line_of (m : Z) (item : value * Z) : Frontend.Line :=
  {| Frontend.label := item.1;
     Frontend.bar := Z.to_nat (Frontend.int_of_float (bar_float m item.2));
     Frontend.count := item.2 |}.

(** The box shows one line per entry of [stats], in order, with its label
    and count; no bar is longer than 50 blocks, bars do not grow down the
    chart, and the first bar has the full 50 blocks. *)
Definition draws (stats : list (value * Z)) (c : Frontend.content) : Prop :=
  exists lines,
    c = Frontend.Shown (Frontend.Lines lines) /\
    map (fun l => (Frontend.label l, Frontend.count l)) lines = stats /\
    Forall (fun l => (Frontend.bar l <= 50)%nat) lines /\
    StronglySorted (fun a b => (Frontend.bar b <= Frontend.bar a)%nat) lines /\
    (exists l, head lines = Some l /\ Frontend.bar l = 50%nat).

Definition boxes_loading : Frontend.Charts :=
  {| Frontend.classification_chart := Frontend.Loading;
     Frontend.protocol_chart := Frontend.Loading;
     Frontend.ip_chart := Frontend.Loading |}.

(** * Properties *)

(** ** Decision policy *)

Lemma float_lt_true (x y : Q) : float_lt x y = true <-> (x < y)%Q.
Proof.
  unfold float_lt. rewrite Qlt_alt.
  destruct (x ?= y)%Q; split; congruence.
Qed.

Lemma float_lt_false (x y : Q) : float_lt x y = false <-> (y <= x)%Q.
Proof.
  rewrite <- not_true_iff_false, float_lt_true.
  split; [apply Qnot_lt_le | apply Qle_not_lt].
Qed.

(** *** Rounding to binary64 *)

Lemma pow2_pos e : (0 < pow2 e)%Q.
Proof. apply Qpower_0_lt. reflexivity. Qed.

Lemma pow2_add a b : (pow2 (a + b) == pow2 a * pow2 b)%Q.
Proof. apply Qpower_plus. discriminate. Qed.

Lemma pow2_le a b : a <= b -> (pow2 a <= pow2 b)%Q.
Proof. intros H. apply Qpower_le_compat_l; [exact H | discriminate]. Qed.

Lemma pow2_lt a b : a < b -> (pow2 a < pow2 b)%Q.
Proof. intros H. apply Qpower_lt_compat_l; [exact H | reflexivity]. Qed.

Lemma pow2_inject n : 0 <= n -> (inject_Z (2 ^ n) == pow2 n)%Q.
Proof. intros H. unfold pow2. now rewrite Zpower_Qpower. Qed.

Lemma log2_floor_spec (q : Q) :
  (0 < q)%Q ->
  (pow2 (log2_floor q) <= q < pow2 (log2_floor q + 1))%Q.
Proof.
  intros Hq. unfold log2_floor.
  assert (Ha : 0 < Qnum q) by (unfold Qlt in Hq; cbn in Hq; lia).
  set (la := Z.log2 (Qnum q)). set (lb := Z.log2 (Z.pos (Qden q))).
  destruct (Z.log2_spec _ Ha) as [Ha1 Ha2]. fold la in Ha1, Ha2.
  destruct (Z.log2_spec (Z.pos (Qden q)) eq_refl) as [Hb1 Hb2].
  fold lb in Hb1, Hb2.
  assert (Hla : 0 <= la) by apply Z.log2_nonneg.
  assert (Hlb : 0 <= lb) by apply Z.log2_nonneg.
  set (A := inject_Z (Qnum q)). set (B := inject_Z (Z.pos (Qden q))).
  assert (HA1 : (pow2 la <= A)%Q).
  { rewrite <- pow2_inject by lia. unfold A. now rewrite <- Zle_Qle. }
  assert (HA2 : (A < pow2 (la + 1))%Q).
  { rewrite <- pow2_inject by lia. unfold A. rewrite <- Zlt_Qlt.
    now rewrite <- Z.add_1_r in Ha2. }
  assert (HB1 : (pow2 lb <= B)%Q).
  { rewrite <- pow2_inject by lia. unfold B. now rewrite <- Zle_Qle. }
  assert (HB2 : (B < pow2 (lb + 1))%Q).
  { rewrite <- pow2_inject by lia. unfold B. rewrite <- Zlt_Qlt.
    now rewrite <- Z.add_1_r in Hb2. }
  assert (Hq' : q * B == A).
  { unfold A, B. destruct q as [a b]. cbn [Qnum Qden].
    rewrite (Qmake_Qdiv a b). field. discriminate. }
  assert (HB : (0 < B)%Q) by reflexivity.
  clearbody A B. clear Ha1 Ha2 Hb1 Hb2.
  pose proof (pow2_pos lb) as Plb. pose proof (pow2_pos (lb + 1)) as Plb1.
  assert (Hup : (q < pow2 (la - lb + 1))%Q).
  { pose proof (pow2_add (la - lb + 1) lb) as E.
    replace (la - lb + 1 + lb) with (la + 1) in E by lia.
    pose proof (pow2_pos (la - lb + 1)).
    apply Qnot_le_lt. intros Hle.
    revert E H Hle HA2 HB1 Plb.
    generalize (pow2 (la - lb + 1)) (pow2 lb) (pow2 (la + 1)).
    intros x y z E H Hle HA2 HB1 Plb.
    assert (x * y <= q * B)%Q.
    { apply Qmult_le_compat_nonneg; split; lra. }
    lra. }
  assert (Hlow : (pow2 (la - lb - 1) <= q)%Q).
  { pose proof (pow2_add (la - lb - 1) (lb + 1)) as E.
    replace (la - lb - 1 + (lb + 1)) with la in E by lia.
    pose proof (pow2_pos (la - lb - 1)).
    apply Qnot_lt_le. intros Hlt.
    revert E H Hlt HA1 HB2 Plb1.
    generalize (pow2 (la - lb - 1)) (pow2 (lb + 1)) (pow2 la).
    intros x y z E H Hlt HA1 HB2 Plb1.
    assert (q * B < x * B)%Q by (apply Qmult_lt_compat_r; lra).
    assert (x * B <= x * y)%Q by (apply Qmult_le_l; lra).
    lra. }
  destruct (Qle_bool (pow2 (la - lb)) q) eqn:Hc.
  - apply Qle_bool_iff in Hc. split; [exact Hc | exact Hup].
  - split; [exact Hlow |].
    replace (la - lb - 1 + 1) with (la - lb) by lia.
    apply Qnot_le_lt. intros Hle. apply Qle_bool_iff in Hle. congruence.
Qed.

Lemma log2_floor_unique (q : Q) (k : Z) :
  (pow2 k <= q < pow2 (k + 1))%Q -> log2_floor q = k.
Proof.
  intros [Hlo Hhi].
  assert (Hq : (0 < q)%Q) by (pose proof (pow2_pos k); lra).
  destruct (log2_floor_spec q Hq) as [Hlo' Hhi'].
  destruct (Z.lt_trichotomy (log2_floor q) k) as [Hlt | [Heq | Hgt]].
  - pose proof (pow2_le (log2_floor q + 1) k ltac:(lia)). lra.
  - exact Heq.
  - pose proof (pow2_le (k + 1) (log2_floor q) ltac:(lia)). lra.
Qed.

Lemma log2_floor_comp (x y : Q) :
  (0 < x)%Q -> x == y -> log2_floor x = log2_floor y.
Proof.
  intros Hx Heq. apply log2_floor_unique.
  assert (Hy : (0 < y)%Q) by lra.
  destruct (log2_floor_spec y Hy). lra.
Qed.

Lemma log2_floor_mono (x y : Q) :
  (0 < x)%Q -> (x <= y)%Q -> log2_floor x <= log2_floor y.
Proof.
  intros Hx Hle.
  destruct (log2_floor_spec x Hx) as [Hx1 _].
  destruct (log2_floor_spec y ltac:(lra)) as [_ Hy2].
  destruct (Z.le_gt_cases (log2_floor x) (log2_floor y)) as [H | H]; [exact H |].
  pose proof (pow2_le (log2_floor y + 1) (log2_floor x) ltac:(lia)). lra.
Qed.

Lemma round_half_even_bounds (q : Q) :
  Qfloor q <= round_half_even q <= Qfloor q + 1.
Proof.
  unfold round_half_even.
  destruct (q - inject_Z (Qfloor q) ?= 1 # 2)%Q; [destruct (Z.even _) | |]; lia.
Qed.

Lemma round_half_even_comp (x y : Q) :
  x == y -> round_half_even x = round_half_even y.
Proof.
  intros H. unfold round_half_even. rewrite (Qfloor_comp x y H).
  assert (E : x - inject_Z (Qfloor y) == y - inject_Z (Qfloor y)) by now rewrite H.
  now rewrite (Qcompare_comp _ _ E _ _ (Qeq_refl (1 # 2))).
Qed.

Lemma round_half_even_Z (n : Z) : round_half_even (inject_Z n) = n.
Proof.
  unfold round_half_even. rewrite Qfloor_Z.
  assert (E : inject_Z n - inject_Z n == 0) by ring.
  now rewrite (Qcompare_comp _ _ E _ _ (Qeq_refl (1 # 2))).
Qed.

Lemma round_half_even_mono (x y : Q) :
  (x <= y)%Q -> round_half_even x <= round_half_even y.
Proof.
  intros Hle. pose proof (Qfloor_resp_le x y Hle) as Hf.
  pose proof (round_half_even_bounds x) as Bx.
  pose proof (round_half_even_bounds y) as By.
  destruct (Z.eq_dec (Qfloor x) (Qfloor y)) as [Heq | Hne]; [| lia].
  clear Bx By Hf. unfold round_half_even. rewrite Heq.
  set (f := Qfloor y).
  destruct (x - inject_Z f ?= 1 # 2)%Q eqn:Cx;
    [apply Qeq_alt in Cx | apply Qlt_alt in Cx | apply Qgt_alt in Cx];
    (destruct (y - inject_Z f ?= 1 # 2)%Q eqn:Cy;
     [apply Qeq_alt in Cy | apply Qlt_alt in Cy | apply Qgt_alt in Cy]);
    try (exfalso; lra); destruct (Z.even f); lia.
Qed.

Lemma round_half_even_close (q : Q) :
  (- (1 # 2) <= inject_Z (round_half_even q) - q <= 1 # 2)%Q.
Proof.
  unfold round_half_even.
  pose proof (Qfloor_le q) as Hlo. pose proof (Qlt_floor q) as Hhi.
  rewrite inject_Z_plus in Hhi. change (inject_Z 1) with 1%Q in Hhi.
  destruct (q - inject_Z (Qfloor q) ?= 1 # 2)%Q eqn:Hc.
  - apply Qeq_alt in Hc. destruct (Z.even (Qfloor q)).
    + lra.
    + rewrite inject_Z_plus. change (inject_Z 1) with 1%Q. lra.
  - apply Qlt_alt in Hc. lra.
  - apply Qgt_alt in Hc. rewrite inject_Z_plus.
    change (inject_Z 1) with 1%Q. lra.
Qed.

Lemma fl64_value (q : Q) :
  fl64 q == inject_Z (round_half_even (q / pow2 (ulp_exponent q)))
            * pow2 (ulp_exponent q).
Proof. unfold fl64. apply Qred_correct. Qed.

Lemma Qpos_of_nonneg (q : Q) : (0 <= q)%Q -> ~ q == 0 -> (0 < q)%Q.
Proof.
  intros H N. apply Qle_lteq in H as [H | H]; [exact H |].
  exfalso. apply N. now symmetry.
Qed.

Lemma ulp_exponent_pos (q : Q) :
  (0 < q)%Q -> ulp_exponent q = Z.max (-1074) (log2_floor q - 52).
Proof.
  intros Hq. unfold ulp_exponent. f_equal. f_equal.
  apply log2_floor_comp.
  - rewrite Qabs_pos; lra.
  - apply Qabs_pos. lra.
Qed.

Lemma div_pow2_le (x y : Q) (e : Z) :
  (x <= y)%Q -> (x / pow2 e <= y / pow2 e)%Q.
Proof.
  intros H. pose proof (pow2_pos e) as He.
  apply Qmult_le_compat_r; [exact H |].
  apply Qlt_le_weak, Qinv_lt_0_compat, He.
Qed.

Lemma div_pow2 (e k : Z) : pow2 (e + k) / pow2 e == pow2 k.
Proof.
  rewrite pow2_add. pose proof (pow2_pos e).
  generalize dependent (pow2 e). generalize (pow2 k). intros. field. lra.
Qed.

Lemma significand_bounds (q : Q) :
  (0 < q)%Q ->
  0 <= round_half_even (q / pow2 (ulp_exponent q)) <= 2 ^ 53 /\
  (-1074 < ulp_exponent q ->
   2 ^ 52 <= round_half_even (q / pow2 (ulp_exponent q))).
Proof.
  intros Hq. rewrite (ulp_exponent_pos q Hq).
  destruct (log2_floor_spec q Hq) as [Hlo Hhi].
  set (k := log2_floor q) in *. set (e := Z.max (-1074) (k - 52)).
  split; [split |].
  - rewrite <- (round_half_even_Z 0) at 1. apply round_half_even_mono.
    pose proof (pow2_pos e). apply Qle_shift_div_l; [assumption |].
    change (inject_Z 0) with 0%Q. lra.
  - rewrite <- (round_half_even_Z (2 ^ 53)). apply round_half_even_mono.
    rewrite pow2_inject by lia. rewrite <- (div_pow2 e 53).
    apply div_pow2_le.
    pose proof (pow2_le (k + 1) (e + 53) ltac:(lia)). lra.
  - intros He. assert (Hek : e = k - 52) by lia.
    rewrite <- (round_half_even_Z (2 ^ 52)). apply round_half_even_mono.
    rewrite pow2_inject by lia. rewrite <- (div_pow2 e 52).
    apply div_pow2_le. replace (e + 52) with k by lia. exact Hlo.
Qed.

Lemma fl64_zero (q : Q) : q == 0 -> fl64 q == 0.
Proof.
  intros H. rewrite fl64_value.
  assert (E : q / pow2 (ulp_exponent q) == inject_Z 0).
  { generalize (pow2 (ulp_exponent q)). intros p. rewrite H.
    unfold Qdiv. change (inject_Z 0) with 0%Q. ring. }
  rewrite (round_half_even_comp _ _ E), round_half_even_Z.
  change (inject_Z 0) with 0%Q. ring.
Qed.

Lemma fl64_nonneg (q : Q) : (0 <= q)%Q -> (0 <= fl64 q)%Q.
Proof.
  intros H. destruct (Qeq_dec q 0) as [E | N].
  - rewrite (fl64_zero q E). lra.
  - pose proof (Qpos_of_nonneg q H N) as Hq.
    rewrite fl64_value.
    destruct (significand_bounds q Hq) as [[Hm _] _].
    apply Qmult_le_0_compat; [| apply Qlt_le_weak, pow2_pos].
    change 0%Q with (inject_Z 0). now rewrite <- Zle_Qle.
Qed.

Lemma fl64_pos_mono (x y : Q) :
  (0 < x)%Q -> (x <= y)%Q -> (fl64 x <= fl64 y)%Q.
Proof.
  intros Hx Hle. assert (Hy : (0 < y)%Q) by lra.
  rewrite !fl64_value.
  destruct (significand_bounds x Hx) as [[_ Hmx] _].
  destruct (significand_bounds y Hy) as [[Hmy0 _] Hmy].
  pose proof (ulp_exponent_pos x Hx) as Ex.
  pose proof (ulp_exponent_pos y Hy) as Ey.
  pose proof (log2_floor_mono x y Hx Hle) as Hk.
  destruct (Z.eq_dec (ulp_exponent x) (ulp_exponent y)) as [Heq | Hne].
  - rewrite Heq. apply Qmult_le_compat_r; [| apply Qlt_le_weak, pow2_pos].
    rewrite <- Zle_Qle. apply round_half_even_mono, div_pow2_le, Hle.
  - assert (Hlt : ulp_exponent x < ulp_exponent y) by lia.
    specialize (Hmy ltac:(lia)).
    apply Qle_trans with (inject_Z (2 ^ 53) * pow2 (ulp_exponent x))%Q.
    { apply Qmult_le_compat_r; [| apply Qlt_le_weak, pow2_pos].
      now rewrite <- Zle_Qle. }
    apply Qle_trans with (inject_Z (2 ^ 52) * pow2 (ulp_exponent y))%Q.
    2:{ apply Qmult_le_compat_r; [| apply Qlt_le_weak, pow2_pos].
        now rewrite <- Zle_Qle. }
    rewrite !pow2_inject by lia.
    rewrite <- !pow2_add. apply pow2_le. lia.
Qed.

Lemma fl64_mono (x y : Q) :
  (0 <= x)%Q -> (x <= y)%Q -> (fl64 x <= fl64 y)%Q.
Proof.
  intros Hx Hle. destruct (Qeq_dec x 0) as [E | N].
  - rewrite (fl64_zero x E). apply fl64_nonneg. lra.
  - apply fl64_pos_mono; [| exact Hle]. now apply Qpos_of_nonneg.
Qed.

Lemma Qabs_zero (q : Q) : Qabs q == 0 -> q == 0.
Proof.
  destruct q as [[| p | p] d]; unfold Qeq; cbn; lia.
Qed.

Lemma fl64_comp (x y : Q) : x == y -> fl64 x = fl64 y.
Proof.
  intros H. apply Qred_complete.
  destruct (Qeq_dec x 0) as [Z | N].
  - pose proof (fl64_zero x Z) as Fx. rewrite fl64_value in Fx.
    assert (Zy : y == 0) by now rewrite <- H.
    pose proof (fl64_zero y Zy) as Fy. rewrite fl64_value in Fy.
    now rewrite Fx, Fy.
  - assert (E : ulp_exponent x = ulp_exponent y).
    { unfold ulp_exponent. f_equal. f_equal. apply log2_floor_comp.
      - apply Qpos_of_nonneg; [apply Qabs_nonneg |].
        intros A. apply N, Qabs_zero, A.
      - now rewrite H. }
    rewrite E.
    assert (E' : x / pow2 (ulp_exponent y) == y / pow2 (ulp_exponent y))
      by now rewrite H.
    now rewrite (round_half_even_comp _ _ E').
Qed.

(** The rounding error is at most half a unit in the last place. *)
Lemma fl64_error (q : Q) :
  (Qabs (fl64 q - q) <= pow2 (ulp_exponent q - 1))%Q.
Proof.
  rewrite fl64_value. set (e := ulp_exponent q).
  pose proof (round_half_even_close (q / pow2 e)) as Hc.
  pose proof (pow2_pos e) as He.
  assert (Hhalf : pow2 (e - 1) == (1 # 2) * pow2 e).
  { replace (e - 1) with (-1 + e) by lia. now rewrite pow2_add. }
  rewrite Hhalf. revert Hc He.
  generalize (inject_Z (round_half_even (q / pow2 e))).
  generalize (pow2 e). intros p m Hc Hp.
  assert (E : m * p - q == (m - q / p) * p) by (field; lra).
  rewrite E. apply Qabs_Qle_condition. split.
  - assert ((- (1 # 2)) * p <= (m - q / p) * p)%Q
      by (apply Qmult_le_compat_r; lra).
    lra.
  - assert ((m - q / p) * p <= (1 # 2) * p)%Q
      by (apply Qmult_le_compat_r; lra).
    lra.
Qed.

Lemma ulp_exponent_unit (q : Q) :
  (0 < q <= 1)%Q -> ulp_exponent q <= -52.
Proof.
  intros [Hq H1]. rewrite (ulp_exponent_pos q Hq).
  destruct (log2_floor_spec q Hq) as [Hlo _].
  destruct (Z.le_gt_cases (log2_floor q) 0) as [H | H]; [lia |].
  pose proof (pow2_le 1 (log2_floor q) ltac:(lia)) as P.
  change (pow2 1) with 2%Q in P. lra.
Qed.

Lemma fl64_unit_error (q : Q) :
  (0 <= q <= 1)%Q -> (Qabs (fl64 q - q) <= pow2 (-53))%Q.
Proof.
  intros [H0 H1]. destruct (Qeq_dec q 0) as [Z | N].
  - rewrite (fl64_zero q Z), Z. pose proof (pow2_pos (-53)).
    change (Qabs (0 - 0)) with 0%Q. lra.
  - pose proof (Qpos_of_nonneg q H0 N) as Hq.
    eapply Qle_trans; [apply fl64_error |].
    apply pow2_le. pose proof (ulp_exponent_unit q (conj Hq H1)). lia.
Qed.

Lemma float_sub_unit (c : Q) :
  (0 <= c <= 1)%Q ->
  (0 <= float_sub 1 c <= 1)%Q /\
  (Qabs (float_sub 1 c - (1 - c)) <= pow2 (-53))%Q.
Proof.
  intros Hc. unfold float_sub. split; [split |].
  - apply fl64_nonneg. lra.
  - change 1%Q with (fl64 1) at 2. apply fl64_mono; lra.
  - apply fl64_unit_error. lra.
Qed.

(** [1.0 - 0.42] is not the float of [0.58], and still prints as
    ["0.5800"]. *)
Example float_sub_042 :
  float_sub 1 (fl64 0.42) = (326510972984361 # 562949953421312)%Q /\
  fl64 0.58 = (5224175567749775 # 9007199254740992)%Q /\
  format_4f (float_sub 1 (fl64 0.42)) = "0.5800"%string.
Proof. repeat split; vm_compute; reflexivity. Qed.

(** *** The threshold *)

Lemma log_data_classification packet classification (confidence : Q) :
  packet_to_log_data packet classification confidence !! "classification"
  = Some (VStr (if classification =? 1 then "Anomaly" else "Normal")).
Proof.
  unfold packet_to_log_data.
  destruct (pkt_IP packet), (pkt_TCP packet), (pkt_UDP packet);
    by simplify_map_eq.
Qed.

Lemma log_data_confidence packet classification (confidence : float) :
  packet_to_log_data packet classification confidence !! "confidence"
  = Some (VStr (format_float_4f confidence)).
Proof.
  unfold packet_to_log_data.
  destruct (pkt_IP packet), (pkt_TCP packet), (pkt_UDP packet);
    by simplify_map_eq.
Qed.

Lemma reported_fields packet features classification (confidence : Q) :
  reported packet features classification confidence !! "classification"
  = Some (VStr (if classification =? 1 then "Anomaly" else "Normal")) /\
  reported packet features classification confidence !! "confidence"
  = Some (VStr (format_4f confidence)).
Proof.
  unfold reported. rewrite !lookup_insert_ne by discriminate.
  split; [apply log_data_classification |].
  exact (log_data_confidence packet classification confidence).
Qed.

(** The record that [process_packet] buffers carries the thresholded
    verdict, whatever the engine answered. *)
Lemma process_packet_reports_threshold ml_engine CONFIG st packet features r :
  extract_features packet = Some features ->
  MLEngine.predict ml_engine features = Ok r ->
  Sniffer.process_packet ml_engine CONFIG st packet
  = Ok (buffering st
          (reported packet features
             (Sniffer.apply_threshold CONFIG r.1 r.2).1
             (Sniffer.apply_threshold CONFIG r.1 r.2).2)).
Proof.
  intros Hf Hp. unfold Sniffer.process_packet. rewrite Hf, Hp. simpl.
  destruct (Sniffer.apply_threshold CONFIG r.1 r.2) as [cl co]. reflexivity.
Qed.

(** C1: when the classifier answers [label] with confidence [c] for a
    captured packet, and [s] is the sensitivity in effect (the configured
    value, 0.5 when the key is absent): if [label] is Anomaly (1) and
    [c < s], [process_packet] buffers the record of a Normal verdict whose
    confidence is the float [1.0 - c], which for [c] in [0, 1] lies within
    [2^-53] of [1 - c]; if [label] is not Anomaly, or [s <= c], it buffers
    the record of the verdict as it came. *)
Theorem threshold_policy (ml_engine : MLEngine.MLEngine)
    (CONFIG : Sniffer.Settings) (st : Sniffer.State) (packet : Packet)
    (features : list Z) (label : Z) (c : Q) :
  extract_features packet = Some features ->
  MLEngine.predict ml_engine features = Ok (label, c) ->
  let s := default 0.5%Q (Sniffer.sensitivity CONFIG) in
  (label = 1 -> (c < s)%Q ->
   let e := reported packet features 0 (float_sub 1 c) in
   Sniffer.process_packet ml_engine CONFIG st packet = Ok (buffering st e) /\
   e !! "classification" = Some (VStr "Normal") /\
   e !! "confidence" = Some (VStr (format_4f (float_sub 1 c))) /\
   ((0 <= c <= 1)%Q ->
    (Qabs (float_sub 1 c - (1 - c)) <= pow2 (-53))%Q)) /\
  (label <> 1 \/ (s <= c)%Q ->
   let e := reported packet features label c in
   Sniffer.process_packet ml_engine CONFIG st packet = Ok (buffering st e) /\
   e !! "classification"
     = Some (VStr (if label =? 1 then "Anomaly" else "Normal")) /\
   e !! "confidence" = Some (VStr (format_4f c))).
Proof.
  intros Hf Hp s.
  pose proof (process_packet_reports_threshold
                ml_engine CONFIG st packet features (label, c) Hf Hp) as Hrun.
  unfold Sniffer.apply_threshold in Hrun. fold s in Hrun.
  cbn [fst snd] in Hrun. split.
  - intros -> Hlt e. apply float_lt_true in Hlt.
    rewrite Hlt in Hrun. cbn in Hrun. split; [exact Hrun |].
    destruct (reported_fields packet features 0 (float_sub 1 c)) as [Hc Hx].
    split; [exact Hc |]. split; [exact Hx |].
    intros Hunit. now apply float_sub_unit.
  - intros Hpass e.
    assert (Hcond : (label =? 1) && float_lt c s = false).
    { destruct Hpass as [Hne | Hge].
      - apply Z.eqb_neq in Hne. now rewrite Hne.
      - apply float_lt_false in Hge. rewrite Hge. apply andb_false_r. }
    rewrite Hcond in Hrun. split; [exact Hrun |].
    apply reported_fields.
Qed.

Lemma threshold_policy_witness :
  (let e := reported syn_ack_fin_rst [6; 1400; 64; 4] 0
              (float_sub 1 (fl64 0.3)) in
   Sniffer.process_packet {| MLEngine.model := Some (constant_model 1 0.3) |}
     half_sensitivity two_buffered syn_ack_fin_rst
   = Ok (buffering two_buffered e) /\
   e !! "classification" = Some (VStr "Normal") /\
   e !! "confidence" = Some (VStr "0.7000")) /\
  (let e := reported syn_ack_fin_rst [6; 1400; 64; 4] 1 (fl64 0.9) in
   Sniffer.process_packet {| MLEngine.model := Some (constant_model 1 0.9) |}
     half_sensitivity two_buffered syn_ack_fin_rst
   = Ok (buffering two_buffered e) /\
   e !! "classification" = Some (VStr "Anomaly") /\
   e !! "confidence" = Some (VStr "0.9000")) /\
  (let e := reported syn_ack_fin_rst [6; 1400; 64; 4] 0 (fl64 0.2) in
   Sniffer.process_packet {| MLEngine.model := Some (constant_model 0 0.2) |}
     half_sensitivity two_buffered syn_ack_fin_rst
   = Ok (buffering two_buffered e) /\
   e !! "classification" = Some (VStr "Normal") /\
   e !! "confidence" = Some (VStr "0.2000")).
Proof.
  split; [| split].
  - destruct (proj1 (threshold_policy
                       {| MLEngine.model := Some (constant_model 1 0.3) |}
                       half_sensitivity two_buffered syn_ack_fin_rst
                       [6; 1400; 64; 4] 1 (fl64 0.3) eq_refl eq_refl)
                eq_refl eq_refl) as (Hrun & Hc & Hx & _).
    split; [exact Hrun |]. split; [exact Hc |].
    rewrite Hx. vm_compute. reflexivity.
  - destruct (proj2 (threshold_policy
                       {| MLEngine.model := Some (constant_model 1 0.9) |}
                       half_sensitivity two_buffered syn_ack_fin_rst
                       [6; 1400; 64; 4] 1 (fl64 0.9) eq_refl eq_refl))
      as (Hrun & Hc & Hx).
    { right. vm_compute. discriminate. }
    split; [exact Hrun |]. split; [exact Hc |].
    rewrite Hx. vm_compute. reflexivity.
  - destruct (proj2 (threshold_policy
                       {| MLEngine.model := Some (constant_model 0 0.2) |}
                       half_sensitivity two_buffered syn_ack_fin_rst
                       [6; 1400; 64; 4] 0 (fl64 0.2) eq_refl eq_refl))
      as (Hrun & Hc & Hx).
    { left. discriminate. }
    split; [exact Hrun |]. split; [exact Hc |].
    rewrite Hx. vm_compute. reflexivity.
Defined.

(** ** Feature order *)

Lemma extract_features_length packet features :
  extract_features packet = Some features -> length features = 4%nat.
Proof.
  unfold extract_features. intros H.
  destruct (pkt_IP packet) as [ip|]; [| discriminate].
  destruct (pkt_TCP packet) as [tcp|]; [| destruct (pkt_UDP packet)];
    inversion H; reflexivity.
Qed.

(** C2 (fails on the code): the extractor emits four fields led by the
    protocol number, as its docstring says, while the training script
    trains on the eleven columns of [SNIFFER_FEATURES], led by the size. *)
Theorem feature_order_mismatch packet features :
  extract_features packet = Some features ->
  length features = 4%nat /\
  length Training.SNIFFER_FEATURES = 11%nat /\
  length documented_order = length features /\
  documented_order <> Training.SNIFFER_FEATURES.
Proof.
  intros H. apply extract_features_length in H. rewrite H.
  repeat split; discriminate.
Qed.

Lemma feature_order_mismatch_witness :
  extract_features syn_ack_fin_rst = Some [6; 1400; 64; 4] /\
  length [6; 1400; 64; 4] = 4%nat /\
  length Training.SNIFFER_FEATURES = 11%nat.
Proof.
  assert (H : extract_features syn_ack_fin_rst = Some [6; 1400; 64; 4])
    by (vm_compute; reflexivity).
  split; [exact H |].
  destruct (feature_order_mismatch syn_ack_fin_rst _ H) as (H4 & H11 & _).
  split; [exact H4 | exact H11].
Defined.

(** ** Classifier *)

Lemma predict_returns (self : MLEngine.MLEngine) (features : list Z) :
  exists r, MLEngine.predict self features = Ok r.
Proof.
  unfold MLEngine.predict.
  destruct (MLEngine.model self) as [m|]; [| eauto].
  destruct (MLEngine.predict_try m features); eauto.
Qed.

(** C3: [predict] returns for every engine and every vector; without a
    model (artifact missing or unreadable), and whenever a step of the
    prediction raises, it returns (0, 0.0). *)
Theorem predict_never_raises (self : MLEngine.MLEngine) (features : list Z) :
  (exists r, MLEngine.predict self features = Ok r) /\
  (MLEngine.model self = None ->
   MLEngine.predict self features = Ok (0, 0%Q)) /\
  (forall m e, MLEngine.model self = Some m ->
     MLEngine.predict_try m features = Raise e ->
     MLEngine.predict self features = Ok (0, 0%Q)).
Proof.
  split; [apply predict_returns |].
  unfold MLEngine.predict. split.
  - intros ->. reflexivity.
  - intros m e -> He. now rewrite He.
Qed.

Lemma predict_never_raises_witness :
  MLEngine.predict (MLEngine._load_model MLEngine.FileNotFound) [] = Ok (0, 0%Q) /\
  MLEngine.predict (MLEngine._load_model MLEngine.Unreadable) [] = Ok (0, 0%Q) /\
  MLEngine.predict (MLEngine._load_model (MLEngine.Pickled nonempty_only)) []
    = Ok (0, 0%Q).
Proof.
  split; [| split].
  - apply (proj1 (proj2 (predict_never_raises _ []))). reflexivity.
  - apply (proj1 (proj2 (predict_never_raises _ []))). reflexivity.
  - apply (proj2 (proj2 (predict_never_raises _ [])) nonempty_only ValueError);
      reflexivity.
Defined.

(** ** Capture callback and batching sender *)

Section SnifferRuns.

Variable ml_engine : MLEngine.MLEngine.
Variable CONFIG : Sniffer.Settings.

Lemma extract_features_None packet :
  extract_features packet = None <-> pkt_IP packet = None.
Proof.
  unfold extract_features.
  destruct (pkt_IP packet); split; intros; congruence.
Qed.

Lemma process_packet_total st packet :
  exists st' new,
    Sniffer.process_packet ml_engine CONFIG st packet = Ok st' /\
    Sniffer.LIVE_PACKETS st' = Sniffer.LIVE_PACKETS st ++ new /\
    Sniffer.posted st' = Sniffer.posted st /\
    Sniffer.last_send_time st' = Sniffer.last_send_time st /\
    (pkt_IP packet = None -> new = [] /\ st' = st) /\
    (is_Some (pkt_IP packet) -> exists e, new = [e] /\ built_from packet e).
Proof.
  unfold Sniffer.process_packet.
  destruct (extract_features packet) as [features|] eqn:Hf.
  - destruct (predict_returns ml_engine features) as [r Hr].
    rewrite Hr. simpl.
    destruct (Sniffer.apply_threshold CONFIG r.1 r.2) as [cl co].
    eexists _, [_]. do 4 (split; [reflexivity |]). split.
    + intros Hnone. apply extract_features_None in Hnone. congruence.
    + intros Hip. eexists. split; [reflexivity |].
      split; [exact Hip |]. eauto.
  - exists st, []. rewrite app_nil_r. do 4 (split; [reflexivity |]). split.
    + intros _. split; reflexivity.
    + intros [ip Hip]. apply extract_features_None in Hf. congruence.
Qed.

Lemma captures_only st pkts :
  exists st',
    Sniffer.run ml_engine CONFIG st (map Sniffer.Captured pkts) = Ok st' /\
    Sniffer.posted st' = Sniffer.posted st /\
    Sniffer.last_send_time st' = Sniffer.last_send_time st /\
    length (Sniffer.LIVE_PACKETS st') =
      (length (Sniffer.LIVE_PACKETS st)
       + length (filter (fun p => is_Some (pkt_IP p)) pkts))%nat.
Proof.
  revert st. induction pkts as [| p pkts IH]; intros st.
  - exists st. simpl. repeat split; lia.
  - destruct (process_packet_total st p)
      as (st1 & new & Hrun & Hbuf & Hpost & Htime & Hnone & Hsome).
    destruct (IH st1) as (st' & Hrun' & Hpost' & Htime' & Hlen').
    exists st'. simpl. rewrite Hrun. simpl.
    split; [exact Hrun' |].
    split; [congruence |]. split; [congruence |].
    rewrite Hlen', Hbuf, length_app.
    rewrite filter_cons. destruct (decide (is_Some (pkt_IP p))) as [Hip | Hip].
    + destruct (Hsome Hip) as (e & -> & _). simpl. lia.
    + destruct (pkt_IP p) eqn:E; [exfalso; apply Hip; eauto |].
      destruct (Hnone eq_refl) as [-> _]. simpl. lia.
Qed.

End SnifferRuns.

Lemma send_traffic_batch_empties st now r :
  Sniffer.LIVE_PACKETS (Sniffer.send_traffic_batch st now r) = [].
Proof.
  unfold Sniffer.send_traffic_batch.
  destruct (Sniffer.LIVE_PACKETS st) eqn:Hbuf; [exact Hbuf |].
  destruct r; reflexivity.
Qed.

(** C6: a flush with an empty buffer changes nothing and posts nothing;
    with a non-empty buffer it posts the buffer once, whether or not the
    delivery succeeds, and leaves the buffer empty in both cases. *)
Theorem flush_drops_batch (st : Sniffer.State) (now : Q) (r : Sniffer.reply) :
  let st' := Sniffer.send_traffic_batch st now r in
  (Sniffer.LIVE_PACKETS st = [] -> st' = st) /\
  (Sniffer.LIVE_PACKETS st <> [] ->
   Sniffer.posted st' = Sniffer.posted st ++ [Sniffer.LIVE_PACKETS st] /\
   Sniffer.last_send_time st' = now) /\
  Sniffer.LIVE_PACKETS st' = [].
Proof.
  unfold Sniffer.send_traffic_batch.
  destruct (Sniffer.LIVE_PACKETS st) as [| e buf] eqn:Hbuf; simpl.
  - split; [reflexivity |]. split; [congruence | exact Hbuf].
  - split; [discriminate |].
    split; [intros _ |]; destruct r; simpl; auto.
Qed.

Lemma flush_drops_batch_witness :
  Sniffer.send_traffic_batch (Sniffer.initial 0) 1 Sniffer.Failed
    = Sniffer.initial 0 /\
  Sniffer.posted (Sniffer.send_traffic_batch two_buffered 1 Sniffer.Failed)
    = [Sniffer.LIVE_PACKETS two_buffered] /\
  Sniffer.LIVE_PACKETS (Sniffer.send_traffic_batch two_buffered 1 Sniffer.Failed)
    = [].
Proof.
  split; [| split].
  - apply (proj1 (flush_drops_batch (Sniffer.initial 0) 1 Sniffer.Failed)).
    reflexivity.
  - apply (proj1 (proj2 (flush_drops_batch two_buffered 1 Sniffer.Failed))).
    discriminate.
  - apply (proj2 (proj2 (flush_drops_batch two_buffered 1 Sniffer.Failed))).
Defined.

(** C5 as stated fails: 25 captured records with [BATCH_SIZE] = 10 and no
    wake-up of the sender leave 25 records buffered and nothing posted. *)
Lemma size_trigger_counterexample :
  exists st,
    Sniffer.run no_model half_sensitivity (Sniffer.initial 0)
      (map Sniffer.Captured (repeat syn_ack_fin_rst 25)) = Ok st /\
    Sniffer.BATCH_SIZE = 10 /\
    length (Sniffer.LIVE_PACKETS st) = 25%nat /\
    ~ (2 <= length (Sniffer.posted st))%nat.
Proof.
  destruct (captures_only no_model half_sensitivity (Sniffer.initial 0)
              (repeat syn_ack_fin_rst 25)) as (st & Hrun & Hpost & _ & Hlen).
  exists st. split; [exact Hrun |]. split; [reflexivity |].
  split.
  - rewrite Hlen. reflexivity.
  - rewrite Hpost. simpl. lia.
Qed.

(** C5 (amended): captures alone never post, whatever the buffer length;
    the buffer grows by one record per IP packet; the next wake-up of the
    sender posts the whole buffer as one batch. *)
Theorem flush_only_when_sender_wakes ml_engine CONFIG st pkts :
  exists st',
    Sniffer.run ml_engine CONFIG st (map Sniffer.Captured pkts) = Ok st' /\
    Sniffer.posted st' = Sniffer.posted st /\
    length (Sniffer.LIVE_PACKETS st') =
      (length (Sniffer.LIVE_PACKETS st)
       + length (filter (fun p => is_Some (pkt_IP p)) pkts))%nat /\
    forall now r,
      Sniffer.run ml_engine CONFIG st
        (map Sniffer.Captured pkts ++ [Sniffer.SenderWakes now r])
      = Ok (Sniffer.send_traffic_batch st' now r) /\
      Sniffer.LIVE_PACKETS (Sniffer.send_traffic_batch st' now r) = [] /\
      Sniffer.posted (Sniffer.send_traffic_batch st' now r) =
        Sniffer.posted st ++
        match Sniffer.LIVE_PACKETS st' with
        | [] => []
        | _ :: _ => [Sniffer.LIVE_PACKETS st']
        end.
Proof.
  destruct (captures_only ml_engine CONFIG st pkts)
    as (st' & Hrun & Hpost & _ & Hlen).
  exists st'. split; [exact Hrun |]. split; [exact Hpost |].
  split; [exact Hlen |]. intros now r. split; [| split].
  - clear Hlen Hpost. revert st Hrun.
    induction pkts as [| p pkts IH]; intros st Hrun; simpl in *.
    + inversion Hrun. reflexivity.
    + destruct (Sniffer.process_packet ml_engine CONFIG st p) as [st1|e];
        simpl in *; [| discriminate]. now apply IH.
  - apply send_traffic_batch_empties.
  - rewrite <- Hpost. unfold Sniffer.send_traffic_batch.
    destruct (Sniffer.LIVE_PACKETS st') eqn:Hb.
    + now rewrite app_nil_r.
    + destruct r; reflexivity.
Qed.

(** ** Alerts *)

Section Alerts.

Variable rnd : Api.Random.

Lemma maybe_alert_effect log_entry st o st' :
  Api.maybe_alert rnd log_entry st = (o, st') ->
  Api.LIVE_PACKET_LOG st' = Api.LIVE_PACKET_LOG st /\
  Api.LAST_PACKET_ID st' = Api.LAST_PACKET_ID st /\
  exists new,
    Api.ALERT_HISTORY st' = Api.ALERT_HISTORY st ++ new /\
    Forall is_new new.
Proof.
  unfold Api.maybe_alert. intros H.
  destruct (float_lt _ _).
  - destruct (getitem log_entry "timestamp");
      [destruct (getitem log_entry "src_ip") |];
      inversion H; subst; simpl; repeat split;
      try (exists []; rewrite app_nil_r; split; [reflexivity | constructor]).
    eexists [_]. split; [reflexivity |].
    constructor; [reflexivity | constructor].
  - inversion H; subst; simpl. repeat split.
    exists []. rewrite app_nil_r. split; [reflexivity | constructor].
Qed.

Lemma ingest_logs_alerts logs ids st o st' :
  Api.ingest_logs rnd logs ids st = (o, st') ->
  exists new,
    Api.ALERT_HISTORY st' = Api.ALERT_HISTORY st ++ new /\
    Forall is_new new.
Proof.
  revert ids st. induction logs as [| e logs IH]; intros ids st H; simpl in H.
  - inversion H; subst. exists []. rewrite app_nil_r. split; [done | constructor].
  - destruct (Api.maybe_alert rnd _ _) as [[[] | ex] st1] eqn:Hm;
      apply maybe_alert_effect in Hm; simpl in Hm;
      destruct Hm as (_ & _ & new1 & Hnew1 & Hall1).
    + apply IH in H. destruct H as (new2 & Hnew2 & Hall2).
      exists (new1 ++ new2). rewrite Hnew2, Hnew1, app_assoc.
      split; [reflexivity | now apply Forall_app].
    + inversion H; subst. eauto.
Qed.

Lemma ingest_packet_alerts data st :
  exists new,
    Api.ALERT_HISTORY (Api.ingest_packet rnd data st).2
      = Api.ALERT_HISTORY st ++ new /\
    Forall is_new new.
Proof.
  destruct data as [logs | e]; simpl.
  - destruct (Api.ingest_logs rnd logs [] st) as [[ids | ex] st1] eqn:Hl;
      apply ingest_logs_alerts in Hl; exact Hl.
  - destruct (e !! "logs") as [[| | | | []] |].
    1-6: exists []; rewrite app_nil_r; split; [reflexivity | constructor].
    destruct (Api.maybe_alert rnd _ _) as [[[] | ex] st1] eqn:Hm;
      apply maybe_alert_effect in Hm; simpl in Hm;
      destruct Hm as (_ & _ & Hnew); exact Hnew.
Qed.

End Alerts.

Lemma mark_processed_no_match id alerts :
  Forall (fun a => int_eq (Api.alert_id a) id = false) alerts ->
  Api.mark_processed id alerts = alerts.
Proof.
  induction 1 as [| a l Ha _ IH]; simpl; [reflexivity |].
  now rewrite Ha, IH.
Qed.

Lemma mark_processed_first_match id pre a post :
  Forall (fun a => int_eq (Api.alert_id a) id = false) pre ->
  int_eq (Api.alert_id a) id = true ->
  Api.mark_processed id (pre ++ a :: post) = pre ++ processed a :: post.
Proof.
  intros Hpre Ha. induction Hpre as [| b l Hb _ IH]; simpl.
  - now rewrite Ha.
  - now rewrite Hb, IH.
Qed.

Lemma mark_processed_idempotent id alerts :
  Api.mark_processed id (Api.mark_processed id alerts)
  = Api.mark_processed id alerts.
Proof.
  induction alerts as [| a l IH]; simpl; [reflexivity |].
  destruct (int_eq (Api.alert_id a) id) eqn:Ha; simpl.
  - now rewrite Ha.
  - now rewrite Ha, IH.
Qed.

Lemma mark_processed_ids id alerts :
  map Api.alert_id (Api.mark_processed id alerts) = map Api.alert_id alerts.
Proof.
  induction alerts as [| a l IH]; simpl; [reflexivity |].
  destruct (int_eq (Api.alert_id a) id); simpl; [reflexivity |].
  now rewrite IH.
Qed.

(** C8: alerts are created with status New; an action whose id matches
    sets the first matching alert to Processed and leaves the rest; the
    same action again changes nothing; an action whose id matches no alert
    changes nothing; every action is answered with status 200. *)
Theorem alert_action_idempotent (rnd : Api.Random) (data : Api.action)
    (st : Api.State) :
  let st1 := (Api.handle_alert_action data st).2 in
  (forall body, exists new,
     Api.ALERT_HISTORY (Api.ingest_packet rnd body st).2
       = Api.ALERT_HISTORY st ++ new /\
     Forall is_new new) /\
  (forall pre a post,
     Api.ALERT_HISTORY st = pre ++ a :: post ->
     Forall (fun b => int_eq (Api.alert_id b) (Api.act_alert_id data) = false)
       pre ->
     int_eq (Api.alert_id a) (Api.act_alert_id data) = true ->
     Api.ALERT_HISTORY st1 = pre ++ processed a :: post) /\
  Api.handle_alert_action data st1 = (200, st1) /\
  (Forall (fun b => int_eq (Api.alert_id b) (Api.act_alert_id data) = false)
     (Api.ALERT_HISTORY st) ->
   Api.handle_alert_action data st = (200, st)) /\
  (Api.handle_alert_action data st).1 = 200.
Proof.
  simpl. split; [| split; [| split; [| split]]].
  - intros body. apply ingest_packet_alerts.
  - intros pre a post -> Hpre Ha. now apply mark_processed_first_match.
  - unfold Api.handle_alert_action. simpl.
    now rewrite mark_processed_idempotent.
  - intros Hno. unfold Api.handle_alert_action.
    rewrite mark_processed_no_match by exact Hno. now destruct st.
  - reflexivity.
Qed.

Lemma alert_action_idempotent_witness :
  Api.ALERT_HISTORY (Api.handle_alert_action (act_on 2) two_alerts).2
    = [alert_1; processed alert_2] /\
  Api.handle_alert_action (act_on 7) two_alerts = (200, two_alerts).
Proof.
  split.
  - apply (proj1 (proj2 (alert_action_idempotent alternating (act_on 2)
                           two_alerts)) [alert_1] alert_2 []).
    + reflexivity.
    + repeat constructor.
    + reflexivity.
  - apply (proj1 (proj2 (proj2 (proj2
             (alert_action_idempotent alternating (act_on 7) two_alerts))))).
    repeat constructor.
Defined.

(** ** Alert history *)

(** C10: the history read returns, in insertion order, exactly the alerts
    whose status is New; an alert marked Processed by an action stays in
    [ALERT_HISTORY] but is not returned. *)
Theorem alert_history_only_new (st : Api.State) :
  Api.get_alert_history st `sublist_of` Api.ALERT_HISTORY st /\
  (forall a, a ∈ Api.get_alert_history st <->
             a ∈ Api.ALERT_HISTORY st /\ is_new a) /\
  (forall a, Api.status a = "Processed"%string ->
             a ∉ Api.get_alert_history st) /\
  (forall data pre a post,
     Api.ALERT_HISTORY st = pre ++ a :: post ->
     Forall (fun b => int_eq (Api.alert_id b) (Api.act_alert_id data) = false)
       pre ->
     int_eq (Api.alert_id a) (Api.act_alert_id data) = true ->
     let st1 := (Api.handle_alert_action data st).2 in
     (processed a ∈ Api.ALERT_HISTORY st1) /\
     (processed a ∉ Api.get_alert_history st1) /\
     map Api.alert_id (Api.ALERT_HISTORY st1)
       = map Api.alert_id (Api.ALERT_HISTORY st) /\
     Api.get_alert_history st1
       = filter is_new pre ++ filter is_new post).
Proof.
  unfold Api.get_alert_history. split; [| split; [| split]].
  - apply sublist_filter.
  - intros a. rewrite list_elem_of_filter. unfold is_new. tauto.
  - intros a Hp Hin. apply list_elem_of_filter in Hin as [Hnew _].
    rewrite Hp in Hnew. discriminate.
  - intros data pre a post Hst Hpre Ha. simpl.
    rewrite mark_processed_ids. rewrite Hst.
    rewrite (mark_processed_first_match _ _ _ _ Hpre Ha).
    split; [| split; [| split]].
    + apply elem_of_app. right. left.
    + intros Hin. apply list_elem_of_filter in Hin as [Hnew _]. discriminate.
    + reflexivity.
    + rewrite filter_app, filter_cons. simpl.
      reflexivity.
Qed.

Lemma alert_history_only_new_witness :
  Api.get_alert_history (Api.handle_alert_action (act_on 2) two_alerts).2
    = [alert_1] /\
  map Api.alert_id
    (Api.ALERT_HISTORY (Api.handle_alert_action (act_on 2) two_alerts).2)
    = [1; 2].
Proof.
  destruct (proj2 (proj2 (proj2 (alert_history_only_new two_alerts)))
              (act_on 2) [alert_1] alert_2 []) as (_ & _ & Hids & Hhist).
  - reflexivity.
  - repeat constructor.
  - reflexivity.
  - split; [exact Hhist | exact Hids].
Defined.

(** ** Ingestion: ids and retention window *)

Lemma last_n_app_absorb {A} (k : nat) (l l' : list A) :
  last_n k (last_n k l ++ l') = last_n k (l ++ l').
Proof.
  unfold last_n. destruct (decide (length l <= k)%nat) as [Hle | Hgt].
  - replace (length l - k)%nat with 0%nat by lia. reflexivity.
  - rewrite !length_app, length_drop.
    replace (length l - (length l - k) + length l' - k)%nat
      with (length l') by lia.
    replace (length l + length l' - k)%nat
      with ((length l - k) + length l')%nat by lia.
    rewrite <- drop_drop. f_equal.
    rewrite drop_app_le by lia. reflexivity.
Qed.

Lemma length_last_n {A} (k : nat) (l : list A) :
  (length (last_n k l) <= k)%nat.
Proof. unfold last_n. rewrite length_drop. lia. Qed.

Lemma length_stamp n logs : length (stamp n logs) = length logs.
Proof.
  revert n. induction logs as [| e logs IH]; intros n; simpl; [done |].
  now rewrite IH.
Qed.

Lemma stamp_app n l1 l2 :
  stamp n (l1 ++ l2) = stamp n l1 ++ stamp (n + Z.of_nat (length l1)) l2.
Proof.
  revert n. induction l1 as [| e l1 IH]; intros n; simpl.
  - now rewrite Z.add_0_r.
  - rewrite IH. do 3 f_equal. lia.
Qed.

Lemma stamp_ids n logs :
  map (fun e => e !! "id") (stamp n logs)
  = map (fun i => Some (VInt i)) (seqZ (n + 1) (Z.of_nat (length logs))).
Proof.
  revert n. induction logs as [| e logs IH]; intros n.
  - reflexivity.
  - cbn [stamp length map]. rewrite seqZ_cons by lia.
    cbn [map]. rewrite lookup_insert_eq, IH. do 3 f_equal; lia.
Qed.

Section Ingestion.

Variable rnd : Api.Random.

Lemma maybe_alert_ok e st :
  well_formed e ->
  exists st',
    Api.maybe_alert rnd e st = (Ok tt, st') /\
    Api.LIVE_PACKET_LOG st' = Api.LIVE_PACKET_LOG st /\
    Api.LAST_PACKET_ID st' = Api.LAST_PACKET_ID st.
Proof.
  intros [[ts Hts] [src Hsrc]]. unfold Api.maybe_alert, getitem.
  rewrite Hts, Hsrc. destruct (float_lt _ _); eexists; repeat split.
Qed.

Lemma well_formed_with_id e id :
  well_formed e -> well_formed (<["id" := VInt id]> e).
Proof.
  intros [Hts Hsrc]. split; rewrite lookup_insert_ne by done; assumption.
Qed.

Lemma ingest_logs_ok logs ids st :
  Forall well_formed logs ->
  exists st',
    Api.ingest_logs rnd logs ids st
      = (Ok (ids ++ seqZ (Api.LAST_PACKET_ID st + 1) (Z.of_nat (length logs))),
         st') /\
    Api.LIVE_PACKET_LOG st'
      = Api.LIVE_PACKET_LOG st ++ stamp (Api.LAST_PACKET_ID st) logs /\
    Api.LAST_PACKET_ID st' = Api.LAST_PACKET_ID st + Z.of_nat (length logs).
Proof.
  intros Hwf. revert ids st.
  induction Hwf as [| e logs He _ IH]; intros ids st.
  - exists st. cbn [Api.ingest_logs length stamp]. rewrite !app_nil_r.
    repeat split. lia.
  - cbn [Api.ingest_logs Api.assign_id].
    set (st1 := Api.Build_State _ _ _ _).
    destruct (maybe_alert_ok _ st1 (well_formed_with_id e (Api.LAST_PACKET_ID st + 1) He))
      as (st2 & Hm & Hlog & Hlast).
    subst st1. rewrite Hm.
    cbn [Api.LAST_PACKET_ID Api.LIVE_PACKET_LOG] in *.
    destruct (IH (ids ++ [Api.LAST_PACKET_ID st + 1]) st2)
      as (st' & Hrun & Hlog' & Hlast').
    exists st'. rewrite Hrun, Hlog', Hlast', Hlog, Hlast.
    cbn [Api.LIVE_PACKET_LOG Api.LAST_PACKET_ID length stamp].
    rewrite (seqZ_cons (Api.LAST_PACKET_ID st + 1)) by lia.
    rewrite <- !app_assoc. cbn [app].
    split; [| split; [reflexivity | lia]].
    replace (Z.pred (Z.of_nat (S (length logs))))
      with (Z.of_nat (length logs)) by lia.
    reflexivity.
Qed.

(** One well-formed request: the ids returned, the id counter, and the
    retained window. *)
Lemma ingest_packet_ok data st :
  well_formed_body data ->
  let K := Z.of_nat (length (records_of data)) in
  let r := Api.ingest_packet rnd data st in
  ids_of r.1 = seqZ (Api.LAST_PACKET_ID st + 1) K /\
  Api.status_code r.1 = 201 /\
  Api.LAST_PACKET_ID r.2 = Api.LAST_PACKET_ID st + K /\
  Api.LIVE_PACKET_LOG r.2
    = last_n Api.MAX_LIVE_PACKETS
        (Api.LIVE_PACKET_LOG st
         ++ stamp (Api.LAST_PACKET_ID st) (records_of data)).
Proof.
  destruct data as [logs | e]; cbn [records_of well_formed_body]; intros Hwf.
  - destruct (ingest_logs_ok logs [] st Hwf) as (st' & Hrun & Hlog & Hlast).
    cbn zeta. unfold Api.ingest_packet. rewrite Hrun.
    cbn [fst snd ids_of Api.status_code Api.truncate
           Api.LAST_PACKET_ID Api.LIVE_PACKET_LOG app].
    rewrite Hlog, Hlast. repeat split.
  - destruct Hwf as [Hkey Hwf]. cbn zeta.
    unfold Api.ingest_packet, Api.assign_id. rewrite Hkey.
    set (st1 := Api.truncate _).
    destruct (maybe_alert_ok _ st1 (well_formed_with_id e (Api.LAST_PACKET_ID st + 1) Hwf))
      as (st2 & Hm & Hlog & Hlast).
    rewrite Hm. cbn [fst snd ids_of Api.status_code length stamp].
    rewrite Hlog, Hlast. subst st1.
    cbn [Api.truncate Api.LAST_PACKET_ID Api.LIVE_PACKET_LOG].
    repeat split.
Qed.

(** A run of well-formed requests: all ids in arrival order, and the
    window as the last [MAX_LIVE_PACKETS] of everything received. *)
Lemma ingest_all_ok reqs st :
  Forall well_formed_body reqs ->
  (length (Api.LIVE_PACKET_LOG st) <= Api.MAX_LIVE_PACKETS)%nat ->
  let all := concat (map records_of reqs) in
  let r := Api.ingest_all rnd reqs st in
  concat (map ids_of r.1)
    = seqZ (Api.LAST_PACKET_ID st + 1) (Z.of_nat (length all)) /\
  Api.LAST_PACKET_ID r.2 = Api.LAST_PACKET_ID st + Z.of_nat (length all) /\
  Api.LIVE_PACKET_LOG r.2
    = last_n Api.MAX_LIVE_PACKETS
        (Api.LIVE_PACKET_LOG st ++ stamp (Api.LAST_PACKET_ID st) all).
Proof.
  intros Hwf. revert st.
  induction Hwf as [| data reqs Hd _ IH]; intros st Hbound; cbn zeta.
  - cbn [Api.ingest_all map concat stamp length fst snd].
    rewrite app_nil_r. repeat split; [lia |].
    unfold last_n. replace (_ - _)%nat with 0%nat by lia. reflexivity.
  - cbn [Api.ingest_all map concat].
    pose proof (ingest_packet_ok data st Hd) as Hone. cbn zeta in Hone.
    destruct (Api.ingest_packet rnd data st) as [r1 st1].
    cbn [fst snd] in Hone. destruct Hone as (Hids & _ & Hlast & Hlog).
    assert (Hbound1 : (length (Api.LIVE_PACKET_LOG st1)
                       <= Api.MAX_LIVE_PACKETS)%nat)
      by (rewrite Hlog; apply length_last_n).
    specialize (IH st1 Hbound1). cbn zeta in IH.
    destruct (Api.ingest_all rnd reqs st1) as [rs st2].
    cbn [fst snd map concat] in *.
    destruct IH as (Hids' & Hlast' & Hlog').
    rewrite Hids, Hids', Hlast', Hlast, Hlog', Hlog.
    rewrite length_app, stamp_app, Nat2Z.inj_add.
    split; [| split; [lia |]].
    + rewrite seqZ_app by lia. do 2 f_equal. lia.
    + rewrite last_n_app_absorb, <- app_assoc, Hlast. reflexivity.
Qed.

End Ingestion.

Lemma single_records_flat reqs :
  Forall single_record reqs ->
  Forall well_formed_body reqs /\
  length (concat (map records_of reqs)) = length reqs.
Proof.
  induction 1 as [| data reqs (e & He & [[-> Hkey] | ->]) _ [IHwf IHlen]];
    simpl.
  - split; [constructor | reflexivity].
  - split; [constructor; [split; assumption | exact IHwf] |].
    now rewrite IHlen.
  - split; [constructor; [constructor; [exact He | constructor] | exact IHwf] |].
    now rewrite IHlen.
Qed.

Lemma seqZ_increasing m n (i j : nat) x y :
  seqZ m n !! i = Some x -> seqZ m n !! j = Some y -> (i < j)%nat -> x < y.
Proof.
  intros Hi Hj Hlt. apply lookup_seqZ in Hi as [-> _].
  apply lookup_seqZ in Hj as [-> _]. lia.
Qed.

(** C4: one call on well-formed records returns the ids that follow the
    counter, strictly increasing in arrival order, and leaves the last 50 of
    the old window followed by the new records; on the empty store the ids
    are 1..K; after 60 single-record calls on the empty store the window is
    the last 50 records in arrival order, with ids 11..60. *)
Theorem ingest_ids_and_window (rnd : Api.Random) :
  (forall st data,
     well_formed_body data ->
     let r := Api.ingest_packet rnd data st in
     ids_of r.1 = seqZ (Api.LAST_PACKET_ID st + 1)
                    (Z.of_nat (length (records_of data))) /\
     (forall (i j : nat) x y,
        ids_of r.1 !! i = Some x -> ids_of r.1 !! j = Some y ->
        (i < j)%nat -> x < y) /\
     Api.LIVE_PACKET_LOG r.2
       = last_n 50 (Api.LIVE_PACKET_LOG st
                    ++ stamp (Api.LAST_PACKET_ID st) (records_of data))) /\
  (forall logs,
     Forall well_formed logs ->
     (Api.ingest_packet rnd (Api.Logs logs) Api.initial).1
       = Api.BatchIngested (seqZ 1 (Z.of_nat (length logs)))) /\
  (forall reqs,
     length reqs = 60%nat ->
     Forall single_record reqs ->
     let all := concat (map records_of reqs) in
     let r := Api.ingest_all rnd reqs Api.initial in
     concat (map ids_of r.1) = seqZ 1 60 /\
     Api.get_live_logs r.2 = stamp 10 (drop 10 all) /\
     length (Api.get_live_logs r.2) = 50%nat /\
     map (fun e => e !! "id") (Api.get_live_logs r.2)
       = map (fun i => Some (VInt i)) (seqZ 11 50)).
Proof.
  split; [| split].
  - intros st data Hwf r.
    destruct (ingest_packet_ok rnd data st Hwf) as (Hids & _ & _ & Hlog).
    fold r in Hids, Hlog. split; [exact Hids |]. split; [| exact Hlog].
    rewrite Hids. intros i j x y. apply seqZ_increasing.
  - intros logs Hwf.
    destruct (ingest_logs_ok rnd logs [] Api.initial Hwf) as (st' & Hrun & _).
    unfold Api.ingest_packet. rewrite Hrun. reflexivity.
  - intros reqs Hlen Hsingle all r.
    destruct (single_records_flat reqs Hsingle) as [Hwf Hflat].
    assert (Hall : length all = 60%nat) by (unfold all; congruence).
    destruct (ingest_all_ok rnd reqs Api.initial Hwf) as (Hids & _ & Hlog).
    { simpl. unfold Api.MAX_LIVE_PACKETS. lia. }
    fold all in Hids, Hlog. fold r in Hids, Hlog.
    rewrite Hall in Hids. simpl in Hids.
    assert (Hwin : Api.get_live_logs r.2 = stamp 10 (drop 10 all)).
    { unfold Api.get_live_logs. rewrite Hlog. simpl.
      unfold last_n, Api.MAX_LIVE_PACKETS. rewrite length_stamp, Hall.
      change (60 - 50)%nat with 10%nat.
      rewrite <- (take_drop 10 all) at 1. rewrite stamp_app.
      rewrite length_take, Hall. change (0 + Z.of_nat (10 `min` 60)) with 10.
      rewrite drop_app_length'; [reflexivity |].
      rewrite length_stamp, length_take, Hall. reflexivity. }
    split; [exact Hids |]. split; [exact Hwin |].
    rewrite Hwin, length_stamp, stamp_ids, length_drop, Hall.
    split; reflexivity.
Qed.

Lemma ingest_ids_and_window_witness :
  let r := Api.ingest_all alternating
             (repeat (Api.PacketData sample_record) 60) Api.initial in
  concat (map ids_of r.1) = seqZ 1 60 /\
  map (fun e => e !! "id") (Api.get_live_logs r.2)
    = map (fun i => Some (VInt i)) (seqZ 11 50).
Proof.
  assert (Hsingle : Forall single_record
                      (repeat (Api.PacketData sample_record) 60)).
  { apply List.Forall_forall. intros data Hin.
    apply repeat_spec in Hin. subst data.
    exists sample_record. split; [| left; split; reflexivity].
    split; eexists; reflexivity. }
  destruct (proj2 (proj2 (ingest_ids_and_window alternating))
              (repeat (Api.PacketData sample_record) 60)
              eq_refl Hsingle) as (Hids & _ & _ & Hwin).
  split; [exact Hids | exact Hwin].
Defined.

(** ** Log record *)

Ltac in_digits :=
  unfold is_digit; vm_compute; repeat first [left; reflexivity | right].

Lemma digit_is_digit (d : Z) : is_digit (digit d).
Proof.
  unfold digit. pose proof (Z.mod_pos_bound d 10 eq_refl) as Hd.
  destruct (Z.to_nat (d mod 10)) as [| k] eqn:Hk; [in_digits |].
  do 9 (destruct k as [| k]; [in_digits |]).
  lia.
Qed.

Lemma string_of_uint_digits (d : Decimal.uint) :
  all_digits (NilEmpty.string_of_uint d).
Proof.
  unfold all_digits.
  induction d; simpl; constructor; auto; in_digits.
Qed.

Lemma int_part_4f_digits (x : Q) :
  int_part_4f x <> ""%string /\ all_digits (int_part_4f x).
Proof.
  unfold int_part_4f, NilZero.string_of_uint.
  destruct (N.to_uint _) as [| u | u | u | u | u | u | u | u | u | u];
    (split; [discriminate |]).
  1: repeat constructor; in_digits.
  all: match goal with
       | |- all_digits (NilEmpty.string_of_uint ?d) =>
           apply (string_of_uint_digits d)
       end.
Qed.

Lemma digit_digit_char (d : Z) : digit d = digit_char (d mod 10).
Proof.
  unfold digit, digit_char.
  pose proof (Z.mod_pos_bound d 10 eq_refl) as Hd.
  destruct (Z.to_nat (d mod 10)) as [| k] eqn:Hk; [reflexivity |].
  do 9 (destruct k as [| k]; [reflexivity |]).
  lia.
Qed.

Lemma scaled_4f_nonneg (x : Q) : 0 <= scaled_4f x.
Proof.
  unfold scaled_4f. rewrite <- (round_half_even_Z 0).
  apply round_half_even_mono. change (inject_Z 0) with 0%Q.
  pose proof (Qabs_nonneg x). lra.
Qed.

Lemma frac_part_4f_digits (x : Q) :
  four_digits (scaled_4f x mod 10000) (frac_part_4f x).
Proof.
  unfold frac_part_4f. set (n := scaled_4f x).
  exists ((n / 1000) mod 10), ((n / 100) mod 10), ((n / 10) mod 10), (n mod 10).
  pose proof (Z.mod_pos_bound (n / 1000) 10 eq_refl).
  pose proof (Z.mod_pos_bound (n / 100) 10 eq_refl).
  pose proof (Z.mod_pos_bound (n / 10) 10 eq_refl).
  pose proof (Z.mod_pos_bound n 10 eq_refl).
  do 4 (split; [lia |]).
  split; [| now rewrite !digit_digit_char].
  clearbody n. Z.div_mod_to_equations. lia.
Qed.

Lemma int_part_4f_str (x : Q) : int_part_4f x = str_int (scaled_4f x / 10000).
Proof.
  unfold int_part_4f, str_int.
  pose proof (scaled_4f_nonneg x) as Hn.
  assert (Hk : 0 <= scaled_4f x / 10000) by (apply Z.div_pos; lia).
  destruct (scaled_4f x / 10000) as [| k | k]; [reflexivity | reflexivity | lia].
Qed.

Lemma round_half_even_tie (q : Q) :
  Qabs (inject_Z (round_half_even q) - q) == 1 # 2 ->
  Z.even (round_half_even q) = true.
Proof.
  unfold round_half_even.
  pose proof (Qfloor_le q) as Hlo. pose proof (Qlt_floor q) as Hhi.
  rewrite inject_Z_plus in Hhi. change (inject_Z 1) with 1%Q in Hhi.
  destruct (q - inject_Z (Qfloor q) ?= 1 # 2)%Q eqn:Hc.
  - intros _. destruct (Z.even (Qfloor q)) eqn:He; [exact He |].
    rewrite Z.even_add, He. reflexivity.
  - apply Qlt_alt in Hc. intros Habs. exfalso.
    rewrite Qabs_neg in Habs by lra. lra.
  - apply Qgt_alt in Hc. rewrite inject_Z_plus.
    change (inject_Z 1) with 1%Q. intros Habs. exfalso.
    rewrite Qabs_pos in Habs by lra. lra.
Qed.

Lemma length_append (s t : string) :
  String.length (s +:+ t) = (String.length s + String.length t)%nat.
Proof.
  induction s as [| c s IH]; [reflexivity |].
  change (S (String.length (s +:+ t)) = S (String.length s + String.length t)).
  now rewrite IH.
Qed.

Lemma append_assoc (s t u : string) : (s +:+ t) +:+ u = s +:+ (t +:+ u).
Proof.
  induction s as [| c s IH]; [reflexivity |].
  change (String c ((s +:+ t) +:+ u) = String c (s +:+ (t +:+ u))).
  now rewrite IH.
Qed.




(** ** Packets without an IP header *)

Section NonIP.

Variable ml_engine : MLEngine.MLEngine.
Variable CONFIG : Sniffer.Settings.
Variable rnd : Api.Random.

Lemma traced_mono seen seen' e :
  seen ⊆ seen' -> traced seen e -> traced seen' e.
Proof.
  intros Hsub (p & Hp & Hb). exists p. split; [apply Hsub, Hp | exact Hb].
Qed.

Lemma seen_grows (seen more : list Packet) : seen ⊆ seen ++ more.
Proof. intros p Hp. apply elem_of_app. now left. Qed.

Lemma all_traced_mono seen seen' sys :
  seen ⊆ seen' -> all_traced seen sys -> all_traced seen' sys.
Proof.
  intros Hsub [Hbuf Hlog]. split.
  - eapply Forall_impl; [exact Hbuf |]. intros e. now apply traced_mono.
  - eapply Forall_impl; [exact Hlog |].
    intros e (e0 & id & He0 & ->). exists e0, id.
    split; [now apply (traced_mono seen) | reflexivity].
Qed.

Lemma ingest_logs_stored seen logs ids st o st' :
  Api.ingest_logs rnd logs ids st = (o, st') ->
  Forall (traced seen) logs ->
  Forall (stored seen) (Api.LIVE_PACKET_LOG st) ->
  Forall (stored seen) (Api.LIVE_PACKET_LOG st').
Proof.
  revert ids st. induction logs as [| e logs IH]; intros ids st H Hlogs Hst.
  - inversion H; subst. exact Hst.
  - cbn [Api.ingest_logs Api.assign_id] in H.
    apply Forall_cons in Hlogs as [He Hlogs].
    destruct (Api.maybe_alert rnd _ _) as [[[] | ex] st1] eqn:Hm;
      apply maybe_alert_effect in Hm; destruct Hm as (Hlog & _);
      cbn [Api.LIVE_PACKET_LOG] in Hlog.
    + apply IH in H; [exact H | exact Hlogs |].
      rewrite Hlog. apply Forall_app. split; [exact Hst |].
      constructor; [| constructor].
      eexists _, _. split; [exact He | reflexivity].
    + inversion H; subst. rewrite Hlog.
      apply Forall_app. split; [exact Hst |].
      constructor; [| constructor].
      eexists _, _. split; [exact He | reflexivity].
Qed.

Lemma post_stored seen batch reachable api :
  Forall (traced seen) batch ->
  Forall (stored seen) (Api.LIVE_PACKET_LOG api) ->
  Forall (stored seen)
    (Api.LIVE_PACKET_LOG (Pipeline.post rnd batch reachable api).2).
Proof.
  intros Hbatch Hapi. unfold Pipeline.post.
  destruct reachable; [| exact Hapi].
  unfold Api.ingest_packet.
  destruct (Api.ingest_logs rnd batch [] api) as [[ids | ex] st1] eqn:Hl;
    apply (ingest_logs_stored seen) in Hl; try assumption.
  simpl. unfold last_n. now apply Forall_drop.
Qed.

Lemma step_traced seen sys ev :
  all_traced seen sys ->
  exists sys',
    Pipeline.step ml_engine CONFIG rnd sys ev = Ok sys' /\
    all_traced (seen ++ Pipeline.captured [ev]) sys'.
Proof.
  intros [Hbuf Hlog]. destruct ev as [packet | now reachable].
  - cbn [Pipeline.step Pipeline.captured omap list_omap].
    destruct (process_packet_total ml_engine CONFIG (Pipeline.sniffer sys)
                packet) as (st' & new & Hrun & Hnew & _ & _ & Hnone & Hsome).
    rewrite Hrun. cbn [bind]. eexists. split; [reflexivity |].
    split; cbn [Pipeline.sniffer Pipeline.store].
    + rewrite Hnew. apply Forall_app. split.
      * eapply Forall_impl; [exact Hbuf |]. intros e.
        apply traced_mono, seen_grows.
      * destruct (pkt_IP packet) eqn:Hip.
        -- destruct (Hsome (mk_is_Some _ _ eq_refl)) as (e & -> & Hb).
           constructor; [| constructor]. exists packet.
           split; [| exact Hb].
           apply elem_of_app. right. constructor.
        -- destruct (Hnone eq_refl) as [-> _]. constructor.
    + eapply Forall_impl; [exact Hlog |].
      intros e (e0 & id & He0 & ->). exists e0, id.
      split; [| reflexivity].
      eapply traced_mono; [apply seen_grows | exact He0].
  - cbn [Pipeline.step Pipeline.captured omap list_omap].
    rewrite app_nil_r.
    destruct (Sniffer.LIVE_PACKETS (Pipeline.sniffer sys)) as [| e buf] eqn:Hb.
    + eexists. split; [reflexivity |].
      split; cbn [Pipeline.sniffer Pipeline.store]; [| exact Hlog].
      rewrite send_traffic_batch_empties. constructor.
    + pose proof (post_stored seen (e :: buf) reachable (Pipeline.store sys)
                    Hbuf Hlog) as Hpost.
      destruct (Pipeline.post rnd (e :: buf) reachable (Pipeline.store sys))
        as [r api]. eexists. split; [reflexivity |].
      split; cbn [Pipeline.sniffer Pipeline.store]; [| exact Hpost].
      rewrite send_traffic_batch_empties. constructor.
Qed.

Lemma run_traced evs : forall seen sys,
  all_traced seen sys ->
  exists sys',
    Pipeline.run ml_engine CONFIG rnd sys evs = Ok sys' /\
    all_traced (seen ++ Pipeline.captured evs) sys'.
Proof.
  induction evs as [| ev evs IH]; intros seen sys Hinv.
  - exists sys. split; [reflexivity |].
    cbn [Pipeline.captured omap list_omap]. now rewrite app_nil_r.
  - destruct (step_traced seen sys ev Hinv) as (sys1 & Hstep & Hinv1).
    destruct (IH _ sys1 Hinv1) as (sys' & Hrun & Hinv').
    exists sys'. cbn [Pipeline.run]. rewrite Hstep. cbn [bind].
    split; [exact Hrun |].
    replace (seen ++ Pipeline.captured (ev :: evs))
      with ((seen ++ Pipeline.captured [ev]) ++ Pipeline.captured evs);
      [exact Hinv' |].
    rewrite <- app_assoc. f_equal.
    destruct ev; reflexivity.
Qed.

End NonIP.

(** C7: a packet without an IP header yields no feature vector and leaves
    the sniffer state as it was, whatever the engine; and in every run of
    the pipeline each buffered record, and each record in the store, was
    built from a captured packet that carries an IP header. *)
Theorem non_ip_packet_never_enters (ml_engine : MLEngine.MLEngine)
    (CONFIG : Sniffer.Settings) (rnd : Api.Random) :
  (forall packet st,
     pkt_IP packet = None ->
     extract_features packet = None /\
     Sniffer.process_packet ml_engine CONFIG st packet = Ok st) /\
  (forall start evs,
   exists sys,
     Pipeline.run ml_engine CONFIG rnd (Pipeline.initial start) evs = Ok sys /\
     (forall e, e ∈ Sniffer.LIVE_PACKETS (Pipeline.sniffer sys) ->
        exists packet,
          packet ∈ Pipeline.captured evs /\ is_Some (pkt_IP packet) /\
          built_from packet e) /\
     (forall e, e ∈ Api.get_live_logs (Pipeline.store sys) ->
        exists packet e0 id,
          packet ∈ Pipeline.captured evs /\ is_Some (pkt_IP packet) /\
          built_from packet e0 /\ e = <["id" := VInt id]> e0)).
Proof.
  split.
  - intros packet st Hnone. split; [now apply extract_features_None |].
    unfold Sniffer.process_packet.
    now rewrite (proj2 (extract_features_None packet) Hnone).
  - intros start evs.
    destruct (run_traced ml_engine CONFIG rnd evs [] (Pipeline.initial start))
      as (sys & Hrun & Hbuf & Hlog).
    { split; constructor. }
    exists sys. split; [exact Hrun |]. split.
    + intros e He. rewrite Forall_forall in Hbuf.
      destruct (Hbuf e He) as (p & Hp & Hb).
      exists p. split; [exact Hp |]. split; [apply Hb | exact Hb].
    + intros e He. rewrite Forall_forall in Hlog.
      destruct (Hlog e He) as (e0 & id & (p & Hp & Hb) & ->).
      exists p, e0, id. split; [exact Hp |].
      split; [apply Hb |]. split; [exact Hb | reflexivity].
Qed.

Lemma non_ip_packet_never_enters_witness :
  extract_features arp_frame = None /\
  Sniffer.process_packet no_model half_sensitivity two_buffered arp_frame
    = Ok two_buffered.
Proof.
  apply (proj1 (non_ip_packet_never_enters no_model half_sensitivity alternating)
           arp_frame two_buffered).
  reflexivity.
Defined.

(** ** From capture to store *)

Lemma built_from_well_formed packet e : built_from packet e -> well_formed e.
Proof.
  intros [_ (features & cl & co & _ & ->)].
  unfold well_formed, packet_to_log_data.
  destruct (pkt_IP packet), (pkt_TCP packet), (pkt_UDP packet);
    split; simplify_map_eq; eauto.
Qed.

(** The scenario of a TCP packet of 1400 bytes, TTL 64, with SYN, ACK, FIN
    and RST set, a sensitivity of 0.5 and a classifier that answers
    (Anomaly, 0.42): the store holds one record, Normal with confidence
    0.5800, under id 1. *)
Example end_to_end_scenario :
  exists sys e,
    Pipeline.run {| MLEngine.model := Some anomaly_042 |} half_sensitivity
      alternating (Pipeline.initial 0)
      [Pipeline.Captured syn_ack_fin_rst; Pipeline.SenderWakes 1 true]
    = Ok sys /\
    Api.get_live_logs (Pipeline.store sys) = [e] /\
    Sniffer.LIVE_PACKETS (Pipeline.sniffer sys) = [] /\
    e !! "id" = Some (VInt 1) /\
    e !! "classification" = Some (VStr "Normal") /\
    e !! "confidence" = Some (VStr "0.5800") /\
    e !! "protocol" = Some (VStr "TCP") /\
    e !! "size" = Some (VInt 1400) /\
    e !! "ml_features" = Some (VStr "[6, 1400, 64, 4]").
Proof.
  eexists _, _. split; [vm_compute; reflexivity |].
  split; [reflexivity |]. repeat split; vm_compute; reflexivity.
Qed.

(** * Further properties of the same files *)

(** ** Feature vector and log record *)

(** X1: for a packet with an IP header the vector is
    [protocol; length; ttl; count] with a count between 0 and 4, which is
    0 when there is no TCP layer. *)
Theorem extract_features_shape (packet : Packet) (ip : IPLayer) :
  pkt_IP packet = Some ip ->
  exists k,
    extract_features packet = Some [ip_proto ip; len packet; ip_ttl ip; k] /\
    0 <= k <= 4 /\
    (pkt_TCP packet = None -> k = 0).
Proof.
  intros Hip. unfold extract_features. rewrite Hip.
  destruct (pkt_TCP packet) as [tcp|].
  - eexists. split; [reflexivity |]. split; [| discriminate].
    destruct (flag_S tcp), (flag_A tcp), (flag_F tcp), (flag_R tcp);
      simpl; lia.
  - exists 0. split; [destruct (pkt_UDP packet); reflexivity |]. split; [lia | auto].
Qed.

Lemma extract_features_shape_witness :
  exists k,
    extract_features udp_dns = Some [17; 74; 128; k] /\
    0 <= k <= 4 /\ (pkt_TCP udp_dns = None -> k = 0).
Proof.
  exact (extract_features_shape udp_dns _ eq_refl).
Defined.

Lemma testbit_land_23 (f : Z) (i : Z) :
  i = 0 \/ i = 1 \/ i = 2 \/ i = 4 ->
  Z.testbit (Z.land f 23) i = Z.testbit f i.
Proof.
  intros Hi. rewrite Z.land_spec.
  destruct Hi as [-> | [-> | [-> | ->]]]; simpl; apply andb_true_r.
Qed.

(** X2: the flag count reads only the F, S, R and A bits: two TCP flag
    fields that agree on those four bits give the same vector. *)
Theorem flags_count_ignores_other_bits (packet : Packet) (f f' : Z) :
  Z.land f 23 = Z.land f' 23 ->
  extract_features (with_flags packet f)
  = extract_features (with_flags packet f').
Proof.
  intros Hmask. unfold extract_features, with_flags, len.
  cbn [pkt_IP pkt_TCP pkt_UDP pkt_bytes].
  destruct (pkt_IP packet); [| reflexivity].
  unfold flag_S, flag_A, flag_F, flag_R. cbn [tcp_flags].
  rewrite <- (testbit_land_23 f 1), <- (testbit_land_23 f 4),
          <- (testbit_land_23 f 0), <- (testbit_land_23 f 2) by tauto.
  rewrite <- (testbit_land_23 f' 1), <- (testbit_land_23 f' 4),
          <- (testbit_land_23 f' 0), <- (testbit_land_23 f' 2) by tauto.
  now rewrite Hmask.
Qed.

Lemma flags_count_ignores_other_bits_witness :
  extract_features (with_flags syn_ack_fin_rst 18)
  = extract_features (with_flags syn_ack_fin_rst 58).
Proof.
  apply (flags_count_ignores_other_bits syn_ack_fin_rst 18 58). reflexivity.
Defined.

(** X3: whatever the layers of the packet, the record has the same eight
    keys. *)
Theorem log_data_keys (packet : Packet) (classification : Z) (confidence : Q) :
  dom (packet_to_log_data packet classification confidence) = log_keys.
Proof.
  unfold packet_to_log_data, log_keys.
  destruct (pkt_IP packet), (pkt_TCP packet), (pkt_UDP packet);
    rewrite !dom_insert_L, dom_empty_L; set_solver.
Qed.

(** ** Threshold and classifier *)

(** X4: a verdict that is still Anomaly after the threshold has a
    confidence of at least the sensitivity in effect, and is the raw
    verdict. *)
Theorem reported_anomaly_meets_sensitivity (CONFIG : Sniffer.Settings)
    (label : Z) (c : Q) :
  (Sniffer.apply_threshold CONFIG label c).1 = 1 ->
  (default 0.5%Q (Sniffer.sensitivity CONFIG)
   <= (Sniffer.apply_threshold CONFIG label c).2)%Q /\
  Sniffer.apply_threshold CONFIG label c = (label, c).
Proof.
  unfold Sniffer.apply_threshold.
  destruct (label =? 1) eqn:Hl; simpl.
  - destruct (float_lt c _) eqn:Hc; simpl; [discriminate |].
    intros _. split; [now apply float_lt_false | reflexivity].
  - intros ->. discriminate.
Qed.

Lemma reported_anomaly_meets_sensitivity_witness :
  (0.5 <= (Sniffer.apply_threshold half_sensitivity 1 0.9).2)%Q /\
  Sniffer.apply_threshold half_sensitivity 1 0.9 = (1, 0.9%Q).
Proof.
  apply (reported_anomaly_meets_sensitivity half_sensitivity 1 0.9).
  reflexivity.
Defined.

(** X5: the threshold keeps a confidence within [0, 1], and applying it a
    second time changes nothing. *)
Theorem threshold_stable (CONFIG : Sniffer.Settings) (label : Z) (c : Q) :
  (0 <= c <= 1)%Q ->
  let r := Sniffer.apply_threshold CONFIG label c in
  (0 <= r.2 <= 1)%Q /\
  Sniffer.apply_threshold CONFIG r.1 r.2 = r.
Proof.
  intros Hc. unfold Sniffer.apply_threshold.
  destruct ((label =? 1) && float_lt c _) eqn:Hflip; simpl.
  - split; [exact (proj1 (float_sub_unit c Hc)) | reflexivity].
  - split; [exact Hc |]. now rewrite Hflip.
Qed.

Lemma threshold_stable_witness :
  let r := Sniffer.apply_threshold half_sensitivity 1 0.3 in
  (0 <= r.2 <= 1)%Q /\ Sniffer.apply_threshold half_sensitivity r.1 r.2 = r.
Proof.
  apply (threshold_stable half_sensitivity 1 0.3).
  unfold Qle. simpl. lia.
Defined.

Lemma index_In {A} (l : list A) (i : Z) (x : A) :
  index l i = Ok x -> In x l.
Proof.
  unfold index. destruct (_ && _); [| discriminate].
  destruct (l !! _) eqn:Hl; [| discriminate].
  intros [= <-]. apply list_elem_of_In. eapply list_elem_of_lookup_2, Hl.
Qed.

(** X6: with a model whose labels are 0 or 1 and whose probabilities lie
    in [0, 1], every prediction, the fallback included, has a label in
    {0, 1} and a confidence in [0, 1]. *)
Theorem predict_in_range (self : MLEngine.MLEngine) (features : list Z) :
  (forall m, MLEngine.model self = Some m -> binary m /\ calibrated m) ->
  exists label confidence,
    MLEngine.predict self features = Ok (label, confidence) /\
    (label = 0 \/ label = 1) /\ (0 <= confidence <= 1)%Q.
Proof.
  intros Hm. unfold MLEngine.predict.
  destruct (MLEngine.model self) as [m|].
  2: { exists 0, 0%Q. split; [reflexivity |]. split; [auto | lra]. }
  destruct (Hm m eq_refl) as [Hbin Hcal].
  destruct (MLEngine.predict_try m features) as [[l c]|e] eqn:Htry.
  2: { exists 0, 0%Q. split; [reflexivity |]. split; [auto | lra]. }
  exists l, c. split; [reflexivity |].
  unfold MLEngine.predict_try in Htry.
  destruct (MLEngine.model_predict m [features]) as [labels|] eqn:Hp;
    [| discriminate]. cbn [bind] in Htry.
  destruct (index labels 0) as [l0|] eqn:Hl0; [| discriminate].
  cbn [bind] in Htry.
  destruct (MLEngine.model_predict_proba m [features]) as [rows|] eqn:Hq;
    [| discriminate]. cbn [bind] in Htry.
  destruct (index rows 0) as [row|] eqn:Hrow; [| discriminate].
  cbn [bind] in Htry.
  destruct (index row l0) as [c0|] eqn:Hc0; [| discriminate].
  cbn [bind] in Htry. injection Htry as <- <-.
  apply index_In in Hl0, Hrow, Hc0.
  specialize (Hbin _ _ Hp). specialize (Hcal _ _ Hq).
  rewrite List.Forall_forall in Hbin, Hcal. split; [now apply Hbin |].
  specialize (Hcal _ Hrow). rewrite List.Forall_forall in Hcal.
  now apply Hcal.
Qed.

Lemma predict_in_range_witness :
  exists label confidence,
    MLEngine.predict {| MLEngine.model := Some anomaly_042 |} [6; 60; 64; 1]
      = Ok (label, confidence) /\
    (label = 0 \/ label = 1) /\ (0 <= confidence <= 1)%Q.
Proof.
  apply (predict_in_range {| MLEngine.model := Some anomaly_042 |}).
  intros m [= <-]. split.
  - intros X labels [= <-]. constructor; [right; reflexivity | constructor].
  - intros X rows [= <-]. constructor; [| constructor].
    constructor; [| constructor; [| constructor]];
      unfold Qle; simpl; lia.
Defined.

(** X7: without a model, or with a model on which the prediction raises,
    a packet with an IP header is buffered as Normal with confidence
    0.0000, whatever the sensitivity. *)
Theorem degraded_mode_logs_normal (ml_engine : MLEngine.MLEngine)
    (CONFIG : Sniffer.Settings) (st : Sniffer.State) (packet : Packet)
    (features : list Z) :
  extract_features packet = Some features ->
  (MLEngine.model ml_engine = None \/
   exists m e, MLEngine.model ml_engine = Some m /\
               MLEngine.predict_try m features = Raise e) ->
  exists st' e,
    Sniffer.process_packet ml_engine CONFIG st packet = Ok st' /\
    Sniffer.LIVE_PACKETS st' = Sniffer.LIVE_PACKETS st ++ [e] /\
    e !! "classification" = Some (VStr "Normal") /\
    e !! "confidence" = Some (VStr "0.0000").
Proof.
  intros Hf Hdeg.
  assert (Hp : MLEngine.predict ml_engine features = Ok (0, 0%Q)).
  { unfold MLEngine.predict.
    destruct Hdeg as [-> | (m & e & -> & ->)]; reflexivity. }
  unfold Sniffer.process_packet. rewrite Hf, Hp. cbn [bind fst snd].
  unfold Sniffer.apply_threshold. cbn [Z.eqb andb].
  eexists _, _. split; [reflexivity |]. split; [reflexivity |].
  rewrite !lookup_insert_ne by done.
  unfold packet_to_log_data.
  destruct (pkt_IP packet), (pkt_TCP packet), (pkt_UDP packet);
    split; by simplify_map_eq.
Qed.

Lemma degraded_mode_logs_normal_witness :
  exists st' e,
    Sniffer.process_packet no_model half_sensitivity (Sniffer.initial 0) udp_dns
      = Ok st' /\
    Sniffer.LIVE_PACKETS st' = Sniffer.LIVE_PACKETS (Sniffer.initial 0) ++ [e] /\
    e !! "classification" = Some (VStr "Normal") /\
    e !! "confidence" = Some (VStr "0.0000").
Proof.
  apply (degraded_mode_logs_normal no_model half_sensitivity
           (Sniffer.initial 0) udp_dns [17; 74; 128; 0]).
  - reflexivity.
  - left. reflexivity.
Defined.

(** ** Sniffer runs *)

Lemma ip_captures_cons ev evs :
  ip_captures (ev :: evs) = ip_captures [ev] ++ ip_captures evs.
Proof.
  unfold ip_captures. cbn [omap list_omap].
  destruct ev as [p |]; [destruct (pkt_IP p) |]; reflexivity.
Qed.

Lemma sniffer_step_accounts ml_engine CONFIG st ev :
  exists st' batches new,
    Sniffer.step ml_engine CONFIG st ev = Ok st' /\
    Sniffer.posted st' = Sniffer.posted st ++ batches /\
    Forall (fun b => b <> []) batches /\
    concat batches ++ Sniffer.LIVE_PACKETS st'
      = Sniffer.LIVE_PACKETS st ++ new /\
    Forall2 built_from (ip_captures [ev]) new.
Proof.
  destruct ev as [packet | now r]; cbn [Sniffer.step].
  - destruct (process_packet_total ml_engine CONFIG st packet)
      as (st' & new & Hrun & Hbuf & Hpost & _ & Hnone & Hsome).
    exists st', [], new. rewrite Hrun, Hpost, app_nil_r. cbn [concat app].
    do 4 (split; [done |]).
    unfold ip_captures. cbn [omap list_omap].
    destruct (pkt_IP packet) eqn:Hip.
    + destruct (Hsome (mk_is_Some _ _ eq_refl)) as (e & -> & Hb).
      constructor; [exact Hb | constructor].
    + destruct (Hnone eq_refl) as [-> _]. constructor.
  - unfold Sniffer.send_traffic_batch.
    destruct (Sniffer.LIVE_PACKETS st) as [| e buf] eqn:Hbuf.
    + exists st, [], []. rewrite Hbuf, !app_nil_r.
      repeat split; constructor.
    + eexists _, [e :: buf], []. split; [reflexivity |].
      split; [destruct r; reflexivity |].
      split; [repeat constructor; discriminate |].
      split; [destruct r; cbn; now rewrite !app_nil_r | constructor].
Qed.

(** X8: in every run of the sniffer, each captured packet with an IP
    header yields exactly one record, in capture order; the batches posted
    during the run followed by the buffer are the old buffer followed by
    those records, so no record is duplicated, reordered or posted twice;
    and no empty batch is posted. *)
Theorem sniffer_accounts_for_every_record (ml_engine : MLEngine.MLEngine)
    (CONFIG : Sniffer.Settings) (evs : list Sniffer.event)
    (st : Sniffer.State) :
  exists st' batches new,
    Sniffer.run ml_engine CONFIG st evs = Ok st' /\
    Sniffer.posted st' = Sniffer.posted st ++ batches /\
    Forall (fun b => b <> []) batches /\
    concat batches ++ Sniffer.LIVE_PACKETS st'
      = Sniffer.LIVE_PACKETS st ++ new /\
    Forall2 built_from (ip_captures evs) new.
Proof.
  revert st. induction evs as [| ev evs IH]; intros st.
  - exists st, [], []. rewrite !app_nil_r. repeat split; constructor.
  - destruct (sniffer_step_accounts ml_engine CONFIG st ev)
      as (st1 & b1 & n1 & Hstep & Hpost1 & Hne1 & Hacc1 & Hnew1).
    destruct (IH st1) as (st2 & b2 & n2 & Hrun & Hpost2 & Hne2 & Hacc2 & Hnew2).
    exists st2, (b1 ++ b2), (n1 ++ n2). cbn [Sniffer.run].
    rewrite Hstep. cbn [bind]. split; [exact Hrun |].
    split; [rewrite Hpost2, Hpost1; now rewrite app_assoc |].
    split; [now apply Forall_app |].
    split.
    + rewrite concat_app, <- app_assoc, Hacc2, app_assoc, Hacc1.
      now rewrite <- app_assoc.
    + rewrite ip_captures_cons. now apply Forall2_app.
Qed.

(** X9: when settings.json is missing or cannot be read, the sniffer
    posts to 127.0.0.1:5000 and thresholds at 0.5; a file that lacks the
    sensitivity key also thresholds at 0.5. *)
Theorem settings_fall_back (f : SnifferConfig.settings_file)
    (label : Z) (c : Q) :
  ((forall s, f <> SnifferConfig.Loaded s) \/
   f = SnifferConfig.Loaded SnifferConfig.no_settings ->
   SnifferConfig.API_URL (SnifferConfig.load_settings f)
     = "http://127.0.0.1:5000/api/traffic/ingest"%string) /\
  (Sniffer.sensitivity (SnifferConfig.load_settings f) = None \/
   (forall s, f <> SnifferConfig.Loaded s) ->
   Sniffer.apply_threshold (SnifferConfig.load_settings f) label c
     = Sniffer.apply_threshold half_sensitivity label c).
Proof.
  split.
  - intros [Hno | ->]; [| reflexivity].
    destruct f as [| | s]; [reflexivity | reflexivity |].
    now destruct (Hno s).
  - intros [Hnone | Hno].
    + unfold Sniffer.apply_threshold. now rewrite Hnone.
    + destruct f as [| | s]; [reflexivity | reflexivity |].
      now destruct (Hno s).
Qed.

Lemma settings_fall_back_witness :
  SnifferConfig.API_URL (SnifferConfig.load_settings SnifferConfig.Unreadable)
    = "http://127.0.0.1:5000/api/traffic/ingest"%string /\
  Sniffer.apply_threshold
    (SnifferConfig.load_settings SnifferConfig.NotFound) 1 0.3
    = Sniffer.apply_threshold half_sensitivity 1 0.3.
Proof.
  split.
  - apply (proj1 (settings_fall_back SnifferConfig.Unreadable 1 0.3)).
    left. discriminate.
  - apply (proj2 (settings_fall_back SnifferConfig.NotFound 1 0.3)).
    right. discriminate.
Defined.

(** ** Ingestion on arbitrary requests *)

Section ApiInvariants.

Variable rnd : Api.Random.

Lemma maybe_alert_cases e st o st' :
  Api.maybe_alert rnd e st = (o, st') ->
  Api.LIVE_PACKET_LOG st' = Api.LIVE_PACKET_LOG st /\
  Api.LAST_PACKET_ID st' = Api.LAST_PACKET_ID st /\
  match o with
  | Ok _ =>
      Api.ALERT_HISTORY st' = Api.ALERT_HISTORY st \/
      exists a,
        Api.ALERT_HISTORY st' = Api.ALERT_HISTORY st ++ [a] /\
        Api.alert_id a = Z.of_nat (length (Api.ALERT_HISTORY st)) + 1 /\
        Api.packet_id a = Api.LAST_PACKET_ID st
  | Raise ex =>
      Api.ALERT_HISTORY st' = Api.ALERT_HISTORY st /\
      (ex = KeyError "timestamp" \/ ex = KeyError "src_ip")
  end.
Proof.
  unfold Api.maybe_alert, getitem. intros H.
  destruct (float_lt _ _).
  - destruct (e !! "timestamp"); [destruct (e !! "src_ip") |];
      inversion H; subst; cbn; repeat split; eauto.
  - inversion H; subst; cbn. repeat split. now left.
Qed.

Lemma ingest_logs_prefix logs ids st o st' :
  Api.ingest_logs rnd logs ids st = (o, st') ->
  exists k,
    (k <= length logs)%nat /\
    Api.LAST_PACKET_ID st' = Api.LAST_PACKET_ID st + Z.of_nat k /\
    Api.LIVE_PACKET_LOG st'
      = Api.LIVE_PACKET_LOG st ++ stamp (Api.LAST_PACKET_ID st) (take k logs) /\
    match o with
    | Ok _ => k = length logs
    | Raise ex =>
        (0 < k)%nat /\ (ex = KeyError "timestamp" \/ ex = KeyError "src_ip")
    end.
Proof.
  revert ids st. induction logs as [| e logs IH]; intros ids st H.
  - inversion H; subst. exists 0%nat. cbn. rewrite app_nil_r.
    repeat split; lia.
  - cbn [Api.ingest_logs Api.assign_id] in H.
    destruct (Api.maybe_alert rnd _ _) as [[[] | ex] st1] eqn:Hm;
      apply maybe_alert_cases in Hm; destruct Hm as (Hlog & Hlast & Hal);
      cbn [Api.LIVE_PACKET_LOG Api.LAST_PACKET_ID] in Hlog, Hlast.
    + apply IH in H. destruct H as (k & Hk & Hlast' & Hlog' & Ho).
      exists (S k). cbn [length take stamp].
      rewrite Hlast', Hlog', Hlog, !Hlast, <- app_assoc. cbn [app].
      split; [lia |]. split; [lia |]. split; [reflexivity |].
      destruct o; [lia |]. destruct Ho as [_ Hex]. split; [lia | exact Hex].
    + inversion H; subst. exists 1%nat. cbn [length take stamp].
      rewrite Hlast, Hlog. split; [lia |]. split; [lia |].
      split; [reflexivity |]. split; [lia | apply Hal].
Qed.

End ApiInvariants.

(** X10: a batch that fails is answered 400 because a record lacks the
    timestamp or src_ip key, and it is not rolled back: the records up to
    and including the failing one keep their ids and stay in the log, the
    counter has moved past them, and the window is not truncated. *)
Theorem failed_batch_not_rolled_back (rnd : Api.Random)
    (logs : list (gmap string value)) (st : Api.State) (ex : exn) :
  (Api.ingest_packet rnd (Api.Logs logs) st).1 = Api.IngestionFailed ex ->
  let st' := (Api.ingest_packet rnd (Api.Logs logs) st).2 in
  (ex = KeyError "timestamp" \/ ex = KeyError "src_ip") /\
  exists k,
    (0 < k <= length logs)%nat /\
    Api.LAST_PACKET_ID st' = Api.LAST_PACKET_ID st + Z.of_nat k /\
    Api.LIVE_PACKET_LOG st'
      = Api.LIVE_PACKET_LOG st ++ stamp (Api.LAST_PACKET_ID st) (take k logs).
Proof.
  unfold Api.ingest_packet.
  destruct (Api.ingest_logs rnd logs [] st) as [[ids | ex'] st1] eqn:Hl;
    cbn [fst snd]; [discriminate |].
  intros [= ->]. apply ingest_logs_prefix in Hl.
  destruct Hl as (k & Hk & Hlast & Hlog & Hpos & Hex).
  split; [exact Hex |]. exists k. repeat split; try assumption; lia.
Qed.

Lemma failed_batch_not_rolled_back_witness :
  let st' := (Api.ingest_packet alternating
                (Api.Logs [bare_record; bare_record]) Api.initial).2 in
  exists k,
    (0 < k <= 2)%nat /\
    Api.LAST_PACKET_ID st' = 0 + Z.of_nat k /\
    Api.LIVE_PACKET_LOG st'
      = [] ++ stamp 0 (take k [bare_record; bare_record]).
Proof.
  exact (proj2 (failed_batch_not_rolled_back alternating
                  [bare_record; bare_record] Api.initial
                  (KeyError "timestamp") eq_refl)).
Defined.

(** X11: after any request that is answered 201, whatever the body and
    the state before, the log holds at most 50 records. *)
Theorem accepted_request_bounds_window (rnd : Api.Random) (data : Api.body)
    (st : Api.State) :
  Api.status_code (Api.ingest_packet rnd data st).1 = 201 ->
  (length (Api.get_live_logs (Api.ingest_packet rnd data st).2) <= 50)%nat.
Proof.
  unfold Api.ingest_packet, Api.get_live_logs.
  destruct data as [logs | e].
  - destruct (Api.ingest_logs rnd logs [] st) as [[ids | ex] st1];
      cbn; [intros _ | discriminate]. apply length_last_n.
  - destruct (e !! "logs") as [[| | | | []] |]; cbn; try discriminate.
    + intros _. apply length_last_n.
    + destruct (Api.maybe_alert rnd _ _) as [[[] | ex] st1] eqn:Hm;
        cbn; [intros _ | discriminate].
      apply maybe_alert_cases in Hm. destruct Hm as (-> & _).
      apply length_last_n.
Qed.

Lemma accepted_request_bounds_window_witness :
  (length (Api.get_live_logs
             (Api.ingest_packet alternating
                (Api.Logs (repeat sample_record 70)) Api.initial).2)
   <= 50)%nat.
Proof.
  apply (accepted_request_bounds_window alternating
           (Api.Logs (repeat sample_record 70)) Api.initial).
  vm_compute. reflexivity.
Defined.

Lemma sorted_by_lookup {A} (R : A -> A -> Prop) (l : list A) :
  (forall (i j : nat) x y,
     l !! i = Some x -> l !! j = Some y -> (i < j)%nat -> R x y) ->
  StronglySorted R l.
Proof.
  induction l as [| a l IH]; intros H; constructor.
  - apply IH. intros i j x y Hi Hj Hlt. apply (H (S i) (S j)); auto. lia.
  - apply List.Forall_forall. intros y Hy.
    apply list_elem_of_In, list_elem_of_lookup in Hy as [j Hj].
    apply (H 0%nat (S j)); auto. lia.
Qed.

Lemma ids_in_order_extend st st' recs :
  ids_in_order st ->
  Api.LIVE_PACKET_LOG st'
    = Api.LIVE_PACKET_LOG st ++ stamp (Api.LAST_PACKET_ID st) recs ->
  Api.LAST_PACKET_ID st' = Api.LAST_PACKET_ID st + Z.of_nat (length recs) ->
  ids_in_order st'.
Proof.
  intros (Hpos & ids & Hmap & Hsorted & Hbound) Hlog Hlast.
  split; [lia |].
  exists (ids ++ seqZ (Api.LAST_PACKET_ID st + 1) (Z.of_nat (length recs))).
  rewrite Hlog, !map_app, Hmap, stamp_ids. split; [reflexivity |].
  rewrite List.Forall_forall in Hbound. split.
  - apply StronglySorted_app_2; [| exact Hsorted |].
    + intros x1 x2 Hx1 Hx2. apply list_elem_of_In, Hbound in Hx1.
      apply elem_of_seqZ in Hx2. lia.
    + apply sorted_by_lookup. intros i j x y. apply seqZ_increasing.
  - apply Forall_app. split.
    + apply List.Forall_forall. intros x Hx. apply Hbound in Hx. lia.
    + apply Forall_seqZ. intros x Hx. lia.
Qed.

Lemma ids_in_order_drop st st' n :
  ids_in_order st ->
  Api.LIVE_PACKET_LOG st' = drop n (Api.LIVE_PACKET_LOG st) ->
  Api.LAST_PACKET_ID st <= Api.LAST_PACKET_ID st' ->
  ids_in_order st'.
Proof.
  intros (Hpos & ids & Hmap & Hsorted & Hbound) Hlog Hlast.
  split; [lia |]. exists (drop n ids).
  rewrite Hlog, <- !skipn_map, Hmap. split; [reflexivity |]. split.
  - rewrite <- (take_drop n ids) in Hsorted.
    now apply StronglySorted_app_1_r in Hsorted.
  - apply Forall_drop. eapply Forall_impl; [exact Hbound |].
    intros x Hx. simpl in Hx. lia.
Qed.

Lemma ids_in_order_ingest rnd data st :
  ids_in_order st -> ids_in_order (Api.ingest_packet rnd data st).2.
Proof.
  intros Hinv. unfold Api.ingest_packet. destruct data as [logs | e].
  - destruct (Api.ingest_logs rnd logs [] st) as [o st1] eqn:Hl.
    apply ingest_logs_prefix in Hl.
    destruct Hl as (k & Hk & Hlast & Hlog & _).
    assert (Hst1 : ids_in_order st1).
    { apply (ids_in_order_extend st st1 (take k logs) Hinv Hlog).
      rewrite length_take. rewrite Hlast. lia. }
    destruct o; cbn [snd]; [| exact Hst1].
    eapply ids_in_order_drop; [exact Hst1 | reflexivity | cbn; lia].
  - destruct (e !! "logs") as [[| | | | []] |]; cbn [Api.ingest_scalar snd];
      try exact Hinv.
    + eapply ids_in_order_drop; [exact Hinv | reflexivity | cbn; lia].
    + apply (ids_in_order_drop st _ 0 Hinv); cbn; [reflexivity | lia].
    + cbn [Api.assign_id].
      destruct (Api.maybe_alert rnd _ _) as [o st1] eqn:Hm.
      apply maybe_alert_cases in Hm. destruct Hm as (Hlog & Hlast & _).
      assert (ids_in_order st1); [| destruct o as [[] |]; assumption].
      cbn [Api.truncate Api.LIVE_PACKET_LOG Api.LAST_PACKET_ID] in Hlog, Hlast.
      eapply (ids_in_order_drop
                {| Api.LIVE_PACKET_LOG := Api.LIVE_PACKET_LOG st
                     ++ stamp (Api.LAST_PACKET_ID st) [e];
                   Api.ALERT_HISTORY := Api.ALERT_HISTORY st;
                   Api.LAST_PACKET_ID := Api.LAST_PACKET_ID st + 1;
                   Api.rng_calls := Api.rng_calls st |});
        [| exact Hlog | cbn; lia].
      apply (ids_in_order_extend st _ [e] Hinv); reflexivity.
Qed.

Lemma ids_in_order_serve rnd reqs st :
  ids_in_order st -> ids_in_order (Server.serve_all rnd reqs st).
Proof.
  revert st. induction reqs as [| req reqs IH]; intros st Hinv; [exact Hinv |].
  apply IH. destruct req as [data | data]; cbn.
  - now apply ids_in_order_ingest.
  - exact Hinv.
Qed.

(** X12: after any sequence of ingestion and alert requests, well formed
    or not, the ids of the retained records are strictly increasing
    integers between 1 and the id counter, so no id is shared or reused. *)
Theorem retained_ids_strictly_increase (rnd : Api.Random)
    (reqs : list Server.request) :
  ids_in_order (Server.serve_all rnd reqs Api.initial).
Proof.
  apply ids_in_order_serve. split; [reflexivity |].
  exists []. repeat split; constructor.
Qed.

(** ** Lookup by id *)

Lemma has_id_stamped i j e :
  ApiReads.has_id i (<["id" := VInt j]> e) = (i =? j).
Proof. unfold ApiReads.has_id. now rewrite lookup_insert_eq. Qed.

Lemma find_stamp i recs : forall m,
  List.find (ApiReads.has_id i) (stamp m recs)
  = (if (m <? i) && (i <=? m + Z.of_nat (length recs))
     then (fun e => <["id" := VInt i]> e) <$> (recs !! Z.to_nat (i - m - 1))
     else None).
Proof.
  induction recs as [| e recs IH]; intros m; cbn [stamp List.find length].
  - destruct (_ && _); [| reflexivity]. now rewrite lookup_nil.
  - rewrite has_id_stamped. destruct (Z.eqb_spec i (m + 1)) as [-> | Hne].
    + replace (m + 1 - m - 1) with 0 by lia.
      replace ((m <? m + 1) && (m + 1 <=? m + Z.of_nat (S (length recs))))
        with true; [reflexivity |].
      symmetry. apply andb_true_intro. split; [apply Z.ltb_lt | apply Z.leb_le]; lia.
    + rewrite IH.
      destruct (Z.ltb_spec (m + 1) i) as [Hlt | Hge].
      * replace (m <? i) with true by (symmetry; apply Z.ltb_lt; lia).
        replace (m + Z.of_nat (S (length recs)))
          with (m + 1 + Z.of_nat (length recs)) by lia.
        cbn [andb]. destruct (_ <=? _); [| reflexivity].
        replace (Z.to_nat (i - m - 1)) with (S (Z.to_nat (i - (m + 1) - 1)))
          by lia.
        reflexivity.
      * replace (m <? i) with false by (symmetry; apply Z.ltb_ge; lia).
        reflexivity.
Qed.

Lemma drop_stamp d : forall m recs,
  drop d (stamp m recs) = stamp (m + Z.of_nat d) (drop d recs).
Proof.
  induction d as [| d IH]; intros m recs.
  - cbn. now rewrite Z.add_0_r.
  - destruct recs as [| e recs]; [reflexivity |].
    cbn [stamp drop]. rewrite IH. f_equal. lia.
Qed.

(** X13: after any run of well-formed ingestion requests on the empty
    store, with n records received in all, looking up id i returns the
    i-th record received, carrying id i, exactly when i is among the last
    50 ids (n - 50 < i <= n, i >= 1); every other id, evicted or never
    assigned, is not found and the details endpoint answers 404. *)
Theorem lookup_by_id_in_window (rnd : Api.Random) (reqs : list Api.body)
    (i : Z) :
  Forall well_formed_body reqs ->
  let all := concat (map records_of reqs) in
  let n := Z.of_nat (length all) in
  let st := (Api.ingest_all rnd reqs Api.initial).2 in
  (Z.max 0 (n - 50) < i <= n ->
   exists e,
     all !! Z.to_nat (i - 1) = Some e /\
     ApiReads.get_packet_by_id i st = Some (<["id" := VInt i]> e) /\
     ApiReads.get_packet_details i st = (200, Some (<["id" := VInt i]> e))) /\
  (i <= Z.max 0 (n - 50) \/ n < i ->
   ApiReads.get_packet_by_id i st = None /\
   ApiReads.get_packet_details i st = (404, None)).
Proof.
  intros Hwf all n st.
  destruct (ingest_all_ok rnd reqs Api.initial Hwf) as (_ & _ & Hlog).
  { cbn. unfold Api.MAX_LIVE_PACKETS. lia. }
  fold all in Hlog. fold st in Hlog. cbn [Api.initial Api.LIVE_PACKET_LOG
    Api.LAST_PACKET_ID app] in Hlog.
  unfold last_n, Api.MAX_LIVE_PACKETS in Hlog.
  rewrite length_stamp, drop_stamp in Hlog.
  set (d := (length all - 50)%nat) in Hlog.
  assert (Hd : Z.of_nat d = Z.max 0 (n - 50)) by (unfold d, n; lia).
  assert (Hfind : ApiReads.get_packet_by_id i st
                  = (if (Z.of_nat d <? i) && (i <=? n)
                     then (fun e => <["id" := VInt i]> e)
                            <$> (all !! Z.to_nat (i - 1))
                     else None)).
  { unfold ApiReads.get_packet_by_id. rewrite Hlog, find_stamp.
    rewrite length_drop.
    replace (0 + Z.of_nat d + Z.of_nat (length all - d)) with n
      by (unfold d, n; lia).
    replace (0 + Z.of_nat d <? i) with (Z.of_nat d <? i) by (f_equal; lia).
    destruct (Z.ltb_spec (Z.of_nat d) i); [| reflexivity].
    cbn [andb]. destruct (i <=? n); [| reflexivity].
    rewrite lookup_drop. do 2 f_equal. lia. }
  unfold ApiReads.get_packet_details. rewrite Hfind. split.
  - intros [Hlo Hhi].
    replace (Z.of_nat d <? i) with true by (symmetry; apply Z.ltb_lt; lia).
    replace (i <=? n) with true by (symmetry; apply Z.leb_le; lia).
    cbn [andb].
    destruct (all !! Z.to_nat (i - 1)) as [e |] eqn:He.
    + exists e. cbn. split; [reflexivity |]. split; [reflexivity |].
      destruct (Nat.eqb_spec (size (<["id" := VInt i]> e)) 0) as [Hz |];
        [| reflexivity].
      apply map_size_empty_iff in Hz. now apply insert_non_empty in Hz.
    + apply lookup_ge_None in He. unfold n in Hhi. lia.
  - intros Hout.
    replace ((Z.of_nat d <? i) && (i <=? n)) with false; [split; reflexivity |].
    symmetry. apply andb_false_iff.
    destruct Hout; [left; apply Z.ltb_ge | right; apply Z.leb_gt]; lia.
Qed.

Lemma lookup_by_id_in_window_witness :
  let st := (Api.ingest_all alternating
               (repeat (Api.PacketData sample_record) 60) Api.initial).2 in
  ApiReads.get_packet_by_id 5 st = None /\
  ApiReads.get_packet_details 5 st = (404, None).
Proof.
  apply (proj2 (lookup_by_id_in_window alternating
                  (repeat (Api.PacketData sample_record) 60) 5
                  ltac:(apply List.Forall_forall; intros data Hin;
                        apply repeat_spec in Hin; subst data;
                        repeat split; eexists; reflexivity))).
  left. vm_compute. discriminate.
Defined.

(** ** Alerts over arbitrary requests *)

Section AlertInvariants.

Variable rnd : Api.Random.

Lemma alerts_numbered_frame st st' :
  alerts_numbered st ->
  Api.ALERT_HISTORY st' = Api.ALERT_HISTORY st ->
  Api.LAST_PACKET_ID st <= Api.LAST_PACKET_ID st' ->
  alerts_numbered st'.
Proof.
  intros (Hpos & Hids & Hpk) Hal Hlast. rewrite <- Hal in Hids, Hpk.
  split; [lia |]. split; [exact Hids |].
  eapply Forall_impl; [exact Hpk |]. intros a Ha. simpl in Ha. lia.
Qed.

Lemma seqZ_one (m : Z) : seqZ m 1 = [m].
Proof. unfold seqZ; cbn; f_equal; lia. Qed.

Lemma alerts_numbered_maybe_alert e st o st' :
  alerts_numbered st ->
  0 < Api.LAST_PACKET_ID st ->
  Api.maybe_alert rnd e st = (o, st') ->
  alerts_numbered st'.
Proof.
  intros Hinv Hlast Hm. apply maybe_alert_cases in Hm.
  destruct Hm as (_ & Hlast' & Ho).
  destruct o as [[] | ex].
  - destruct Ho as [Hsame | (a & Happ & Hid & Hpk)].
    + apply (alerts_numbered_frame st); [exact Hinv | exact Hsame | lia].
    + destruct Hinv as (Hpos & Hids & Hpks).
      split; [lia |]. rewrite Happ, map_app, length_app, Hids. cbn [length map].
      rewrite Nat2Z.inj_add, seqZ_app by lia. cbn [Z.of_nat Pos.of_succ_nat].
      split.
      { change (Z.of_nat 1) with 1. rewrite seqZ_one, Hid.
        do 2 f_equal. lia. }
      apply Forall_app. split.
      * eapply Forall_impl; [exact Hpks |]. intros b Hb. simpl in Hb. lia.
      * constructor; [lia | constructor].
  - destruct Ho as [Hsame _].
    apply (alerts_numbered_frame st); [exact Hinv | exact Hsame | lia].
Qed.

Lemma alerts_numbered_ingest_logs logs : forall ids st o st',
  alerts_numbered st ->
  Api.ingest_logs rnd logs ids st = (o, st') ->
  alerts_numbered st'.
Proof.
  induction logs as [| e logs IH]; intros ids st o st' Hinv H.
  - now inversion H; subst.
  - cbn [Api.ingest_logs Api.assign_id] in H.
    destruct (Api.maybe_alert rnd _ _) as [o1 st1] eqn:Hm.
    apply alerts_numbered_maybe_alert in Hm.
    + destruct o1 as [[] | ex]; [eapply IH; eassumption |].
      now inversion H; subst.
    + apply (alerts_numbered_frame st); [exact Hinv | reflexivity | cbn; lia].
    + cbn. destruct Hinv as (Hpos & _). lia.
Qed.

Lemma alerts_numbered_ingest data st :
  alerts_numbered st -> alerts_numbered (Api.ingest_packet rnd data st).2.
Proof.
  intros Hinv. unfold Api.ingest_packet. destruct data as [logs | e].
  - destruct (Api.ingest_logs rnd logs [] st) as [o st1] eqn:Hl.
    apply alerts_numbered_ingest_logs in Hl; [| exact Hinv].
    destruct o; cbn [snd]; [| exact Hl].
    apply (alerts_numbered_frame st1); [exact Hl | reflexivity | cbn; lia].
  - destruct (e !! "logs") as [[| | | | []] |]; cbn [Api.ingest_scalar snd];
      try exact Hinv;
      try (apply (alerts_numbered_frame st);
           [exact Hinv | reflexivity | cbn; lia]).
    cbn [Api.assign_id].
    destruct (Api.maybe_alert rnd _ _) as [o st1] eqn:Hm.
    apply alerts_numbered_maybe_alert in Hm.
    + destruct o as [[] |]; exact Hm.
    + apply (alerts_numbered_frame st); [exact Hinv | reflexivity | cbn; lia].
    + cbn. destruct Hinv as (Hpos & _). lia.
Qed.

Lemma mark_processed_Forall (P : Api.Alert -> Prop) id alerts :
  (forall a, P a -> P (processed a)) ->
  Forall P alerts -> Forall P (Api.mark_processed id alerts).
Proof.
  intros Hp. induction 1 as [| a l Ha Hl IH]; cbn [Api.mark_processed].
  - constructor.
  - destruct (int_eq _ _); constructor; auto. now apply Hp in Ha.
Qed.

Lemma alerts_numbered_action data st :
  alerts_numbered st -> alerts_numbered (Api.handle_alert_action data st).2.
Proof.
  intros (Hpos & Hids & Hpk). split; [exact Hpos |]. cbn. split.
  - rewrite mark_processed_ids, Hids. f_equal.
    rewrite <- (length_map Api.alert_id (Api.mark_processed _ _)).
    now rewrite mark_processed_ids, length_map.
  - now apply mark_processed_Forall.
Qed.

Lemma alerts_numbered_serve reqs st :
  alerts_numbered st -> alerts_numbered (Server.serve_all rnd reqs st).
Proof.
  revert st. induction reqs as [| req reqs IH]; intros st Hinv; [exact Hinv |].
  apply IH. destruct req as [data | data]; cbn.
  - now apply alerts_numbered_ingest.
  - now apply alerts_numbered_action.
Qed.

Lemma mark_processed_lookup id alerts (i : nat) a :
  alerts !! i = Some a ->
  exists a', Api.mark_processed id alerts !! i = Some a' /\ aged a a'.
Proof.
  revert i. induction alerts as [| b l IH]; intros i Hi; [discriminate |].
  cbn [Api.mark_processed]. destruct (int_eq _ _).
  - destruct i as [| i]; cbn in *.
    + injection Hi as ->. eexists. split; [reflexivity | now right].
    + exists a. split; [exact Hi | now left].
  - destruct i as [| i]; cbn in *.
    + exists a. split; [exact Hi | now left].
    + now apply IH.
Qed.

Lemma aged_trans a b c : aged a b -> aged b c -> aged a c.
Proof. intros [-> | ->] [-> | ->]; unfold aged; auto. Qed.

Lemma serve_ages req st (i : nat) a :
  Api.ALERT_HISTORY st !! i = Some a ->
  exists a', Api.ALERT_HISTORY (Server.serve rnd st req) !! i = Some a' /\
             aged a a'.
Proof.
  intros Hi. destruct req as [data | data]; cbn [Server.serve].
  - destruct (ingest_packet_alerts rnd data st) as (new & -> & _).
    exists a. split; [| now left]. now apply lookup_app_l_Some.
  - cbn. now apply mark_processed_lookup.
Qed.

End AlertInvariants.

(** X14: after any sequence of ingestion and alert requests, alert ids
    are 1, 2, 3, ... in insertion order, and every alert refers to a
    packet id between 1 and the id counter. *)
Theorem alert_ids_are_positions (rnd : Api.Random)
    (reqs : list Server.request) :
  alerts_numbered (Server.serve_all rnd reqs Api.initial).
Proof.
  apply alerts_numbered_serve. split; [reflexivity |].
  split; [reflexivity | constructor].
Qed.

(** X15: no request removes or moves an alert, and the only change an
    alert undergoes is its status becoming Processed: what is at position
    i stays there, either as it was or marked Processed. *)
Theorem alerts_only_age (rnd : Api.Random) (reqs : list Server.request)
    (st : Api.State) (i : nat) (a : Api.Alert) :
  Api.ALERT_HISTORY st !! i = Some a ->
  exists a',
    Api.ALERT_HISTORY (Server.serve_all rnd reqs st) !! i = Some a' /\
    aged a a'.
Proof.
  revert st a. induction reqs as [| req reqs IH]; intros st a Hi.
  - exists a. split; [exact Hi | now left].
  - destruct (serve_ages rnd req st i a Hi) as (b & Hb & Hab).
    destruct (IH _ _ Hb) as (c & Hc & Hbc).
    exists c. split; [exact Hc | eapply aged_trans; eassumption].
Qed.

Lemma alerts_only_age_witness :
  exists a',
    Api.ALERT_HISTORY
      (Server.serve_all alternating
         [Server.AlertAction (act_on 2);
          Server.Ingest (Api.PacketData sample_record)] two_alerts)
      !! 1%nat = Some a' /\
    aged alert_2 a'.
Proof.
  apply (alerts_only_age alternating _ two_alerts 1 alert_2). reflexivity.
Defined.

Lemma int_eq_unique x y v : int_eq x v = true -> int_eq y v = true -> x = y.
Proof.
  destruct v as [| b | n | q | s]; cbn; try discriminate.
  - intros Hx Hy. apply Z.eqb_eq in Hx, Hy. congruence.
  - intros Hx Hy. apply Z.eqb_eq in Hx, Hy. congruence.
  - intros Hx Hy. apply Qeq_bool_eq in Hx, Hy.
    rewrite <- Hy in Hx. unfold Qeq in Hx. cbn in Hx. lia.
Qed.

Lemma mark_processed_matching id alerts :
  NoDup (map Api.alert_id alerts) ->
  forall a, In a (Api.mark_processed id alerts) ->
            int_eq (Api.alert_id a) id = true ->
            Api.status a = "Processed"%string.
Proof.
  induction alerts as [| b l IH]; intros Hnd a Hin Ha; [destruct Hin |].
  cbn [map] in Hnd. apply NoDup_cons in Hnd as [Hb Hnd].
  cbn [Api.mark_processed] in Hin.
  destruct (int_eq (Api.alert_id b) id) eqn:Hbid.
  - destruct Hin as [<- | Hin]; [reflexivity |].
    exfalso. apply Hb. rewrite (int_eq_unique _ _ _ Hbid Ha).
    apply list_elem_of_In, in_map, Hin.
  - destruct Hin as [<- | Hin]; [congruence |]. now apply IH.
Qed.

(** X16: after any sequence of requests, an alert action leaves no alert
    with the requested id in the returned history, whatever the status of
    that alert before. *)
Theorem dismissed_alert_leaves_history (rnd : Api.Random)
    (reqs : list Server.request) (data : Api.action) (a : Api.Alert) :
  let st := Server.serve_all rnd reqs Api.initial in
  In a (Api.get_alert_history (Api.handle_alert_action data st).2) ->
  int_eq (Api.alert_id a) (Api.act_alert_id data) = false.
Proof.
  intros st Hin.
  destruct (alerts_numbered_serve rnd reqs Api.initial) as (_ & Hids & _).
  { split; [reflexivity |]. split; [reflexivity | constructor]. }
  fold st in Hids.
  unfold Api.get_alert_history in Hin. cbn in Hin.
  apply list_elem_of_In, list_elem_of_filter in Hin as [Hnew Hin].
  destruct (int_eq (Api.alert_id a) (Api.act_alert_id data)) eqn:Ha;
    [| reflexivity].
  apply list_elem_of_In in Hin.
  apply mark_processed_matching in Hin; [| | exact Ha].
  - congruence.
  - rewrite Hids. apply NoDup_seqZ.
Qed.


Lemma dismissed_alert_leaves_history_witness :
  let st := Server.serve_all alternating three_ingests Api.initial in
  map Api.alert_id (Api.get_alert_history st) = [1; 2; 3] /\
  map Api.alert_id
    (Api.get_alert_history (Api.handle_alert_action (act_on 2) st).2)
    = [1; 3] /\
  int_eq (Api.alert_id first_alert) (Api.act_alert_id (act_on 2)) = false.
Proof.
  split; [vm_compute; reflexivity |]. split; [vm_compute; reflexivity |].
  apply (dismissed_alert_leaves_history alternating three_ingests (act_on 2)
           first_alert).
  vm_compute. left. reflexivity.
Defined.

(** ** From capture to store, in order *)

Section PipelineOrder.

Variable ml_engine : MLEngine.MLEngine.
Variable CONFIG : Sniffer.Settings.
Variable rnd : Api.Random.

Lemma ip_packets_cons ev evs :
  ip_packets (ev :: evs) = ip_packets [ev] ++ ip_packets evs.
Proof.
  unfold ip_packets, Pipeline.captured. cbn [omap list_omap].
  destruct ev as [p |]; [| reflexivity].
  cbn [app]. rewrite !filter_cons, filter_nil.
  destruct (decide _); reflexivity.
Qed.

Lemma post_accepts_well_formed batch reachable api delivered :
  Forall well_formed batch ->
  Api.LIVE_PACKET_LOG api = last_n 50 (stamp 0 delivered) ->
  Api.LAST_PACKET_ID api = Z.of_nat (length delivered) ->
  let r := Pipeline.post rnd batch reachable api in
  if reachable
  then r.1 = Sniffer.Delivered /\
       Api.LIVE_PACKET_LOG r.2 = last_n 50 (stamp 0 (delivered ++ batch)) /\
       Api.LAST_PACKET_ID r.2 = Z.of_nat (length (delivered ++ batch))
  else r = (Sniffer.Failed, api).
Proof.
  intros Hwf Hlog Hlast. unfold Pipeline.post.
  destruct reachable; [| reflexivity].
  pose proof (ingest_packet_ok rnd (Api.Logs batch) api Hwf) as Hok.
  cbn zeta in Hok. cbn [records_of] in Hok.
  destruct (Api.ingest_packet rnd (Api.Logs batch) api) as [resp api'].
  cbn [fst snd] in *. destruct Hok as (_ & Hcode & Hlast' & Hlog').
  rewrite Hcode. split; [reflexivity |].
  rewrite Hlog', Hlast', Hlog, Hlast, length_app, stamp_app.
  unfold Api.MAX_LIVE_PACKETS. rewrite last_n_app_absorb.
  split; [reflexivity | lia].
Qed.

Lemma step_linked ips complete sys new delivered ev :
  linked ips complete sys new delivered ->
  exists sys' new' delivered',
    Pipeline.step ml_engine CONFIG rnd sys ev = Ok sys' /\
    linked (ips ++ ip_packets [ev]) (complete /\ reachable_event ev)
      sys' new' delivered'.
Proof.
  intros (Hbuilt & Hlog & Hlast & Hsub & Hwf & Hall).
  destruct ev as [packet | now reachable]; cbn [Pipeline.step].
  - destruct (process_packet_total ml_engine CONFIG (Pipeline.sniffer sys)
                packet) as (st' & fresh & Hrun & Hbuf & _ & _ & Hnone & Hsome).
    rewrite Hrun. cbn [bind].
    exists {| Pipeline.sniffer := st'; Pipeline.store := Pipeline.store sys |},
           (new ++ fresh), delivered.
    split; [reflexivity |].
    unfold linked. cbn [Pipeline.sniffer Pipeline.store].
    rewrite Hbuf, app_assoc.
    assert (Hfresh : Forall2 built_from (ip_packets [Pipeline.Captured packet])
                       fresh).
    { unfold ip_packets, Pipeline.captured. cbn [omap list_omap].
      rewrite filter_cons, filter_nil.
      destruct (decide (is_Some (pkt_IP packet))) as [Hip | Hip].
      - destruct (Hsome Hip) as (e & -> & Hb).
        constructor; [exact Hb | constructor].
      - destruct (pkt_IP packet) eqn:E; [exfalso; apply Hip; eauto |].
        destruct (Hnone eq_refl) as [-> _]. constructor. }
    split; [now apply Forall2_app |].
    split; [exact Hlog |]. split; [exact Hlast |].
    split; [now apply sublist_app |].
    split.
    + apply Forall_app. split; [exact Hwf |].
      clear -Hfresh. induction Hfresh as [| p e ps es Hb _ IH]; constructor;
        [eapply built_from_well_formed; exact Hb | exact IH].
    + intros [Hc _]. now rewrite (Hall Hc).
  - destruct (Sniffer.LIVE_PACKETS (Pipeline.sniffer sys)) as [| e buf] eqn:Hb.
    + eexists _, new, delivered. split; [reflexivity |].
      unfold linked. cbn [Pipeline.sniffer Pipeline.store].
      rewrite send_traffic_batch_empties.
      unfold ip_packets, Pipeline.captured. cbn [omap list_omap].
      rewrite filter_nil, !app_nil_r in *.
      split; [exact Hbuilt |]. split; [exact Hlog |]. split; [exact Hlast |].
      split; [exact Hsub |]. split; [constructor |].
      intros [Hc _]. exact (Hall Hc).
    + pose proof (post_accepts_well_formed (e :: buf) reachable
                    (Pipeline.store sys) delivered Hwf Hlog Hlast) as Hpost.
      cbn zeta in Hpost.
      destruct (Pipeline.post rnd (e :: buf) reachable (Pipeline.store sys))
        as [r api'].
      unfold ip_packets, Pipeline.captured. cbn [omap list_omap].
      rewrite filter_nil, app_nil_r.
      destruct reachable; cbn [fst snd] in Hpost.
      * destruct Hpost as (_ & Hlog' & Hlast').
        eexists _, new, (delivered ++ e :: buf). split; [reflexivity |].
        unfold linked. cbn [Pipeline.sniffer Pipeline.store].
        rewrite send_traffic_batch_empties, app_nil_r.
        split; [exact Hbuilt |]. split; [exact Hlog' |].
        split; [exact Hlast' |]. split; [exact Hsub |].
        split; [constructor |]. intros [Hc _]. exact (Hall Hc).
      * injection Hpost as -> ->.
        eexists _, new, delivered. split; [reflexivity |].
        unfold linked. cbn [Pipeline.sniffer Pipeline.store].
        rewrite send_traffic_batch_empties, app_nil_r.
        split; [exact Hbuilt |]. split; [exact Hlog |].
        split; [exact Hlast |].
        split; [etransitivity; [| exact Hsub]; now apply sublist_inserts_r |].
        split; [constructor |]. intros [_ []].
Qed.

Lemma run_linked evs : forall ips complete sys new delivered,
  linked ips complete sys new delivered ->
  exists sys' new' delivered',
    Pipeline.run ml_engine CONFIG rnd sys evs = Ok sys' /\
    linked (ips ++ ip_packets evs) (complete /\ Forall reachable_event evs)
      sys' new' delivered'.
Proof.
  induction evs as [| ev evs IH]; intros ips complete sys new delivered Hinv.
  - exists sys, new, delivered. split; [reflexivity |].
    unfold ip_packets, Pipeline.captured. cbn [omap list_omap].
    rewrite filter_nil, app_nil_r.
    destruct Hinv as (H1 & H2 & H3 & H4 & H5 & H6).
    do 5 (split; [assumption |]). intros [Hc _]. auto.
  - destruct (step_linked ips complete sys new delivered ev Hinv)
      as (sys1 & new1 & del1 & Hstep & Hinv1).
    destruct (IH _ _ _ _ _ Hinv1) as (sys2 & new2 & del2 & Hrun & Hinv2).
    exists sys2, new2, del2. cbn [Pipeline.run]. rewrite Hstep. cbn [bind].
    split; [exact Hrun |].
    rewrite ip_packets_cons, app_assoc.
    destruct Hinv2 as (H1 & H2 & H3 & H4 & H5 & H6).
    do 5 (split; [assumption |]).
    intros [Hc Hall]. apply Forall_cons in Hall as [Hev Hall]. auto.
Qed.

End PipelineOrder.

(** X17: in every run of the sniffer posting to the API, the store holds
    the last 50 of the records it received, numbered 1, 2, ... in the order the sniffer
    built them, and the counter is their number; the records received
    followed by the buffered ones are records built from the captured IP
    packets, in capture order; and when every wake-up finds the API
    reachable, none is missing. *)
Theorem store_receives_in_capture_order (ml_engine : MLEngine.MLEngine)
    (CONFIG : Sniffer.Settings) (rnd : Api.Random) (start : Q)
    (evs : list Pipeline.event) :
  exists sys new delivered,
    Pipeline.run ml_engine CONFIG rnd (Pipeline.initial start) evs = Ok sys /\
    Forall2 built_from (ip_packets evs) new /\
    Api.get_live_logs (Pipeline.store sys) = last_n 50 (stamp 0 delivered) /\
    Api.LAST_PACKET_ID (Pipeline.store sys) = Z.of_nat (length delivered) /\
    (delivered ++ Sniffer.LIVE_PACKETS (Pipeline.sniffer sys))
      `sublist_of` new /\
    (Forall reachable_event evs ->
     delivered ++ Sniffer.LIVE_PACKETS (Pipeline.sniffer sys) = new).
Proof.
  destruct (run_linked ml_engine CONFIG rnd evs [] True
              (Pipeline.initial start) [] [])
    as (sys & new & delivered & Hrun & H1 & H2 & H3 & H4 & _ & H6).
  { split; [constructor |]. split; [reflexivity |]. split; [reflexivity |].
    split; [constructor |]. split; [constructor |]. reflexivity. }
  exists sys, new, delivered. do 5 (split; [assumption |]).
  intros Hall. apply H6. now split.
Qed.

Lemma store_receives_in_capture_order_witness :
  exists sys new delivered,
    Pipeline.run no_model half_sensitivity alternating (Pipeline.initial 0)
      [Pipeline.Captured udp_dns; Pipeline.SenderWakes 1 true] = Ok sys /\
    Forall2 built_from
      (ip_packets [Pipeline.Captured udp_dns; Pipeline.SenderWakes 1 true]) new /\
    delivered ++ Sniffer.LIVE_PACKETS (Pipeline.sniffer sys) = new.
Proof.
  destruct (store_receives_in_capture_order no_model half_sensitivity
              alternating 0
              [Pipeline.Captured udp_dns; Pipeline.SenderWakes 1 true])
    as (sys & new & delivered & Hrun & Hnew & _ & _ & _ & Hall).
  exists sys, new, delivered. split; [exact Hrun |]. split; [exact Hnew |].
  apply Hall. repeat constructor.
Defined.

(** ** Analytics *)

Lemma value_eq_refl k : ApiReads.value_eq k k = true.
Proof.
  destruct k; cbn; auto using Qeq_bool_refl, String.eqb_refl.
Qed.

Lemma value_eq_sym a b : ApiReads.value_eq a b = ApiReads.value_eq b a.
Proof.
  destruct a, b; cbn; auto using Qeq_bool_comm, String.eqb_sym.
Qed.

Lemma value_eq_trans a b c :
  ApiReads.value_eq a b = true -> ApiReads.value_eq b c = true ->
  ApiReads.value_eq a c = true.
Proof.
  destruct a, b, c; cbn; try discriminate; eauto using Qeq_bool_trans.
  intros Hab Hbc. apply String.eqb_eq in Hab, Hbc. subst. apply String.eqb_refl.
Qed.

Lemma value_eq_false_trans k k' x :
  ApiReads.value_eq k' k = true -> ApiReads.value_eq x k' = false ->
  ApiReads.value_eq x k = false.
Proof.
  intros Hk Hx. destruct (ApiReads.value_eq x k) eqn:E; [| reflexivity].
  rewrite <- Hx. symmetry. apply (value_eq_trans x k k'); [exact E |].
  now rewrite value_eq_sym.
Qed.

Lemma dict_get_miss d k dflt :
  misses k d -> ApiReads.dict_get d k dflt = dflt.
Proof.
  induction 1 as [| [k' v] d Hk _ IH]; [reflexivity |].
  cbn in *. now rewrite Hk.
Qed.

Lemma dict_set_miss d k v :
  misses k d -> ApiReads.dict_set d k v = d ++ [(k, v)].
Proof.
  induction 1 as [| [k' v'] d Hk _ IH]; [reflexivity |].
  cbn in *. now rewrite Hk, IH.
Qed.

Lemma dict_get_hit pre k' v post k dflt :
  misses k pre -> ApiReads.value_eq k' k = true ->
  ApiReads.dict_get (pre ++ (k', v) :: post) k dflt = v.
Proof.
  intros Hpre Hk. induction Hpre as [| [k2 v2] d Hk2 _ IH]; cbn in *.
  - now rewrite Hk.
  - now rewrite Hk2.
Qed.

Lemma dict_set_hit pre k' v post k w :
  misses k pre -> ApiReads.value_eq k' k = true ->
  ApiReads.dict_set (pre ++ (k', v) :: post) k w = pre ++ (k', w) :: post.
Proof.
  intros Hpre Hk. induction Hpre as [| [k2 v2] d Hk2 _ IH]; cbn in *.
  - now rewrite Hk.
  - now rewrite Hk2, IH.
Qed.

Lemma dict_split d k :
  misses k d \/
  exists pre k' v post,
    d = pre ++ (k', v) :: post /\ misses k pre /\
    ApiReads.value_eq k' k = true.
Proof.
  induction d as [| [k' v] d IH]; [left; constructor |].
  destruct (ApiReads.value_eq k' k) eqn:Hk.
  - right. exists [], k', v, d. repeat split; [constructor | exact Hk].
  - destruct IH as [Hmiss | (pre & k2 & v2 & post & -> & Hpre & Hk2)].
    + left. now constructor.
    + right. exists ((k', v) :: pre), k2, v2, post.
      repeat split; [now constructor | exact Hk2].
Qed.

Lemma occurrences_snoc field k done log :
  occurrences field k (done ++ [log])
  = occurrences field k done
    + (if ApiReads.value_eq k (counted field log) then 1 else 0).
Proof.
  unfold occurrences. rewrite filter_app, length_app, filter_cons, filter_nil.
  destruct (decide _) as [-> | Hne]; cbn [length].
  - lia.
  - destruct (ApiReads.value_eq _ _); [congruence | lia].
Qed.

Lemma occurrences_nonneg field k logs : 0 <= occurrences field k logs.
Proof. unfold occurrences. lia. Qed.

Lemma counts_total_app d d' :
  counts_total (d ++ d') = counts_total d + counts_total d'.
Proof.
  induction d as [| kc d IH]; cbn; [reflexivity |].
  unfold counts_total in *. cbn. rewrite IH. lia.
Qed.

Lemma count_one_total d k :
  counts_total (ApiReads.count_one d k) = counts_total d + 1.
Proof.
  unfold ApiReads.count_one.
  destruct (dict_split d k) as [Hmiss | (pre & k' & v & post & -> & Hpre & Hk)].
  - rewrite dict_get_miss, dict_set_miss by exact Hmiss.
    rewrite counts_total_app. cbn. lia.
  - rewrite (dict_get_hit _ _ _ _ _ _ Hpre Hk), (dict_set_hit _ _ _ _ _ _ Hpre Hk).
    rewrite !counts_total_app. cbn. lia.
Qed.

Lemma tally_total field logs : forall d,
  counts_total
    (fold_left (fun counts log => ApiReads.count_one counts (counted field log))
       logs d)
  = counts_total d + Z.of_nat (length logs).
Proof.
  induction logs as [| log logs IH]; intros d; cbn [fold_left length].
  - lia.
  - rewrite IH, count_one_total. lia.
Qed.

Lemma insert_desc_total x l :
  counts_total (ApiReads.insert_desc x l) = x.2 + counts_total l.
Proof.
  induction l as [| y l IH]; cbn; [reflexivity |].
  destruct (_ <=? _); cbn; [reflexivity |].
  unfold counts_total in *. cbn. rewrite IH. lia.
Qed.

Lemma sorted_desc_total l :
  counts_total (ApiReads.sorted_desc l) = counts_total l.
Proof.
  induction l as [| x l IH]; [reflexivity |].
  cbn [ApiReads.sorted_desc foldr]. fold (ApiReads.sorted_desc l).
  rewrite insert_desc_total, IH. reflexivity.
Qed.

Lemma insert_desc_perm x l : ApiReads.insert_desc x l ≡ₚ x :: l.
Proof.
  induction l as [| y l IH]; cbn; [reflexivity |].
  destruct (_ <=? _); [reflexivity |].
  rewrite IH. apply Permutation_swap.
Qed.

Lemma sorted_desc_perm l : ApiReads.sorted_desc l ≡ₚ l.
Proof.
  induction l as [| x l IH]; [reflexivity |].
  cbn [ApiReads.sorted_desc foldr]. fold (ApiReads.sorted_desc l).
  now rewrite insert_desc_perm, IH.
Qed.

Lemma insert_desc_sorted x l :
  StronglySorted by_count_desc l ->
  StronglySorted by_count_desc (ApiReads.insert_desc x l).
Proof.
  induction 1 as [| y l Hl IH Hy]; cbn.
  - repeat constructor.
  - destruct (Z.leb_spec y.2 x.2) as [Hle | Hgt].
    + constructor; [now constructor |].
      constructor; [exact Hle |].
      eapply Forall_impl; [exact Hy |]. unfold by_count_desc. intros z Hz. lia.
    + constructor; [exact IH |].
      rewrite insert_desc_perm. constructor; [unfold by_count_desc; lia | exact Hy].
Qed.

Lemma sorted_desc_sorted l :
  StronglySorted by_count_desc (ApiReads.sorted_desc l).
Proof.
  induction l as [| x l IH]; [constructor |].
  cbn [ApiReads.sorted_desc foldr]. now apply insert_desc_sorted.
Qed.

Lemma take_sorted {A} (R : A -> A -> Prop) n l :
  StronglySorted R l -> StronglySorted R (take n l).
Proof.
  intros H. rewrite <- (take_drop n l) in H.
  now apply StronglySorted_app_1_l in H.
Qed.

(** X18: each of the three statistics is sorted by decreasing count, and
    at most ten source addresses are reported. *)
Theorem trends_sorted_by_count (st : Api.State) :
  let t := ApiReads.get_analytics_trends st in
  StronglySorted by_count_desc (ApiReads.classification_stats t) /\
  StronglySorted by_count_desc (ApiReads.protocol_stats t) /\
  StronglySorted by_count_desc (ApiReads.ip_stats t) /\
  (length (ApiReads.ip_stats t) <= 10)%nat.
Proof.
  unfold ApiReads.get_analytics_trends, Api.get_live_logs.
  destruct (Api.LIVE_PACKET_LOG st) as [| log logs]; cbn zeta.
  - cbn. repeat split; repeat constructor; unfold by_count_desc; cbn; lia.
  - cbn [ApiReads.classification_stats ApiReads.protocol_stats
           ApiReads.ip_stats].
    split; [apply sorted_desc_sorted |]. split; [apply sorted_desc_sorted |].
    split; [apply take_sorted, sorted_desc_sorted |].
    rewrite length_take. lia.
Qed.

Lemma counts_total_take n l :
  Forall (fun kc => 0 <= kc.2) l ->
  0 <= counts_total (take n l) <= counts_total l.
Proof.
  intros Hpos. rewrite <- (take_drop n l) at 3. rewrite counts_total_app.
  assert (Hnn : forall d, Forall (fun kc : value * Z => 0 <= kc.2) d ->
                          0 <= counts_total d).
  { induction 1 as [| kc d Hk _ IH]; cbn; [lia |].
    unfold counts_total in *. cbn. lia. }
  pose proof (Hnn (take n l) ltac:(now apply Forall_take)).
  pose proof (Hnn (drop n l) ltac:(now apply Forall_drop)). lia.
Qed.

Lemma value_eq_congr k k' x :
  ApiReads.value_eq k k' = true ->
  ApiReads.value_eq k x = ApiReads.value_eq k' x.
Proof.
  intros Hk. destruct (ApiReads.value_eq k' x) eqn:E.
  - now apply (value_eq_trans k k' x).
  - rewrite value_eq_sym. apply (value_eq_false_trans k k' x).
    + now rewrite value_eq_sym.
    + rewrite value_eq_sym. exact E.
Qed.

Lemma occurrences_congr field k k' logs :
  ApiReads.value_eq k k' = true ->
  occurrences field k logs = occurrences field k' logs.
Proof.
  intros Hk. unfold occurrences. do 2 f_equal.
  induction logs as [| log logs IH]; [reflexivity |].
  rewrite !filter_cons, IH, (value_eq_congr k k' _ Hk). reflexivity.
Qed.

Lemma occurrences_zero field k logs :
  (forall log, log ∈ logs ->
     ApiReads.value_eq k (counted field log) = false) ->
  occurrences field k logs = 0.
Proof.
  intros H. unfold occurrences.
  induction logs as [| log logs IH]; [reflexivity |].
  rewrite filter_cons. destruct (decide _) as [Heq | _].
  - rewrite H in Heq; [discriminate | left].
  - apply IH. intros l Hl. apply H. now right.
Qed.

Lemma occurrences_pos field k logs :
  0 < occurrences field k logs ->
  exists log, log ∈ logs /\ ApiReads.value_eq k (counted field log) = true.
Proof.
  unfold occurrences. intros Hpos.
  destruct (filter _ logs) as [| log rest] eqn:Hf; [cbn in Hpos; lia |].
  assert (Hin : log ∈ filter
                  (fun log => ApiReads.value_eq k (counted field log) = true)
                  logs) by (rewrite Hf; left).
  apply list_elem_of_filter in Hin as [Hk Hin]. eauto.
Qed.

Lemma Forall_both {A} (P Q : A -> Prop) (l : list A) :
  Forall P l -> Forall Q l -> Forall (fun x => P x /\ Q x) l.
Proof.
  induction 1 as [| x l Hx _ IH]; intros HQ; [constructor |].
  apply Forall_cons in HQ as [Hq HQ]. constructor; auto.
Qed.

Lemma tallied_step field done d log :
  tallied field done d ->
  tallied field (done ++ [log]) (ApiReads.count_one d (counted field log)).
Proof.
  intros (Hkeys & Hcounts & Hall). set (k := counted field log).
  unfold ApiReads.count_one.
  destruct (dict_split d k) as [Hmiss | (pre & k' & v & post & -> & Hpre & Hk)].
  - rewrite dict_get_miss, dict_set_miss by exact Hmiss. cbn [Z.add].
    assert (Hzero : occurrences field k done = 0).
    { apply occurrences_zero. intros l Hl.
      destruct (Hall l Hl) as (kc & Hkc & Heq).
      unfold misses in Hmiss. rewrite Forall_forall in Hmiss.
      specialize (Hmiss kc Hkc).
      destruct (ApiReads.value_eq k (counted field l)) eqn:E; [| reflexivity].
      rewrite <- Hmiss. symmetry. apply (value_eq_trans _ _ _ Heq).
      now rewrite value_eq_sym. }
    split; [| split].
    + rewrite map_app. apply StronglySorted_app_2.
      * intros x1 x2 Hx1 Hx2. apply list_elem_of_singleton in Hx2 as ->.
        apply list_elem_of_fmap in Hx1 as (kc & -> & Hkc).
        unfold misses in Hmiss. rewrite Forall_forall in Hmiss. now apply Hmiss.
      * exact Hkeys.
      * repeat constructor.
    + apply Forall_app. split.
      * unfold misses in Hmiss.
        pose proof (Forall_both _ _ _ Hmiss Hcounts) as Hboth.
        eapply Forall_impl; [exact Hboth |].
        intros kc [Hm [Hc Hone]]. cbn in *. rewrite occurrences_snoc.
        fold k. rewrite Hm. split; [lia | exact Hone].
      * constructor; [| constructor]. cbn. rewrite occurrences_snoc.
        fold k. rewrite value_eq_refl, Hzero. split; [reflexivity | lia].
    + intros l Hl. apply elem_of_app in Hl as [Hl | Hl].
      * destruct (Hall l Hl) as (kc & Hkc & Heq). exists kc.
        split; [apply elem_of_app; now left | exact Heq].
      * apply list_elem_of_singleton in Hl as ->. exists (k, 1).
        split; [apply elem_of_app; right; left | apply value_eq_refl].
  - rewrite (dict_get_hit _ _ _ _ _ _ Hpre Hk), (dict_set_hit _ _ _ _ _ _ Hpre Hk).
    rewrite map_app in Hkeys. cbn [map fst] in Hkeys.
    pose proof (StronglySorted_app_1_r _ _ _ Hkeys) as Htail.
    apply StronglySorted_inv in Htail as [_ Hpost].
    apply Forall_app in Hcounts as [Hcpre Hcrest].
    apply Forall_cons in Hcrest as [[Hv Hone] Hcpost]. cbn in Hv, Hone.
    split; [| split].
    + rewrite map_app. exact Hkeys.
    + apply Forall_app. split; [| constructor].
      * pose proof (Forall_both _ _ _ Hpre Hcpre) as Hboth.
        eapply Forall_impl; [exact Hboth |].
        intros kc [Hm [Hc Hone']]. cbn in *. rewrite occurrences_snoc.
        fold k. rewrite Hm. split; [lia | exact Hone'].
      * cbn. rewrite occurrences_snoc. fold k. rewrite Hk. split; lia.
      * rewrite Forall_forall in Hpost. rewrite Forall_forall in Hcpost.
        apply Forall_forall. intros kc Hkc.
        destruct (Hcpost kc Hkc) as [Hc Hone'].
        assert (Hm : ApiReads.value_eq kc.1 k = false).
        { apply (value_eq_false_trans k k' _ Hk).
          rewrite value_eq_sym. apply Hpost.
          apply list_elem_of_fmap. eauto. }
        rewrite occurrences_snoc. fold k. rewrite Hm. split; [lia | exact Hone'].
    + intros l Hl. apply elem_of_app in Hl as [Hl | Hl].
      * destruct (Hall l Hl) as (kc & Hkc & Heq).
        apply elem_of_app in Hkc as [Hkc | Hkc].
        -- exists kc. split; [apply elem_of_app; now left | exact Heq].
        -- apply elem_of_cons in Hkc as [-> | Hkc].
           ++ exists (k', v + 1). split; [| exact Heq].
              apply elem_of_app. right. left.
           ++ exists kc. split; [| exact Heq].
              apply elem_of_app. right. now right.
      * apply list_elem_of_singleton in Hl as ->. exists (k', v + 1).
        split; [apply elem_of_app; right; left | exact Hk].
Qed.

Lemma tallied_fold field logs : forall done d,
  tallied field done d ->
  tallied field (done ++ logs)
    (fold_left (fun counts log => ApiReads.count_one counts (counted field log))
       logs d).
Proof.
  induction logs as [| log logs IH]; intros done d Hinv; cbn [fold_left].
  - now rewrite app_nil_r.
  - replace (done ++ log :: logs) with ((done ++ [log]) ++ logs)
      by now rewrite <- app_assoc.
    apply IH. now apply tallied_step.
Qed.

Lemma tally_tallied field logs :
  tallied field logs (ApiReads.tally field logs).
Proof.
  apply (tallied_fold field logs [] []).
  split; [constructor |]. split; [constructor |].
  intros log Hl. now apply elem_of_nil in Hl.
Qed.

Lemma distinct_members (d : list (value * Z)) (k k' : value) (c c' : Z) :
  StronglySorted (fun a b => ApiReads.value_eq a b = false) (map fst d) ->
  (k, c) ∈ d -> (k', c') ∈ d ->
  ApiReads.value_eq k k' = true -> (k, c) = (k', c').
Proof.
  induction d as [| [k0 c0] d IH]; intros Hs Hin Hin' Heq.
  - now apply elem_of_nil in Hin.
  - cbn [map fst] in Hs. apply StronglySorted_inv in Hs as [Hs Hhead].
    rewrite Forall_forall in Hhead.
    apply elem_of_cons in Hin as [Hin | Hin];
      apply elem_of_cons in Hin' as [Hin' | Hin'].
    + congruence.
    + injection Hin as -> ->.
      rewrite (Hhead k') in Heq; [discriminate |].
      apply list_elem_of_fmap. exists (k', c'). eauto.
    + injection Hin' as -> ->. rewrite value_eq_sym in Heq.
      rewrite (Hhead k) in Heq; [discriminate |].
      apply list_elem_of_fmap. exists (k, c). eauto.
    + now apply IH.
Qed.

Lemma tallied_exact field logs stats :
  stats ≡ₚ ApiReads.tally field logs -> exact_counts field logs stats.
Proof.
  intros Hperm. destruct (tally_tallied field logs) as (Hkeys & Hcounts & Hall).
  rewrite Forall_forall in Hcounts. split; [split |].
  - intros k c Hin. rewrite Hperm in Hin. exact (Hcounts _ Hin).
  - intros k c k' c' Hin Hin'. rewrite Hperm in Hin, Hin'.
    now apply (distinct_members (ApiReads.tally field logs)).
  - intros log Hl. destruct (Hall log Hl) as ([k c] & Hin & Heq).
    exists k, c. rewrite Hperm. eauto.
Qed.

Lemma exact_entries_take field logs stats n :
  exact_entries field logs stats -> exact_entries field logs (take n stats).
Proof.
  intros [Ha Hc]. split.
  - intros k c Hin. apply Ha. exact (subseteq_take n stats _ Hin).
  - intros k c k' c' Hin Hin'.
    apply Hc; [exact (subseteq_take n stats _ Hin)
              | exact (subseteq_take n stats _ Hin')].
Qed.

(** X19: with a non-empty log, every entry of the statistics carries the
    exact number of retained records whose field equals its key, no two
    entries have equal keys, and every record is counted under some entry
    of the classification and protocol statistics. *)
Theorem trends_counts_exact (st : Api.State) :
  Api.get_live_logs st <> [] ->
  let logs := Api.get_live_logs st in
  let t := ApiReads.get_analytics_trends st in
  exact_counts "classification" logs (ApiReads.classification_stats t) /\
  exact_counts "protocol" logs (ApiReads.protocol_stats t) /\
  exact_entries "src_ip" logs (ApiReads.ip_stats t).
Proof.
  unfold ApiReads.get_analytics_trends.
  destruct (Api.get_live_logs st) as [| log logs] eqn:Hlogs; [congruence |].
  intros _. cbn zeta.
  cbn [ApiReads.classification_stats ApiReads.protocol_stats ApiReads.ip_stats].
  split; [apply tallied_exact, sorted_desc_perm |].
  split; [apply tallied_exact, sorted_desc_perm |].
  apply exact_entries_take.
  apply (tallied_exact "src_ip" (log :: logs)), sorted_desc_perm.
Qed.

Lemma trends_counts_exact_witness :
  let logs := [tcp_normal; udp_anomaly; tcp_normal] in
  let t := ApiReads.get_analytics_trends (store_of logs) in
  exact_counts "classification" logs (ApiReads.classification_stats t) /\
  exact_counts "protocol" logs (ApiReads.protocol_stats t) /\
  exact_entries "src_ip" logs (ApiReads.ip_stats t).
Proof.
  apply (trends_counts_exact (store_of [tcp_normal; udp_anomaly; tcp_normal])).
  discriminate.
Defined.

(** X20: with a non-empty log, the classification counts and the
    protocol counts each add up to the number of retained records, and
    the reported source counts add up to at most that number. *)
Theorem trends_counts_add_up (st : Api.State) :
  Api.get_live_logs st <> [] ->
  let n := Z.of_nat (length (Api.get_live_logs st)) in
  let t := ApiReads.get_analytics_trends st in
  counts_total (ApiReads.classification_stats t) = n /\
  counts_total (ApiReads.protocol_stats t) = n /\
  0 <= counts_total (ApiReads.ip_stats t) <= n.
Proof.
  unfold ApiReads.get_analytics_trends.
  destruct (Api.get_live_logs st) as [| log logs] eqn:Hlogs; [congruence |].
  intros _. cbn zeta.
  cbn [ApiReads.classification_stats ApiReads.protocol_stats ApiReads.ip_stats].
  unfold ApiReads.tally.
  rewrite !sorted_desc_total.
  rewrite (tally_total "classification"), (tally_total "protocol").
  split; [cbn; lia |]. split; [cbn; lia |].
  pose proof (counts_total_take 10
                (ApiReads.sorted_desc (ApiReads.tally "src_ip" (log :: logs))))
    as Htake.
  rewrite sorted_desc_total in Htake. unfold ApiReads.tally in Htake.
  rewrite (tally_total "src_ip") in Htake. cbn [counts_total foldr] in Htake.
  apply Htake.
  destruct (tally_tallied "src_ip" (log :: logs)) as (_ & Hcounts & _).
  fold (ApiReads.tally "src_ip" (log :: logs)).
  rewrite sorted_desc_perm.
  eapply Forall_impl; [exact Hcounts |]. intros kc [_ H1]. lia.
Qed.

Lemma trends_counts_add_up_witness :
  let t := ApiReads.get_analytics_trends
             (store_of [tcp_normal; udp_anomaly; tcp_normal]) in
  counts_total (ApiReads.classification_stats t) = 3 /\
  counts_total (ApiReads.protocol_stats t) = 3 /\
  0 <= counts_total (ApiReads.ip_stats t) <= 3.
Proof.
  apply (trends_counts_add_up (store_of [tcp_normal; udp_anomaly; tcp_normal])).
  discriminate.
Defined.

(** X21: with a non-empty log, a source address that is left out of the
    reported ten occurs no more often than any reported one. *)
Theorem trends_top_sources (st : Api.State) (k : value) (kc : value * Z) :
  Api.get_live_logs st <> [] ->
  misses k (ApiReads.ip_stats (ApiReads.get_analytics_trends st)) ->
  kc ∈ ApiReads.ip_stats (ApiReads.get_analytics_trends st) ->
  occurrences "src_ip" k (Api.get_live_logs st) <= kc.2.
Proof.
  unfold ApiReads.get_analytics_trends.
  destruct (Api.get_live_logs st) as [| log logs] eqn:Hlogs; [congruence |].
  intros _. cbn [ApiReads.ip_stats].
  set (all := ApiReads.sorted_desc (ApiReads.tally "src_ip" (log :: logs))).
  intros Hmiss Hkc.
  destruct (tallied_exact "src_ip" (log :: logs) all (sorted_desc_perm _))
    as [[Hexact _] Hcovers].
  assert (Hone : 1 <= kc.2).
  { destruct kc as [k1 c1]. eapply Hexact, (subseteq_take 10 all), Hkc. }
  destruct (Z.lt_ge_cases 0 (occurrences "src_ip" k (log :: logs)))
    as [Hpos | Hzero]; [| lia].
  apply occurrences_pos in Hpos as (l & Hl & Hk).
  destruct (Hcovers l Hl) as (k2 & c2 & Hin & Hk2).
  assert (Hkk : ApiReads.value_eq k2 k = true).
  { apply (value_eq_trans _ _ _ Hk2). now rewrite value_eq_sym. }
  rewrite <- (occurrences_congr _ _ _ _ Hkk).
  destruct (Hexact _ _ Hin) as [<- _].
  rewrite <- (take_drop 10 all) in Hin.
  apply elem_of_app in Hin as [Hin | Hin].
  - unfold misses in Hmiss. rewrite Forall_forall in Hmiss.
    specialize (Hmiss _ Hin). cbn in Hmiss. congruence.
  - pose proof (sorted_desc_sorted (ApiReads.tally "src_ip" (log :: logs)))
      as Hsorted. fold all in Hsorted.
    rewrite <- (take_drop 10 all) in Hsorted.
    exact (StronglySorted_app_1_elem_of _ _ _ _ _ Hsorted Hkc Hin).
Qed.

Lemma trends_top_sources_witness :
  let st := store_of twelve_sources in
  length (ApiReads.ip_stats (ApiReads.get_analytics_trends st)) = 10%nat /\
  occurrences "src_ip" (VStr "10.0.0.11") (Api.get_live_logs st) = 1 /\
  occurrences "src_ip" (VStr "10.0.0.11") (Api.get_live_logs st)
  <= (VStr "10.0.0.9", 1).2.
Proof.
  split; [vm_compute; reflexivity |]. split; [vm_compute; reflexivity |].
  apply (trends_top_sources (store_of twelve_sources)
           (VStr "10.0.0.11") (VStr "10.0.0.9", 1)).
  - discriminate.
  - vm_compute. repeat constructor.
  - vm_compute. do 9 right. left.
Defined.

(** ** Settings of the API *)

Lemma save_settings_keeps k data written CONFIG :
  is_Some (CONFIG !! k) ->
  is_Some ((ApiReads.save_settings data written CONFIG).2 !! k).
Proof.
  intros Hk. unfold ApiReads.save_settings.
  destruct written; cbn [snd]; apply lookup_union_is_Some; now right.
Qed.

Lemma after_saves_keeps k file saves :
  is_Some (ApiReads.default_config !! k) ->
  is_Some (after_saves file saves !! k).
Proof.
  intros Hk. unfold after_saves.
  assert (Hload : is_Some (ApiReads.load_config file !! k)).
  { destruct file as [config |]; [| exact Hk].
    cbn. apply lookup_union_is_Some. now right. }
  revert Hload. generalize (ApiReads.load_config file).
  induction saves as [| [data written] saves IH]; intros CONFIG Hc; [exact Hc |].
  cbn [fold_left]. apply IH. now apply save_settings_keeps.
Qed.

(** X22: whatever settings.json holds, or if it cannot be read, and after
    any run of settings updates, written to disk or not, the live traffic
    endpoint finds the role and sensitivity keys and never raises. *)
Theorem live_traffic_always_answers (file : option (gmap string value))
    (saves : list (gmap string value * bool)) (st : Api.State) :
  exists role sensitivity,
    ApiReads.get_live_traffic (after_saves file saves) st
    = Ok (Api.get_live_logs st, role, sensitivity).
Proof.
  destruct (after_saves_keeps "role" file saves) as [role Hrole];
    [eexists; reflexivity |].
  destruct (after_saves_keeps "sensitivity" file saves) as [sens Hsens];
    [eexists; reflexivity |].
  exists role, sens. unfold ApiReads.get_live_traffic, getitem.
  now rewrite Hrole, Hsens.
Qed.

(** X23: a settings update takes effect in memory even when writing the
    file fails and the reply is 500: every posted key then reads as
    posted, every other key as before, and the live traffic endpoint
    reports the posted sensitivity. *)
Theorem save_settings_applies_without_write (data CONFIG : gmap string value)
    (written : bool) (st : Api.State) (v role : value) :
  data !! "sensitivity" = Some v ->
  (data ∪ CONFIG) !! "role" = Some role ->
  let r := ApiReads.save_settings data written CONFIG in
  r.1 = (if written then 200 else 500) /\
  (forall k, r.2 !! k = match data !! k with
                        | Some x => Some x
                        | None => CONFIG !! k
                        end) /\
  ApiReads.get_live_traffic r.2 st = Ok (Api.get_live_logs st, role, v).
Proof.
  intros Hv Hrole.
  assert (Hlook : forall k, (data ∪ CONFIG) !! k
                            = match data !! k with
                              | Some x => Some x
                              | None => CONFIG !! k
                              end).
  { intros k. rewrite lookup_union.
    destruct (data !! k), (CONFIG !! k); reflexivity. }
  unfold ApiReads.save_settings, ApiReads.get_live_traffic, getitem.
  destruct written; cbn [fst snd];
    (split; [reflexivity |]; split; [exact Hlook |]);
    rewrite Hrole, (Hlook "sensitivity"), Hv; reflexivity.
Qed.

Lemma save_settings_applies_without_write_witness :
  let r := ApiReads.save_settings sensitivity_07 false
             ApiReads.default_config in
  r.1 = 500 /\
  ApiReads.get_live_traffic r.2 Api.initial
    = Ok ([], VStr "Analyst", VFloat 0.7%Q).
Proof.
  assert (H1 : sensitivity_07 !! "sensitivity" = Some (VFloat 0.7%Q))
    by (vm_compute; reflexivity).
  assert (H2 : (sensitivity_07 ∪ ApiReads.default_config) !! "role"
               = Some (VStr "Analyst")) by (vm_compute; reflexivity).
  destruct (save_settings_applies_without_write
              sensitivity_07 ApiReads.default_config false
              Api.initial (VFloat 0.7%Q) (VStr "Analyst") H1 H2)
    as (Hcode & _ & Hlive).
  split; [exact Hcode | exact Hlive].
Defined.

(** ** Raw bytes in transit *)

Lemma list_ind3 {A} (P : list A -> Prop) :
  P [] -> (forall a, P [a]) -> (forall a b, P [a; b]) ->
  (forall a b c rest, P rest -> P (a :: b :: c :: rest)) ->
  forall l, P l.
Proof.
  intros H0 H1 H2 H3 l.
  assert (H : P l /\ (forall a, P (a :: l)) /\ (forall a b, P (a :: b :: l))).
  { induction l as [| c l (IH0 & IH1 & IH2)]; [auto |].
    split; [apply IH1 |]. split; [intros a; apply IH2 |].
    intros a b. now apply H3. }
  apply H.
Qed.

(** X24: the text of raw_data has four characters for every three bytes
    of the packet, the last group being padded. *)
Theorem b64encode_length (bs : list Byte.byte) :
  String.length (b64encode bs) = (4 * ((length bs + 2) / 3))%nat.
Proof.
  induction bs as [| a | a b | a b c rest IH] using list_ind3;
    try reflexivity.
  cbn [b64encode String.length length]. rewrite IH.
  replace (S (S (S (length rest))) + 2)%nat
    with (length rest + 2 + 1 * 3)%nat by lia.
  rewrite Nat.div_add by lia. lia.
Qed.

Lemma b64_char_value_lt (i : nat) :
  (i < 64)%nat ->
  b64_value (nth i b64_alphabet "="%char) = N.of_nat i /\
  Ascii.eqb (nth i b64_alphabet "="%char) "=" = false.
Proof.
  intros Hi.
  do 64 (destruct i as [| i]; [vm_compute; split; reflexivity |]).
  lia.
Qed.

Lemma b64_char_value (m : N) :
  b64_value (b64_char m) = (m mod 64)%N /\
  Ascii.eqb (b64_char m) "=" = false.
Proof.
  unfold b64_char.
  assert (Hlt : (m mod 64 < 64)%N) by (apply N.mod_lt; lia).
  destruct (b64_char_value_lt (N.to_nat (m mod 64)) ltac:(lia)) as [Hv He].
  rewrite Hv, He. split; [lia | reflexivity].
Qed.

Lemma byte_of_to_N (a : Byte.byte) (n : N) :
  (n mod 256)%N = Byte.to_N a -> byte_of n = a.
Proof.
  intros Hn. unfold byte_of. now rewrite Hn, Byte.of_to_N.
Qed.

Lemma b64_recombine (n : N) :
  (n < 16777216)%N ->
  ((n / 262144) mod 64 * 262144 + (n / 4096) mod 64 * 4096
   + (n / 64) mod 64 * 64 + n mod 64 = n)%N.
Proof.
  intros Hn.
  assert (H0 : ((n / 262144) mod 64 = n / 262144)%N).
  { apply N.mod_small, N.Div0.div_lt_upper_bound; lia. }
  rewrite H0.
  pose proof (N.div_mod' n 64) as E1.
  pose proof (N.div_mod' (n / 64) 64) as E2.
  pose proof (N.div_mod' (n / 64 / 64) 64) as E3.
  rewrite !N.Div0.div_div in E2, E3.
  change (64 * 64)%N with 4096%N in *.
  rewrite N.Div0.div_div in E3. change (4096 * 64)%N with 262144%N in *.
  lia.
Qed.

Lemma byte_bound (a : Byte.byte) : (Byte.to_N a < 256)%N.
Proof. pose proof (Byte.to_N_bounded a). lia. Qed.

Lemma b64_split (A B C : N) :
  (A < 256 -> B < 256 -> C < 256 ->
   let n := A * 65536 + B * 256 + C in
   (n / 65536) mod 256 = A /\ (n / 256) mod 256 = B /\ n mod 256 = C)%N.
Proof.
  intros HA HB HC n. subst n. split; [| split].
  - replace (A * 65536 + B * 256 + C)%N
      with (A * 65536 + (B * 256 + C))%N by lia.
    rewrite N.div_add_l by lia. rewrite (N.div_small (B * 256 + C)) by lia.
    rewrite N.add_0_r. now apply N.mod_small.
  - replace (A * 65536 + B * 256 + C)%N
      with ((A * 256 + B) * 256 + C)%N by lia.
    rewrite N.div_add_l by lia. rewrite (N.div_small C) by lia.
    rewrite N.add_0_r.
    replace (A * 256 + B)%N with (B + A * 256)%N by lia.
    rewrite N.Div0.mod_add. now apply N.mod_small.
  - replace (A * 65536 + B * 256 + C)%N
      with (C + (A * 256 + B) * 256)%N by lia.
    rewrite N.Div0.mod_add. now apply N.mod_small.
Qed.

Lemma b64_bytes_encode (bs : list Byte.byte) : b64_bytes (b64encode bs) = bs.
Proof.
  induction bs as [| a | a b | a b c rest IH] using list_ind3.
  - reflexivity.
  - cbn [b64encode b64_bytes]. cbn zeta.
    rewrite !(proj1 (b64_char_value _)). cbn [Ascii.eqb Bool.eqb].
    pose proof (byte_bound a) as Ha.
    destruct (b64_split (Byte.to_N a) 0 0 Ha) as (H1 & _ & _); [lia | lia |].
    cbn zeta in H1. rewrite N.mul_0_l, !N.add_0_r in H1.
    set (n := (Byte.to_N a * 65536)%N) in *.
    pose proof (b64_recombine n ltac:(subst n; lia)) as Hr.
    assert (H64 : ((n / 64) mod 64 = 0 /\ n mod 64 = 0)%N).
    { subst n.
      replace (Byte.to_N a * 65536)%N with (Byte.to_N a * 16 * 64 * 64)%N
        by lia.
      rewrite N.div_mul, !N.Div0.mod_mul by lia. split; reflexivity. }
    destruct H64 as [H2 H3]. rewrite H2, H3 in Hr.
    replace ((n / 262144) mod 64 * 262144 + (n / 4096) mod 64 * 4096)%N
      with n by lia.
    f_equal. now apply byte_of_to_N.
  - cbn [b64encode b64_bytes]. cbn zeta.
    rewrite !(proj1 (b64_char_value _)), (proj2 (b64_char_value _)).
    cbn [Ascii.eqb Bool.eqb].
    pose proof (byte_bound a) as Ha. pose proof (byte_bound b) as Hb.
    destruct (b64_split (Byte.to_N a) (Byte.to_N b) 0 Ha Hb)
      as (H1 & H2 & _); [lia |].
    cbn zeta in H1, H2. rewrite !N.add_0_r in H1, H2.
    set (n := (Byte.to_N a * 65536 + Byte.to_N b * 256)%N) in *.
    pose proof (b64_recombine n ltac:(subst n; lia)) as Hr.
    assert (H64 : (n mod 64 = 0)%N).
    { subst n.
      replace (Byte.to_N a * 65536 + Byte.to_N b * 256)%N
        with ((Byte.to_N a * 1024 + Byte.to_N b * 4) * 64)%N by lia.
      apply N.Div0.mod_mul. }
    rewrite H64 in Hr.
    replace ((n / 262144) mod 64 * 262144 + (n / 4096) mod 64 * 4096
             + (n / 64) mod 64 * 64)%N with n by lia.
    f_equal; [| f_equal]; now apply byte_of_to_N.
  - cbn [b64encode b64_bytes]. cbn zeta.
    rewrite !(proj1 (b64_char_value _)), !(proj2 (b64_char_value _)).
    pose proof (byte_bound a) as Ha. pose proof (byte_bound b) as Hb.
    pose proof (byte_bound c) as Hc.
    destruct (b64_split (Byte.to_N a) (Byte.to_N b) (Byte.to_N c) Ha Hb Hc)
      as (H1 & H2 & H3).
    cbn zeta in H1, H2, H3.
    set (n := (Byte.to_N a * 65536 + Byte.to_N b * 256 + Byte.to_N c)%N) in *.
    rewrite (b64_recombine n ltac:(subst n; lia)), IH.
    f_equal; [| f_equal; [| f_equal]]; now apply byte_of_to_N.
Qed.

(** X25: the text of raw_data determines the bytes of the packet: it
    is the base64 text of those bytes, the bytes are read back from it
    group by group, and two records with the same raw_data were built from
    packets with the same bytes. *)
Theorem raw_data_determines_bytes (packet packet' : Packet)
    (e e' : gmap string value) :
  built_from packet e ->
  built_from packet' e' ->
  e !! "raw_data" = Some (VStr (b64encode (pkt_bytes packet))) /\
  b64_bytes (b64encode (pkt_bytes packet)) = pkt_bytes packet /\
  (e !! "raw_data" = e' !! "raw_data" -> pkt_bytes packet = pkt_bytes packet').
Proof.
  intros [_ (f & cl & co & _ & ->)] [_ (f' & cl' & co' & _ & ->)].
  rewrite !lookup_insert_eq.
  split; [reflexivity |]. split; [apply b64_bytes_encode |].
  intros [= H].
  rewrite <- (b64_bytes_encode (pkt_bytes packet)),
          <- (b64_bytes_encode (pkt_bytes packet')).
  now rewrite H.
Qed.

Lemma raw_data_determines_bytes_witness :
  let e := <["raw_data" := VStr (b64encode (pkt_bytes udp_dns))]>
             (<["ml_features" := VStr (str_int_list [17; 74; 128; 0])]>
                (packet_to_log_data udp_dns 0 0%Q)) in
  e !! "raw_data" = Some (VStr (b64encode (pkt_bytes udp_dns))) /\
  b64_bytes (b64encode (pkt_bytes udp_dns)) = pkt_bytes udp_dns.
Proof.
  intros e.
  assert (Hb : built_from udp_dns e).
  { split; [eexists; reflexivity |].
    exists [17; 74; 128; 0], 0, 0%Q. split; reflexivity. }
  destruct (raw_data_determines_bytes udp_dns udp_dns e e Hb Hb)
    as (H1 & H2 & _).
  split; [exact H1 | exact H2].
Defined.

(** ** Confidence text *)

Lemma scaled_4f_unit (x : Q) :
  (0 <= x <= 1)%Q ->
  0 <= scaled_4f x <= 10000 /\
  (- (1 # 2) <= inject_Z (scaled_4f x) - x * 10000 <= 1 # 2)%Q.
Proof.
  intros Hx. unfold scaled_4f.
  assert (Habs : (Qabs x == x)%Q) by (apply Qabs_pos; apply Hx).
  pose proof (round_half_even_close (Qabs x * 10000)) as Hr.
  set (n := round_half_even (Qabs x * 10000)) in *.
  rewrite Habs in Hr. split; [| exact Hr].
  assert (Hn : (- (1 # 2) <= inject_Z n <= 10000 + (1 # 2))%Q) by lra.
  destruct Hn as [Hn1 Hn2]. unfold Qle in Hn1, Hn2. cbn in Hn1, Hn2. lia.
Qed.

(** X26: for a confidence within [0, 1] the text is six characters long,
    "0." or "1." followed by four digits; the number it spells, in ten
    thousandths, lies between 0 and 10000 and within one half of the
    confidence times 10000. *)
Theorem confidence_text_unit_interval (x : Q) :
  (0 <= x <= 1)%Q ->
  let n := scaled_4f x in
  0 <= n <= 10000 /\
  (- (1 # 2) <= inject_Z n - x * 10000 <= 1 # 2)%Q /\
  format_4f x
    = (if n =? 10000 then "1" else "0") +:+ "." +:+ frac_part_4f x /\
  String.length (format_4f x) = 6%nat.
Proof.
  intros Hx n. destruct (scaled_4f_unit x Hx) as [Hn Hclose]. fold n in Hn, Hclose.
  split; [exact Hn |]. split; [exact Hclose |].
  assert (Hsign : sign_4f x = ""%string).
  { unfold sign_4f. destruct (x ?= 0)%Q eqn:Hc; try reflexivity.
    apply Qlt_alt in Hc. lra. }
  assert (Hint : int_part_4f x = if n =? 10000 then "1"%string else "0"%string).
  { unfold int_part_4f. fold n. destruct (Z.eqb_spec n 10000) as [-> | Hne].
    - reflexivity.
    - rewrite Z.div_small by lia. reflexivity. }
  unfold format_4f. rewrite Hsign, Hint. split; [reflexivity |].
  unfold frac_part_4f. destruct (n =? 10000); reflexivity.
Qed.

Lemma confidence_text_unit_interval_witness :
  format_4f 0.58
    = (if scaled_4f 0.58 =? 10000 then "1" else "0") +:+ "."
      +:+ frac_part_4f 0.58 /\
  String.length (format_4f 0.58) = 6%nat.
Proof.
  destruct (confidence_text_unit_interval 0.58) as (_ & _ & H1 & H2).
  - unfold Qle. cbn. lia.
  - split; [exact H1 | exact H2].
Defined.

(** ** Training rows *)

Lemma land_pow2 (f : Z) (k : Z) :
  0 <= k ->
  (Z.land f (2 ^ k) >? 0) = Z.testbit f k.
Proof.
  intros Hk.
  assert (H : Z.land f (2 ^ k) = if Z.testbit f k then 2 ^ k else 0).
  { apply Z.bits_inj'. intros i Hi. rewrite Z.land_spec, Z.pow2_bits_eqb by lia.
    destruct (Z.eqb_spec k i) as [-> | Hne].
    - rewrite andb_true_r. destruct (Z.testbit f i) eqn:E.
      + rewrite Z.pow2_bits_eqb by lia. symmetry. apply Z.eqb_refl.
      + symmetry. apply Z.bits_0.
    - rewrite andb_false_r. destruct (Z.testbit f k).
      + rewrite Z.pow2_bits_eqb by lia. symmetry. now apply Z.eqb_neq.
      + symmetry. apply Z.bits_0. }
  rewrite H. destruct (Z.testbit f k); [| reflexivity].
  apply Z.gtb_lt. apply Z.pow_pos_nonneg; lia.
Qed.

Lemma astype_int_exact (cols : TrainingRows.Columns) (v : Z) :
  Z.abs v < 2 ^ 31 -> TrainingRows.astype_int cols v = v.
Proof.
  intros Hv. unfold TrainingRows.astype_int.
  now apply Z.ltb_lt in Hv as ->.
Qed.

(** X27: the training script and the extractor read SYN and ACK from the
    same bits: for a row whose TCP_FLAGS cell is an integer f of the flag
    range (nine bits, 0 to 511), the tcp_syn_flag and tcp_ack_flag columns
    are the S and A flags that the extractor sees in a TCP header with
    flags f. *)
Theorem training_flags_match_extractor (cols : TrainingRows.Columns)
    (r : TrainingRows.Row) (f : Z) :
  TrainingRows.has_TCP_FLAGS cols = true ->
  TrainingRows.tcp_flags_val r = Some f ->
  0 <= f < 512 ->
  TrainingRows.column cols r "tcp_syn_flag"
    = Z.b2z (flag_S {| tcp_flags := f |}) /\
  TrainingRows.column cols r "tcp_ack_flag"
    = Z.b2z (flag_A {| tcp_flags := f |}).
Proof.
  intros Hcol Hf Hrange.
  assert (Hexact : TrainingRows.astype_int cols f = f).
  { apply astype_int_exact. change (2 ^ 31) with 2147483648. lia. }
  change (TrainingRows.column cols r "tcp_syn_flag")
    with (TrainingRows.flag_column 2 cols r).
  change (TrainingRows.column cols r "tcp_ack_flag")
    with (TrainingRows.flag_column 16 cols r).
  unfold TrainingRows.flag_column. rewrite Hcol, Hf.
  change (default 0 (Some f)) with f. rewrite Hexact.
  unfold flag_S, flag_A. cbn [tcp_flags].
  change (Z.land f 2) with (Z.land f (2 ^ 1)).
  change (Z.land f 16) with (Z.land f (2 ^ 4)).
  rewrite !land_pow2 by lia.
  split; [destruct (Z.testbit f 1) | destruct (Z.testbit f 4)]; reflexivity.
Qed.

Lemma training_flags_match_extractor_witness :
  TrainingRows.column all_columns syn_ack_row "tcp_syn_flag"
    = Z.b2z (flag_S {| tcp_flags := 18 |}) /\
  TrainingRows.column all_columns syn_ack_row "tcp_ack_flag"
    = Z.b2z (flag_A {| tcp_flags := 18 |}).
Proof.
  apply (training_flags_match_extractor all_columns syn_ack_row 18);
    [reflexivity | reflexivity | lia].
Defined.


(** ** Analytics charts *)

Lemma pow2_6 : pow2 6 == 64.
Proof. reflexivity. Qed.

Lemma small_is_finite (x : Q) : (0 <= x <= 50)%Q -> overflows x = false.
Proof.
  intros Hx. unfold overflows.
  destruct (Qle_bool (pow2 1024) (Qabs x)) eqn:E; [| reflexivity].
  apply Qle_bool_iff in E. rewrite Qabs_pos in E by lra.
  pose proof (pow2_lt 6 1024 ltac:(lia)) as H. rewrite pow2_6 in H. lra.
Qed.

Lemma fl64_1 : fl64 1 = 1%Q.
Proof. vm_compute. reflexivity. Qed.

Lemma fl64_50 : fl64 (inject_Z 50) = 50%Q.
Proof. vm_compute. reflexivity. Qed.

(** The quotient of a count by the largest count, as a float. *)
Lemma ratio_unit (c m : Z) :
  0 < m -> 0 <= c <= m ->
  (0 <= fl64 (inject_Z c / inject_Z m) <= 1)%Q.
Proof.
  intros Hm Hc.
  assert (HM : (0 < inject_Z m)%Q).
  { change 0%Q with (inject_Z 0). rewrite <- Zlt_Qlt. lia. }
  assert (HC : (0 <= inject_Z c <= inject_Z m)%Q).
  { change 0%Q with (inject_Z 0). rewrite <- !Zle_Qle. lia. }
  assert (H0 : (0 <= inject_Z c / inject_Z m)%Q)
    by (apply Qle_shift_div_l; lra).
  assert (H1 : (inject_Z c / inject_Z m <= 1)%Q)
    by (apply Qle_shift_div_r; lra).
  split; [now apply fl64_nonneg |].
  rewrite <- fl64_1. now apply fl64_mono.
Qed.

Lemma bar_float_range (c m : Z) :
  0 < m -> 0 <= c <= m -> (0 <= bar_float m c <= 50)%Q.
Proof.
  intros Hm Hc. unfold bar_float. rewrite fl64_50.
  pose proof (ratio_unit c m Hm Hc) as Hr.
  split; [apply fl64_nonneg; lra |].
  rewrite <- fl64_50 at 2. change (inject_Z 50) with 50%Q.
  apply fl64_mono; lra.
Qed.

Lemma bar_float_mono (c c' m : Z) :
  0 < m -> 0 <= c <= c' -> (bar_float m c <= bar_float m c')%Q.
Proof.
  intros Hm Hc. unfold bar_float. rewrite fl64_50.
  assert (HM : (0 < inject_Z m)%Q).
  { change 0%Q with (inject_Z 0). rewrite <- Zlt_Qlt. lia. }
  assert (HC : (0 <= inject_Z c <= inject_Z c')%Q).
  { change 0%Q with (inject_Z 0). rewrite <- !Zle_Qle. lia. }
  assert (H0 : (0 <= inject_Z c / inject_Z m)%Q)
    by (apply Qle_shift_div_l; lra).
  assert (Hle : (inject_Z c / inject_Z m <= inject_Z c' / inject_Z m)%Q).
  { apply Qmult_le_compat_r; [lra |].
    apply Qlt_le_weak, Qinv_lt_0_compat, HM. }
  pose proof (fl64_nonneg _ H0) as Hr0.
  pose proof (fl64_mono _ _ H0 Hle) as Hr.
  apply fl64_mono; lra.
Qed.

Lemma bar_float_full (m : Z) : 0 < m -> bar_float m m = 50%Q.
Proof.
  intros Hm. unfold bar_float.
  assert (E : inject_Z m / inject_Z m == 1).
  { apply Qmult_inv_r. intros H.
    assert (HM : (0 < inject_Z m)%Q).
    { change 0%Q with (inject_Z 0). rewrite <- Zlt_Qlt. lia. }
    lra. }
  rewrite (fl64_comp _ _ E), fl64_1, fl64_50.
  vm_compute. reflexivity.
Qed.

Lemma int_of_float_floor (x : Q) :
  (0 <= x)%Q -> Frontend.int_of_float x = Qfloor x.
Proof.
  intros Hx. unfold Frontend.int_of_float. destruct x as [a b].
  cbn [Qnum Qden Qfloor]. apply Z.quot_div_nonneg; [| lia].
  unfold Qle in Hx. cbn in Hx. lia.
Qed.

Lemma bar_length_value (c m : Z) :
  0 < m -> 0 <= c <= m ->
  Frontend.bar_length c m 50
  = Frontend.Value (Frontend.int_of_float (bar_float m c)).
Proof.
  intros Hm Hc. unfold Frontend.bar_length.
  destruct (Z.eqb_spec m 0) as [-> | _]; [lia |].
  pose proof (ratio_unit c m Hm Hc) as Hr.
  rewrite (small_is_finite (fl64 (inject_Z c / inject_Z m))) by lra.
  rewrite (small_is_finite (fl64 (inject_Z 50)))
    by (rewrite fl64_50; lra).
  fold (bar_float m c).
  rewrite (small_is_finite (bar_float m c))
    by (now apply bar_float_range).
  reflexivity.
Qed.

(** The two roundings show: 29 of 50 draws 28 blocks, not 29. *)
Example bar_length_29_of_50 :
  Frontend.bar_length 29 50 50 = Frontend.Value 28 /\
  Frontend.bar_length 30 50 50 = Frontend.Value 30 /\
  Frontend.bar_length 0 0 50 = Frontend.ZeroDivisionError.
Proof. repeat split; vm_compute; reflexivity. Qed.

Lemma render_lines_map (stats : list (value * Z)) (m : Z) :
  0 < m ->
  Forall (fun item : value * Z => 0 <= item.2 <= m) stats ->
  Frontend.render_lines stats m 50 = Frontend.Value (map (line_of m) stats).
Proof.
  intros Hm. induction 1 as [| [l c] stats Hc _ IH]; [reflexivity |].
  cbn [Frontend.render_lines]. rewrite (bar_length_value c m Hm Hc), IH.
  reflexivity.
Qed.

Lemma max_count_head (first : value * Z) (rest : list (value * Z)) :
  Forall (by_count_desc first) rest -> Frontend.max_count first rest = first.2.
Proof.
  unfold Frontend.max_count, by_count_desc.
  induction 1 as [| x rest Hx _ IH]; [reflexivity |].
  cbn [fold_left]. rewrite Z.max_l by exact Hx. exact IH.
Qed.

Lemma render_sorted (first : value * Z) (rest : list (value * Z)) :
  StronglySorted by_count_desc (first :: rest) ->
  Forall (fun item => 1 <= item.2) (first :: rest) ->
  exists c,
    Frontend._render_bar_chart (first :: rest) 50 = Frontend.Value c /\
    draws (first :: rest) (Frontend.Shown c).
Proof.
  intros Hsorted Hpos.
  pose proof (StronglySorted_inv Hsorted) as [_ Hhead].
  assert (Hfirst : 1 <= first.2) by exact (Forall_inv Hpos).
  assert (Hrange : Forall (fun item : value * Z => 0 <= item.2 <= first.2)
                     (first :: rest)).
  { constructor; [lia |]. apply Forall_cons in Hpos as [_ Hpos].
    apply (Forall_both _ _ _ Hpos) in Hhead.
    eapply Forall_impl; [exact Hhead |].
    unfold by_count_desc. intros item [H1 H2]. lia. }
  unfold Frontend._render_bar_chart.
  rewrite (max_count_head first rest Hhead).
  rewrite (render_lines_map (first :: rest) first.2 ltac:(lia) Hrange).
  eexists. split; [reflexivity |].
  exists (map (line_of first.2) (first :: rest)).
  split; [reflexivity |].
  split; [| split; [| split]].
  - rewrite map_map. rewrite <- (map_id (first :: rest)) at 2.
    apply map_ext. now intros [l c].
  - apply Forall_map. eapply Forall_impl; [exact Hrange |].
    intros item Hitem. cbn.
    pose proof (bar_float_range item.2 first.2 ltac:(lia) Hitem) as [H0 H50].
    rewrite (int_of_float_floor _ H0).
    pose proof (Qfloor_resp_le _ _ H50) as Hfl.
    change (Qfloor 50) with 50 in Hfl. lia.
  - assert (Hboth : StronglySorted
                      (fun a b : value * Z => 0 <= b.2 <= a.2) (first :: rest)).
    { clear -Hsorted Hpos. induction Hsorted as [| a l _ IH Ha]; [constructor |].
      apply Forall_cons in Hpos as [_ Hl]. constructor; [now apply IH |].
      apply (Forall_both _ _ _ Hl) in Ha.
      eapply Forall_impl; [exact Ha |]. unfold by_count_desc.
      intros b [H1 H2]. lia. }
    apply StronglySorted_fmap
      with (R1 := fun a b : value * Z => 0 <= b.2 <= a.2); [| exact Hboth].
    intros a b Hab. cbn.
    pose proof (bar_float_mono b.2 a.2 first.2 ltac:(lia) Hab) as Hm.
    assert (Hb0 : (0 <= bar_float first.2 b.2)%Q).
    { unfold bar_float. apply fl64_nonneg. rewrite fl64_50.
      assert (0 <= fl64 (inject_Z b.2 / inject_Z first.2))%Q.
      { apply fl64_nonneg. apply Qle_shift_div_l.
        - change 0%Q with (inject_Z 0). rewrite <- Zlt_Qlt. lia.
        - rewrite Qmult_0_l. change 0%Q with (inject_Z 0).
          rewrite <- Zle_Qle. lia. }
      lra. }
    rewrite !int_of_float_floor by lra.
    pose proof (Qfloor_resp_le _ _ Hm). lia.
  - exists (line_of first.2 first). split; [reflexivity |].
    cbn. rewrite bar_float_full by lia. reflexivity.
Qed.

Lemma sorted_tally_ready (field : string) (logs : list (gmap string value)) :
  logs <> [] ->
  let all := ApiReads.sorted_desc (ApiReads.tally field logs) in
  all <> [] /\ StronglySorted by_count_desc all /\
  Forall (fun item => 1 <= item.2) all.
Proof.
  intros Hlogs all.
  destruct (tally_tallied field logs) as (_ & Hcounts & Hall).
  split; [| split].
  - destruct logs as [| log logs]; [congruence |].
    destruct (Hall log ltac:(left)) as (kc & Hin & _).
    intros Hnil. rewrite <- (sorted_desc_perm (ApiReads.tally field _)) in Hin.
    fold all in Hin. rewrite Hnil in Hin. now apply elem_of_nil in Hin.
  - apply sorted_desc_sorted.
  - unfold all. rewrite sorted_desc_perm.
    eapply Forall_impl; [exact Hcounts |]. now intros kc [_ H1].
Qed.

Lemma take_ready (n : nat) (l : list (value * Z)) :
  (0 < n)%nat ->
  l <> [] /\ StronglySorted by_count_desc l /\
    Forall (fun item => 1 <= item.2) l ->
  take n l <> [] /\ StronglySorted by_count_desc (take n l) /\
    Forall (fun item => 1 <= item.2) (take n l).
Proof.
  intros Hn (Hne & Hsorted & Hpos). split; [| split].
  - destruct l; [congruence |]. destruct n; [lia | discriminate].
  - now apply take_sorted.
  - now apply Forall_take.
Qed.

Lemma render_ready (stats : list (value * Z)) :
  stats <> [] /\ StronglySorted by_count_desc stats /\
    Forall (fun item => 1 <= item.2) stats ->
  exists c,
    Frontend._render_bar_chart stats 50 = Frontend.Value c /\
    draws stats (Frontend.Shown c).
Proof.
  intros (Hne & Hsorted & Hpos).
  destruct stats as [| first rest]; [congruence |].
  now apply render_sorted.
Qed.

Lemma update_with_traffic (st : Api.State) (self : Frontend.Charts) :
  Api.get_live_logs st <> [] ->
  let t := ApiReads.get_analytics_trends st in
  exists c p i,
    Frontend._update_analytics_data t self
    = (Frontend.Returned,
       {| Frontend.classification_chart := Frontend.Shown c;
          Frontend.protocol_chart := Frontend.Shown p;
          Frontend.ip_chart := Frontend.Shown i |}) /\
    draws (ApiReads.classification_stats t) (Frontend.Shown c) /\
    draws (ApiReads.protocol_stats t) (Frontend.Shown p) /\
    draws (ApiReads.ip_stats t) (Frontend.Shown i).
Proof.
  unfold ApiReads.get_analytics_trends.
  destruct (Api.get_live_logs st) as [| log logs] eqn:Hlogs; [congruence |].
  intros Hne. cbn zeta.
  cbn [ApiReads.classification_stats ApiReads.protocol_stats ApiReads.ip_stats].
  destruct (render_ready _ (sorted_tally_ready "classification" _ Hne))
    as (c & Hc & Hdc).
  destruct (render_ready _ (sorted_tally_ready "protocol" _ Hne))
    as (p & Hp & Hdp).
  destruct (render_ready _
              (take_ready 10 _ ltac:(lia) (sorted_tally_ready "src_ip" _ Hne)))
    as (i & Hi & Hdi).
  exists c, p, i. unfold Frontend._update_analytics_data.
  cbn [ApiReads.classification_stats ApiReads.protocol_stats ApiReads.ip_stats].
  rewrite Hc, Hp, Hi. auto.
Qed.


(** X30: with a non-empty log, each of the three boxes shows one line per
    entry of its statistic, in order, with the entry's label and count;
    no bar is longer than 50 blocks, bars do not grow down the chart, and
    the first bar has the full 50 blocks. *)
Theorem analytics_bars_within_scale (st : Api.State)
    (self : Frontend.Charts) :
  Api.get_live_logs st <> [] ->
  let t := ApiReads.get_analytics_trends st in
  let r := Frontend._update_analytics_data t self in
  draws (ApiReads.classification_stats t) (Frontend.classification_chart r.2) /\
  draws (ApiReads.protocol_stats t) (Frontend.protocol_chart r.2) /\
  draws (ApiReads.ip_stats t) (Frontend.ip_chart r.2).
Proof.
  intros Hne.
  destruct (update_with_traffic st self Hne) as (c & p & i & Heq & Hd).
  cbn zeta in *. rewrite Heq. exact Hd.
Qed.

Lemma analytics_bars_within_scale_witness :
  let t := ApiReads.get_analytics_trends
             (store_of [tcp_normal; udp_anomaly; tcp_normal]) in
  let r := Frontend._update_analytics_data t boxes_loading in
  draws (ApiReads.classification_stats t) (Frontend.classification_chart r.2) /\
  draws (ApiReads.protocol_stats t) (Frontend.protocol_chart r.2) /\
  draws (ApiReads.ip_stats t) (Frontend.ip_chart r.2).
Proof.
  apply (analytics_bars_within_scale
           (store_of [tcp_normal; udp_anomaly; tcp_normal]) boxes_loading).
  discriminate.
Defined.
